(** * Heatmap pipeline of [blender_render.py]

    A shallow embedding of the numeric core of
    [Python Projects/ML & AI Fundamentals/ML & AI Portfolio Project/blender_render.py]:
    [normalize_points], [heatmap_grid] and [heatmap_barplot].

    Conventions.
    - A numpy [float64] is embedded twice. The general statements are about
      [float64] below: a real number, or one of the special values that
      numpy produces instead of raising (a quotient by zero gives an
      infinity or [NaN], with a warning only). There arithmetic on real
      values is exact; zero carries no sign, a quotient by zero takes the
      sign of its numerator. Module [F64] embeds the arithmetic of
      [normalize_points] and of the bucket indices of [heatmap_grid] on the
      binary64 floats themselves, bit for bit; it runs, and shows where the
      rounding, the overflow and the subnormal numbers of binary64 part from
      the real numbers. A statement about the exact arithmetic that these
      effects would break carries the bounds that keep them out
      ([float64_safe], [well_conditioned], [trunc_stable]).
    - Python integers are [Z]; Python exceptions are the constructors of
      [exn], and a function that may raise returns a [result].
    - Arrays are lists (of rows); an index is resolved the way Python does
      it, negative indices counting from the end ([py_index]).
    - Loops are folds over the iterated range, threading the mutated
      array through the error monad ([for_each]).
    - The input of [normalize_points] is a sequence of pairs of reals (the
      rows of a float array); its output, and the input of [heatmap_grid],
      are pairs of floats.
    - [heatmap_grid] reads the module-level name [points]: the names a
      function reads outside its arguments are the fields of [globals].
    - [heatmap_barplot] is embedded in two steps: [heatmap_barplot] is the
      state of the meshes when the loop over the grid ends (line 102), and
      [heatmap_barplot_full] is the whole call, with the objects that lines
      104-124 build from these meshes. *)

From Stdlib Require Import Reals Lra Lia ZArith List Floats.
From stdpp Require Import base list.
Import ListNotations.

(** ** Exceptions *)

Inductive exn : Type :=
| ValueError
| IndexError
| ZeroDivisionError
| OverflowError
| UnboundLocalError.

Definition result (A : Type) : Type := (exn + A)%type.

Definition Ok {A : Type} (a : A) : result A := inr a.
Definition Raise {A : Type} (e : exn) : result A := inl e.

Definition bind {A B : Type} (c : result A) (k : A -> result B) : result B :=
  match c with
  | inl e => inl e
  | inr a => k a
  end.

Notation "x <~ c ;; k" := (bind c (fun x => k))
  (at level 63, c at next level, right associativity).

(** [for x in l: s = body(x, s)] *)
Fixpoint for_each {A S : Type} (l : list A) (body : A -> S -> result S) (s : S)
  : result S :=
  match l with
  | [] => Ok s
  | a :: l' => s' <~ body a s ;; for_each l' body s'
  end.

(** ** Python integers, ranges and indices *)

(** [range(a, b)] *)
Definition py_range (a b : Z) : list Z :=
  map (fun k => (a + Z.of_nat k)%Z) (seq 0 (Z.to_nat (b - a))).

(** Resolution of index [i] on an axis of length [len]. *)
Definition py_index (len : nat) (i : Z) : result nat :=
  if (0 <=? i)%Z && (i <? Z.of_nat len)%Z then Ok (Z.to_nat i)
  else if (- Z.of_nat len <=? i)%Z && (i <? 0)%Z then Ok (Z.to_nat (i + Z.of_nat len))
  else Raise IndexError.

(** [a / b] on Python integers (true division). *)
Definition py_truediv (a b : Z) : result R :=
  if (b =? 0)%Z then Raise ZeroDivisionError else Ok (IZR a / IZR b)%R.

(** ** numpy floats *)

Inductive float64 : Type :=
| Real (r : R)
| PosInf
| NegInf
| NaN.

Definition f_neg (a : float64) : float64 :=
  match a with
  | Real r => Real (- r)
  | PosInf => NegInf
  | NegInf => PosInf
  | NaN => NaN
  end.

Definition f_add (a b : float64) : float64 :=
  match a, b with
  | NaN, _ | _, NaN => NaN
  | Real x, Real y => Real (x + y)
  | PosInf, NegInf | NegInf, PosInf => NaN
  | PosInf, _ | _, PosInf => PosInf
  | NegInf, _ | _, NegInf => NegInf
  end.

Definition f_sub (a b : float64) : float64 := f_add a (f_neg b).

(** The infinity with the sign of [r]; [NaN] at zero ([inf * 0]). *)
Definition inf_times (pos : bool) (r : R) : float64 :=
  if Rlt_dec 0 r then (if pos then PosInf else NegInf)
  else if Rlt_dec r 0 then (if pos then NegInf else PosInf)
  else NaN.

Definition f_mul (a b : float64) : float64 :=
  match a, b with
  | NaN, _ | _, NaN => NaN
  | Real x, Real y => Real (x * y)
  | PosInf, Real r | Real r, PosInf => inf_times true r
  | NegInf, Real r | Real r, NegInf => inf_times false r
  | PosInf, PosInf | NegInf, NegInf => PosInf
  | PosInf, NegInf | NegInf, PosInf => NegInf
  end.

(** [a / b]: numpy does not raise on a zero divisor. *)
Definition f_div (a b : float64) : float64 :=
  match a, b with
  | NaN, _ | _, NaN => NaN
  | Real x, Real y =>
      if Req_dec_T y 0 then
        (if Rlt_dec 0 x then PosInf else if Rlt_dec x 0 then NegInf else NaN)
      else Real (x / y)
  | Real _, (PosInf | NegInf) => Real 0
  | PosInf, Real r => if Rlt_dec r 0 then NegInf else PosInf
  | NegInf, Real r => if Rlt_dec r 0 then PosInf else NegInf
  | (PosInf | NegInf), (PosInf | NegInf) => NaN
  end.

(** [a ** 2] *)
Definition f_sqr (a : float64) : float64 := f_mul a a.

(** [np.exp] *)
Definition f_exp (a : float64) : float64 :=
  match a with
  | Real r => Real (exp r)
  | PosInf => PosInf
  | NegInf => Real 0
  | NaN => NaN
  end.

(** [np.log] *)
Definition f_log (a : float64) : float64 :=
  match a with
  | Real r =>
      if Rlt_dec 0 r then Real (ln r)
      else if Rlt_dec r 0 then NaN else NegInf
  | PosInf => PosInf
  | NegInf => NaN
  | NaN => NaN
  end.

(** [a > b]; every comparison with [NaN] is false. *)
Definition f_gt (a b : float64) : bool :=
  match a, b with
  | NaN, _ | _, NaN => false
  | Real x, Real y => if Rlt_dec y x then true else false
  | PosInf, (Real _ | NegInf) => true
  | Real _, NegInf => true
  | _, _ => false
  end.

(** Truncation of a real toward zero. *)
Definition Rtrunc (r : R) : Z :=
  if Rle_dec 0 r then Zfloor r else Zceil r.

(** [int(a)] *)
Definition py_int (a : float64) : result Z :=
  match a with
  | Real r => Ok (Rtrunc r)
  | PosInf | NegInf => Raise OverflowError
  | NaN => Raise ValueError
  end.

(** [np.max] of the elements seen so far, [NaN] once met is kept. *)
Definition f_max2 (a b : float64) : float64 :=
  match a, b with
  | NaN, _ | _, NaN => NaN
  | _, _ => if f_gt b a then b else a
  end.

(** [np.max(l)] of a flat sequence of floats. *)
Definition np_max (l : list float64) : result float64 :=
  match l with
  | [] => Raise ValueError
  | a :: t => Ok (fold_left f_max2 t a)
  end.

(** ** [normalize_points] *)

(** Minimum and maximum of a non-empty column of reals. *)
Definition min_of (l : list R) : R :=
  match l with
  | [] => 0%R
  | a :: t => fold_left Rmin t a
  end.

Definition max_of (l : list R) : R :=
  match l with
  | [] => 0%R
  | a :: t => fold_left Rmax t a
  end.

(** [np.min(data, axis=0)] and [np.max(data, axis=0)] on an array of shape
    (len, 2): a reduction over an empty axis raises. *)
Definition np_min_axis0 (data : list (R * R)) : result (R * R) :=
  match data with
  | [] => Raise ValueError
  | _ => Ok (min_of (map fst data), min_of (map snd data))
  end.

Definition np_max_axis0 (data : list (R * R)) : result (R * R) :=
  match data with
  | [] => Raise ValueError
  | _ => Ok (max_of (map fst data), max_of (map snd data))
  end.

(** One row of the two column assignments
    [data[:, 0] = (data[:, 0] - minX - 0.5*rangeX) / d + 0.5] and
    [data[:, 1] = (data[:, 1] - minY - 0.5*rangeY) / d + 0.5]. *)
Definition normalize_row (minX minY rangeX rangeY d : R) (p : R * R)
  : float64 * float64 :=
  (f_add (f_div (Real (fst p - minX - 0.5 * rangeX)) (Real d)) (Real 0.5),
   f_add (f_div (Real (snd p - minY - 0.5 * rangeY)) (Real d)) (Real 0.5)).

Definition normalize_points (points : list (R * R))
  : result (list (float64 * float64)) :=
  let data := points in
  mins <~ np_min_axis0 data ;;
  let '(minX, minY) := mins in
  maxs <~ np_max_axis0 data ;;
  let '(maxX, maxY) := maxs in
  let rangeX := (maxX - minX)%R in
  let rangeY := (maxY - minY)%R in
  if Rlt_dec rangeY rangeX then
    Ok (map (normalize_row minX minY rangeX rangeY rangeX) data)
  else
    Ok (map (normalize_row minX minY rangeX rangeY rangeY) data).

(** ** Two-dimensional arrays *)

(** A numpy array of shape (rows, columns), as the list of its rows. *)
Abbreviation ndarray A := (list (list A)).

Definition np_full {A : Type} (rows cols : nat) (v : A) : ndarray A :=
  replicate rows (replicate cols v).

(** [np.ndarray((n, n), dtype=object)] with [v := None] and
    [np.zeros((n, n))] with [v := Real 0]; a negative dimension raises. *)
Definition np_alloc {A : Type} (n : Z) (v : A) : result (ndarray A) :=
  if (n <? 0)%Z then Raise ValueError
  else Ok (np_full (Z.to_nat n) (Z.to_nat n) v).

(** [a[i, j]] and [a[i][j]] *)
Definition nd_get {A : Type} (a : ndarray A) (i j : Z) : result A :=
  i' <~ py_index (length a) i ;;
  match a !! i' with
  | None => Raise IndexError
  | Some row =>
      j' <~ py_index (length row) j ;;
      match row !! j' with
      | None => Raise IndexError
      | Some v => Ok v
      end
  end.

(** [a[i, j] = v] and [a[i][j] = v] *)
Definition nd_set {A : Type} (a : ndarray A) (i j : Z) (v : A)
  : result (ndarray A) :=
  i' <~ py_index (length a) i ;;
  match a !! i' with
  | None => Raise IndexError
  | Some row =>
      j' <~ py_index (length row) j ;;
      Ok (<[i' := <[j' := v]> row]> a)
  end.

(** ** [heatmap_grid] *)

(** The module-level names read by the functions of the script. *)
Record globals : Type := { points : list (R * R) }.

Abbreviation point := (float64 * float64)%type.

(** The bucket array [X]: a cell is [None] or the list of its points. *)
Abbreviation buckets := (ndarray (option (list point))).

(** Body of the loop of lines 40-46, for one [idx]. *)
Definition bucket_step (data : list point) (n : Z) (idx : nat) (X : buckets)
  : result buckets :=
  p <~ match data !! idx with
       | Some p => Ok p
       | None => Raise IndexError
       end ;;
  let '(x, y) := p in
  i <~ py_int (f_mul x (Real (IZR (n - 1)))) ;;
  j <~ py_int (f_mul y (Real (IZR (n - 1)))) ;;
  c <~ nd_get X i j ;;
  match c with
  | None => nd_set X i j (Some [(x, y)])
  | Some l => nd_set X i j (Some (l ++ [(x, y)]))
  end.

(** Lines 39-46: the loop runs over [len(points)], the module-level array,
    and indexes the argument [data]. *)
Definition fill_buckets (g : globals) (data : list point) (n : Z)
  : result buckets :=
  X <~ np_alloc n None ;;
  for_each (seq 0 (length (points g))) (bucket_step data n) X.

(** [np.exp(- ((x0 - x)**2)/(2*sigma_sq) - ((y0 - y)**2)/(2*sigma_sq))] *)
Definition kernel (sigma_sq x0 y0 : R) (p : point) : float64 :=
  let '(x, y) := p in
  f_exp (f_sub
           (f_div (f_neg (f_sqr (f_sub (Real x0) x))) (Real (2 * sigma_sq)))
           (f_div (f_sqr (f_sub (Real y0) y)) (Real (2 * sigma_sq)))).

(** [grid[i0][j0] += v] *)
Definition grid_add (i0 j0 : Z) (v : float64) (grid : ndarray float64)
  : result (ndarray float64) :=
  c <~ nd_get grid i0 j0 ;;
  nd_set grid i0 j0 (f_add c v).

(** Body of the loops over [i0] and [j0] (lines 52-60). *)
Definition heatmap_cell (X : buckets) (sigma_sq : R) (n m i0 j0 : Z)
  (grid : ndarray float64) : result (ndarray float64) :=
  x0 <~ py_truediv i0 (n - 1) ;;
  y0 <~ py_truediv j0 (n - 1) ;;
  for_each (py_range (Z.max 0 (i0 - m)) (Z.min (i0 + m) n))
    (fun i grid =>
       for_each (py_range (Z.max 0 (j0 - m)) (Z.min (j0 + m) n))
         (fun j grid =>
            c <~ nd_get X i j ;;
            match c with
            | None => Ok grid
            | Some l =>
                for_each l
                  (fun p grid => grid_add i0 j0 (kernel sigma_sq x0 y0 p) grid)
                  grid
            end)
         grid)
    grid.

(** Lines 48-63. *)
Definition sum_kernels (X : buckets) (sigma_sq : R) (n m : Z)
  : result (ndarray float64) :=
  grid <~ np_alloc n (Real 0) ;;
  for_each (py_range 0 n)
    (fun i0 grid =>
       for_each (py_range 0 n)
         (fun j0 grid => heatmap_cell X sigma_sq n m i0 j0 grid)
         grid)
    grid.

Definition heatmap_grid (g : globals) (data : list point) (sigma_sq : R)
  (n m : Z) : result (ndarray float64) :=
  X <~ fill_buckets g data n ;;
  sum_kernels X sigma_sq n m.

(** ** [heatmap_barplot], up to the end of the loop over the grid *)

(** A cube added to a mesh by [bmesh.ops.create_cube(bm, size, matrix=T@S)]:
    its size, the translation of [T] and the scale factor of [S]. *)
Record cube : Type := {
  cube_size : R;
  cube_tx : R;
  cube_ty : R;
  cube_tz : float64;
  cube_scale : float64
}.

(** The meshes [bmList], one per color group, and a count of the quotients
    by [z_max] evaluated so far. *)
Record barplot_state : Type := {
  bmList : list (list cube);
  zmax_divisions : nat
}.

(** Lines 87-102, for a cell with [z > 0.001]. *)
Definition add_bar (h width bar_width : R) (num_colors : Z) (x y : R)
  (z z_max : float64) (s : barplot_state) : result barplot_state :=
  let bar_height :=
    f_add (f_div (f_mul (Real (h - bar_width)) z) z_max) (Real bar_width) in
  let t := f_sub (Real 1) (f_exp (f_div (f_neg (f_div z z_max)) (Real 0.2))) in
  ki <~ py_int (f_mul (Real (IZR num_colors)) t) ;;
  let k := Z.min ki (num_colors - 1) in
  k' <~ py_index (length (bmList s)) k ;;
  match bmList s !! k' with
  | None => Raise IndexError
  | Some bm =>
      let c := {| cube_size := bar_width;
                  cube_tx := width * (x - 0.5);
                  cube_ty := width * (y - 0.5);
                  cube_tz := f_div bar_height (Real 2);
                  cube_scale := f_div bar_height (Real bar_width) |} in
      Ok {| bmList := <[k' := bm ++ [c]]> (bmList s);
            zmax_divisions := 2 + zmax_divisions s |}
  end.

(** Body of the loops over [i] and [j] (lines 85-102). *)
Definition barplot_cell (grid : ndarray float64) (h width bar_width : R)
  (num_colors : Z) (z_max : float64) (n m i j : Z) (s : barplot_state)
  : result barplot_state :=
  x <~ py_truediv i (n - 1) ;;
  y <~ py_truediv j (m - 1) ;;
  z <~ nd_get grid i j ;;
  if f_gt z (Real 0.001) then
    add_bar h width bar_width num_colors x y z z_max s
  else Ok s.

(** Lines 69-102: the state of the meshes when the loop over the grid ends.
    The rest of the call, lines 104-124, is [heatmap_barplot_full] below. *)
Definition heatmap_barplot (grid : ndarray float64) (h width bar_scale : R)
  (num_colors : Z) (logarithmic : bool) : result barplot_state :=
  let grid :=
    if logarithmic then map (map (fun v => f_log (f_add v (Real 1)))) grid
    else grid in
  z_max <~ np_max (concat grid) ;;
  let n := Z.of_nat (length grid) in
  let m := Z.of_nat (length (hd [] grid)) in
  bar_width <~ (if (Z.max n m =? 0)%Z then Raise ZeroDivisionError
                else Ok (bar_scale * width / IZR (Z.max n m))%R) ;;
  let s0 := {| bmList := replicate (Z.to_nat num_colors) [];
               zmax_divisions := 0 |} in
  for_each (py_range 0 n)
    (fun i s =>
       for_each (py_range 0 m)
         (fun j s =>
            barplot_cell grid h width bar_width num_colors z_max n m i j s)
         s)
    s0.

(** ** [heatmap_barplot], lines 104-124: the objects of the scene *)

(** A color returned by the colormap: red, green, blue, alpha. *)
Abbreviation rgba := (R * R * R * R)%type.

(** [color[:3]] *)
Definition rgb (c : rgba) : R * R * R :=
  let '(r, g, b, _) := c in (r, g, b).

(** The mesh of an object: the cubes of a color group, or the circle of
    [bmesh.ops.create_circle(bm_plane, radius=n**2)]. *)
Inductive mesh : Type :=
| Bars (cubes : list cube)
| Circle (radius : Z).

(** An object of [objList]: its mesh, the color of its material and the
    width of its bevel modifier (the circle has none). *)
Record scene_object : Type := {
  obj_mesh : mesh;
  obj_material : R * R * R;
  obj_bevel : option R
}.

(** The local names bound by lines 104-117: [objList], and [color], which
    is unbound until the body of the loop has run once. *)
Record objects_state : Type := {
  objList : list scene_object;
  color : option rgba
}.

(** [enumerate(l)] *)
Definition enumerate {A : Type} (l : list A) : list (nat * A) :=
  combine (seq 0 (length l)) l.

(** Body of the loop of lines 105-117, for one pair [(i, bm)]. *)
Definition bar_object (colormap : R -> rgba) (num_colors : Z) (bevel_width : R)
  (ibm : nat * list cube) (st : objects_state) : result objects_state :=
  t <~ py_truediv (Z.of_nat (fst ibm)) num_colors ;;
  let c := colormap t in
  Ok {| objList := objList st ++ [{| obj_mesh := Bars (snd ibm);
                                      obj_material := rgb c;
                                      obj_bevel := Some bevel_width |}];
        color := Some c |}.

(** Lines 66-124, the whole call. The calls into [utils], [bmesh] and the
    colormap are taken to return; the function itself returns nothing, the
    result here is [objList] when line 124 has run. Line 122 reads [color],
    a name that only the loop of line 105 binds. *)
Definition heatmap_barplot_full (grid : ndarray float64) (h width bar_scale : R)
  (num_colors : Z) (colormap : R -> rgba) (bevel_width : R) (logarithmic : bool)
  : result (list scene_object) :=
  s <~ heatmap_barplot grid h width bar_scale num_colors logarithmic ;;
  let n := Z.of_nat (length grid) in
  st <~ for_each (enumerate (bmList s))
          (bar_object colormap num_colors bevel_width)
          {| objList := []; color := None |} ;;
  match color st with
  | None => Raise UnboundLocalError
  | Some c =>
      Ok (objList st ++ [{| obj_mesh := Circle (n ^ 2);
                            obj_material := rgb c;
                            obj_bevel := None |}])
  end.

(** ** The script: lines 185-189

    [data = normalize_points(points)], [hist = heatmap_grid(data,
    sigma_sq=0.00005, n=80)] with the default [m = 2], and
    [heatmap_barplot(hist, colormap=cm.viridis)] with the defaults [h = 4],
    [width = 10], [bar_scale = 0.9], [num_colors = 10],
    [bevel_width = 0.015], [logarithmic = False]. The module-level [points]
    read by [heatmap_grid] is the array that was passed to
    [normalize_points]; [viridis] stands for [cm.viridis]. *)
Definition render_heatmap (viridis : R -> rgba) (pts : list (R * R))
  : result (list scene_object) :=
  data <~ normalize_points pts ;;
  hist <~ heatmap_grid {| points := pts |} data 0.00005 80 2 ;;
  heatmap_barplot_full hist 4 10 0.9 10 viridis 0.015 false.

(** ** Lines 22-31 and 39-46 on binary64 floats

    The same lines with the arithmetic of the machine: every operation
    rounds to the nearest binary64 float, overflows to an infinity and
    underflows through the subnormal numbers. *)

Module F64.
Local Open Scope float_scope.

(** The step of the reductions [np.min] and [np.max]: a [NaN] once met is kept. *)
Definition np_minimum (a b : float) : float :=
  if (a <? b) || is_nan a then a else b.

Definition np_maximum (a b : float) : float :=
  if (b <? a) || is_nan a then a else b.

Definition np_min (l : list float) : result float :=
  match l with
  | [] => Raise ValueError
  | a :: t => Ok (fold_left np_minimum t a)
  end.

Definition np_max (l : list float) : result float :=
  match l with
  | [] => Raise ValueError
  | a :: t => Ok (fold_left np_maximum t a)
  end.

(** [np.min(data, axis=0)] and [np.max(data, axis=0)] *)
Definition np_min_axis0 (data : list (float * float)) : result (float * float) :=
  x <~ np_min (map fst data) ;;
  y <~ np_min (map snd data) ;;
  Ok (x, y).

Definition np_max_axis0 (data : list (float * float)) : result (float * float) :=
  x <~ np_max (map fst data) ;;
  y <~ np_max (map snd data) ;;
  Ok (x, y).

(** One row of the assignments of lines 27-28 and 30-31. *)
Definition normalize_row (minX minY rangeX rangeY d : float) (p : float * float)
  : float * float :=
  ((fst p - minX - 0.5 * rangeX) / d + 0.5,
   (snd p - minY - 0.5 * rangeY) / d + 0.5).

Definition normalize_points (points : list (float * float))
  : result (list (float * float)) :=
  let data := points in
  mins <~ np_min_axis0 data ;;
  let '(minX, minY) := mins in
  maxs <~ np_max_axis0 data ;;
  let '(maxX, maxY) := maxs in
  let rangeX := maxX - minX in
  let rangeY := maxY - minY in
  if rangeY <? rangeX then
    Ok (map (normalize_row minX minY rangeX rangeY rangeX) data)
  else
    Ok (map (normalize_row minX minY rangeX rangeY rangeY) data).

(** [int(a)]: the integer part of a finite float, toward zero. *)
Definition py_int (a : float) : result Z :=
  match Prim2SF a with
  | S754_nan => Raise ValueError
  | S754_infinity _ => Raise OverflowError
  | S754_zero _ => Ok 0%Z
  | S754_finite s m e =>
      let v := (if 0 <=? e then Z.pos m * 2 ^ e else Z.pos m / 2 ^ (- e))%Z in
      Ok (if s then (- v)%Z else v)
  end.

(** The float of a Python integer of magnitude below 2^63, as the product
    [x * (n - 1)] of a float and an integer converts it. *)
Definition of_int (z : Z) : float :=
  if (z <? 0)%Z then - of_uint63 (Uint63.of_Z (- z))
  else of_uint63 (Uint63.of_Z z).

(** Body of the loop of lines 40-46, for one [idx]. *)
Definition bucket_step (data : list (float * float)) (n : Z) (idx : nat)
  (X : ndarray (option (list (float * float))))
  : result (ndarray (option (list (float * float)))) :=
  p <~ match data !! idx with
       | Some p => Ok p
       | None => Raise IndexError
       end ;;
  let '(x, y) := p in
  i <~ py_int (x * of_int (n - 1)) ;;
  j <~ py_int (y * of_int (n - 1)) ;;
  c <~ nd_get X i j ;;
  match c with
  | None => nd_set X i j (Some [(x, y)])
  | Some l => nd_set X i j (Some (l ++ [(x, y)]))
  end.

(** Lines 39-46. *)
Definition fill_buckets (g : globals) (data : list (float * float)) (n : Z)
  : result (ndarray (option (list (float * float)))) :=
  X <~ np_alloc n None ;;
  for_each (seq 0 (length (points g))) (bucket_step data n) X.

(** A point set translated by an offset and scaled by a factor, in floats. *)
Definition translate (cx cy : float) (p : float * float) : float * float :=
  (fst p + cx, snd p + cy).

Definition scale (s : float) (p : float * float) : float * float :=
  (s * fst p, s * snd p).

(** The real number that a finite float stands for (zero for the others). *)
Definition to_R (a : float) : R :=
  match Prim2SF a with
  | S754_finite s m e =>
      let v := (if (0 <=? e)%Z then IZR (Z.pos m * 2 ^ e)
                else IZR (Z.pos m) / IZR (2 ^ (- e)))%R in
      if s then (- v)%R else v
  | _ => 0%R
  end.
End F64.

(** ** Vocabulary of the statements *)

(** A row of real coordinates, as a row of floats. *)
Definition real_row (q : R * R) : float64 * float64 := (Real (fst q), Real (snd q)).

(** A point translated by the offset (cx, cy), and scaled by [s]. *)
Definition translate (cx cy : R) (p : R * R) : R * R :=
  (fst p + cx, snd p + cy)%R.
Definition scale (s : R) (p : R * R) : R * R := (s * fst p, s * snd p)%R.

(** The Gaussian contribution of the real point (x, y) to the cell centre
    (x0, y0). *)
Definition gauss (sigma_sq x0 y0 : R) (q : R * R) : R :=
  exp (- ((x0 - fst q) * (x0 - fst q)) / (2 * sigma_sq)
       - ((y0 - snd q) * (y0 - snd q)) / (2 * sigma_sq))%R.

(** An array with [rows] rows of [cols] cells. *)
Definition has_shape {A : Type} (rows cols : nat) (a : ndarray A) : Prop :=
  length a = rows /\ Forall (fun row => length row = cols) a.

(** The cell at row [i] and column [j], both counted from zero. *)
Definition nd_cell {A : Type} (a : ndarray A) (i j : nat) : option A :=
  match a !! i with
  | Some row => row !! j
  | None => None
  end.

(** [a] with the cell at row [i] and column [j] replaced by [v]. *)
Definition nd_upd {A : Type} (a : ndarray A) (i j : nat) (v : A) : ndarray A :=
  match a !! i with
  | Some row => <[i := <[j := v]> row]> a
  | None => a
  end.

(** [a'] has the shape of [a], holds [v] at (i, j) and agrees with [a]
    everywhere else. *)
Definition cell_written {A : Type} (rows cols : nat) (a : ndarray A)
  (i j : nat) (v : A) (a' : ndarray A) : Prop :=
  has_shape rows cols a' /\
  nd_cell a' i j = Some v /\
  forall i' j', (i', j') <> (i, j) -> nd_cell a' i' j' = nd_cell a i' j'.

(** The cell of the [n] by [n] bucket array that lines 42-46 resolve for a
    point: the two truncated products, each resolved as an index. *)
Definition bucket_of (n : Z) (p : point) : result (nat * nat) :=
  i <~ py_int (f_mul (fst p) (Real (IZR (n - 1)))) ;;
  j <~ py_int (f_mul (snd p) (Real (IZR (n - 1)))) ;;
  i' <~ py_index (Z.to_nat n) i ;;
  j' <~ py_index (Z.to_nat n) j ;;
  Ok (i', j').

Definition in_bucket (n : Z) (i j : nat) (p : point) : bool :=
  match bucket_of n p with
  | inr (i', j') => (i =? i')%nat && (j =? j')%nat
  | inl _ => false
  end.

(** The points held by the cell (i, j) of a bucket array. *)
Definition cell_points (X : buckets) (i j : nat) : list point :=
  match nd_cell X i j with
  | Some (Some l) => l
  | _ => []
  end.

(** [X] is the [n] by [n] bucket array of the points [D]: every cell holds,
    in order, the points of [D] that resolve to it. *)
Definition buckets_of (n : Z) (D : list point) (X : buckets) : Prop :=
  has_shape (Z.to_nat n) (Z.to_nat n) X /\
  forall i j, (i < Z.to_nat n)%nat -> (j < Z.to_nat n)%nat ->
    cell_points X i j = List.filter (in_bucket n i j) D.

(** Every point of [D] resolves to a cell of the [n] by [n] array. *)
Definition bucketable (n : Z) (D : list point) : Prop :=
  Forall (fun p => exists ij, bucket_of n p = Ok ij) D.

(** The points that lines 55-58 visit for the target cell (i0, j0), in the
    order of the visit. *)
Definition window_points (X : buckets) (n m i0 j0 : Z) : list point :=
  flat_map
    (fun i =>
       flat_map (fun j => cell_points X (Z.to_nat i) (Z.to_nat j))
         (py_range (Z.max 0 (j0 - m)) (Z.min (j0 + m) n)))
    (py_range (Z.max 0 (i0 - m)) (Z.min (i0 + m) n)).

(** The kernels of the points of [l], added one after the other to [v0]. *)
Definition cell_sum (sigma_sq x0 y0 : R) (l : list point) (v0 : float64)
  : float64 :=
  fold_left (fun acc p => f_add acc (kernel sigma_sq x0 y0 p)) l v0.

(** The value that the loops leave in the cell (i0, j0) of the grid. *)
Definition cell_value (X : buckets) (sigma_sq : R) (n m i0 j0 : Z) : float64 :=
  cell_sum sigma_sq (IZR i0 / IZR (n - 1)) (IZR j0 / IZR (n - 1))
    (window_points X n m i0 j0) (Real 0).

(** The grid while the loops over the target cells run: [done i0 j0] tells
    which cells have been summed, the others still hold zero. *)
Definition grid_state (X : buckets) (sigma_sq : R) (n m : Z)
  (done : Z -> Z -> Prop) (grid : ndarray float64) : Prop :=
  has_shape (Z.to_nat n) (Z.to_nat n) grid /\
  forall i0 j0, (0 <= i0 < n)%Z -> (0 <= j0 < n)%Z ->
    (done i0 j0 ->
     nd_cell grid (Z.to_nat i0) (Z.to_nat j0) = Some (cell_value X sigma_sq n m i0 j0)) /\
    (~ done i0 j0 ->
     nd_cell grid (Z.to_nat i0) (Z.to_nat j0) = Some (Real 0)).

(** The sum of a list of reals. *)
Definition Rsum (l : list R) : R := fold_right Rplus 0%R l.

(** The bucket cell of a real point, as the specification defines it:
    [(floor(x*(n-1)), floor(y*(n-1)))]. *)
Definition bucket_cell (n : Z) (q : R * R) : Z * Z :=
  (Zfloor (fst q * IZR (n - 1)), Zfloor (snd q * IZR (n - 1))).

(** [max(0, i0-m) <= i < min(i0+m, n)] *)
Definition in_window (n m i0 i : Z) : bool :=
  (Z.max 0 (i0 - m) <=? i)%Z && (i <? Z.min (i0 + m) n)%Z.

(** The points of [pts] whose bucket cell lies in the window of (i0, j0). *)
Definition window_of (n m i0 j0 : Z) (pts : list (R * R)) : list (R * R) :=
  List.filter
    (fun q => in_window n m i0 (fst (bucket_cell n q))
              && in_window n m j0 (snd (bucket_cell n q)))
    pts.

(** The sum of the Gaussian contributions to the centre of the cell
    (i0, j0) of the points of its window. *)
Definition window_sum (sigma_sq : R) (n m i0 j0 : Z) (pts : list (R * R)) : R :=
  Rsum (map (gauss sigma_sq (IZR i0 / IZR (n - 1)) (IZR j0 / IZR (n - 1)))
          (window_of n m i0 j0 pts)).

(** Both coordinates lie in [0, 1]. *)
Definition in_unit_square (q : R * R) : Prop :=
  (0 <= fst q <= 1 /\ 0 <= snd q <= 1)%R.

(** Membership in a list of integers. *)
Definition memb (z : Z) (l : list Z) : bool := existsb (Z.eqb z) l.

(** The larger of the two coordinate ranges of a sequence of points. *)
Definition dominant_range (pts : list (R * R)) : R :=
  Rmax (max_of (map fst pts) - min_of (map fst pts))
       (max_of (map snd pts) - min_of (map snd pts)).

(** A sequence of points is degenerate when both ranges are zero. *)
Definition non_degenerate (pts : list (R * R)) : Prop :=
  (max_of (map fst pts) - min_of (map fst pts) <> 0 \/
   max_of (map snd pts) - min_of (map snd pts) <> 0)%R.

(** ** Bounds under which binary64 follows the exact arithmetic

    The statements about the exact arithmetic that the rounding, the
    overflow or the subnormal numbers of binary64 would break are made
    under these bounds. *)

(** A real number within the range of the finite floats, with room for one
    doubling. *)
Definition float64_finite (r : R) : Prop :=
  (- 2 ^ 1022 <= r <= 2 ^ 1022)%R.

(** Coordinates within the range of the floats, so that no range
    overflows, and a dominant range of at least 2^-1021, so that half of it
    is not subnormal. *)
Definition float64_safe (pts : list (R * R)) : Prop :=
  (/ 2 ^ 1021 <= dominant_range pts)%R /\
  Forall (fun p => float64_finite (fst p) /\ float64_finite (snd p)) pts.

(** No coordinate exceeds four times the dominant range in magnitude:
    rounding a coordinate moves it by a few last places of the range. *)
Definition well_conditioned (pts : list (R * R)) : Prop :=
  Forall (fun p => (Rabs (fst p) <= 4 * dominant_range pts /\
                    Rabs (snd p) <= 4 * dominant_range pts)%R) pts.

(** The product [r] of a coordinate by [n - 1] stays [n * 2^-52] away from
    the next integer in magnitude: the binary64 product, which is within
    [2^-53 * r] of it, has the same integer part. *)
Definition trunc_stable (n : Z) (r : R) : Prop :=
  (Rabs r <= IZR (Z.abs (Rtrunc r)) + 1 - IZR n / 2 ^ 52)%R.

Definition bucket_stable (n : Z) (q : R * R) : Prop :=
  trunc_stable n (fst q * IZR (n - 1)) /\ trunc_stable n (snd q * IZR (n - 1)).

(** ** Vocabulary for [heatmap_barplot] on a grid of reals *)

(** Line 88-89: the color group of a cell of value [r], for the maximum [mx]. *)
Definition color_index (num_colors : Z) (r mx : R) : Z :=
  Z.min (Rtrunc (IZR num_colors * (1 - exp (- (r / mx) / 0.2)))) (num_colors - 1).

(** Line 87: the height of the bar of a cell of value [r]. *)
Definition bar_height (h bar_width r mx : R) : R :=
  ((h - bar_width) * r / mx + bar_width)%R.

(** Lines 92-102: the cube added for the cell (i, j) of value [r] of a grid
    with [n] rows and [m] columns. *)
Definition bar_cube (h width bar_width : R) (n m : Z) (mx : R) (i j : Z) (r : R)
  : cube :=
  {| cube_size := bar_width;
     cube_tx := width * (IZR i / IZR (n - 1) - 0.5);
     cube_ty := width * (IZR j / IZR (m - 1) - 0.5);
     cube_tz := Real (bar_height h bar_width r mx / 2);
     cube_scale := f_div (Real (bar_height h bar_width r mx)) (Real bar_width) |}.

(** The value of the cell (i, j) of a grid of reals (0 outside the grid). *)
Definition cell_real (zgrid : ndarray R) (ij : Z * Z) : R :=
  match nd_cell zgrid (Z.to_nat (fst ij)) (Z.to_nat (snd ij)) with
  | Some r => r
  | None => 0%R
  end.

(** Line 86: [z > 0.001]. *)
Definition above_threshold (zgrid : ndarray R) (ij : Z * Z) : bool :=
  if Rlt_dec 0.001 (cell_real zgrid ij) then true else false.

(** The index pairs in the order of the loops of lines 83-84. *)
Definition grid_cells (n m : Z) : list (Z * Z) :=
  list_prod (py_range 0 n) (py_range 0 m).

(** The cubes of the color group [k]: those of the cells of [cells] above
    the threshold whose color group is [k], in the order of [cells]. *)
Definition mesh_of (zgrid : ndarray R) (h width bar_width : R) (num_colors : Z)
  (n m : Z) (mx : R) (k : nat) (cells : list (Z * Z)) : list cube :=
  map (fun ij => bar_cube h width bar_width n m mx (fst ij) (snd ij) (cell_real zgrid ij))
    (List.filter
       (fun ij => above_threshold zgrid ij
                  && (Z.to_nat (color_index num_colors (cell_real zgrid ij) mx) =? k)%nat)
       cells).

(** Line 71: [np.log(grid + 1)], on a grid of reals. *)
Definition log_grid (logarithmic : bool) (rgrid : ndarray R) : ndarray R :=
  if logarithmic then map (map (fun r => ln (r + 1))) rgrid else rgrid.

(** The state of [heatmap_barplot] after the cells [cells]. *)
Definition barplot_after (zgrid : ndarray R) (h width bar_width : R)
  (num_colors : Z) (n m : Z) (mx : R) (cells : list (Z * Z)) (s : barplot_state)
  : Prop :=
  length (bmList s) = Z.to_nat num_colors /\
  length (concat (bmList s)) = length (List.filter (above_threshold zgrid) cells) /\
  zmax_divisions s = (2 * length (List.filter (above_threshold zgrid) cells))%nat /\
  forall k, (k < Z.to_nat num_colors)%nat ->
    bmList s !! k = Some (mesh_of zgrid h width bar_width num_colors n m mx k cells).

(** The objects that lines 105-117 build from the meshes [bml], the first
    of them being the color group [start]. *)
Definition bar_objects (colormap : R -> rgba) (num_colors : Z) (bevel_width : R)
  (start : nat) (bml : list (list cube)) : list scene_object :=
  map (fun ibm =>
         {| obj_mesh := Bars (snd ibm);
            obj_material := rgb (colormap (IZR (Z.of_nat (fst ibm)) / IZR num_colors)%R);
            obj_bevel := Some bevel_width |})
    (combine (seq start (length bml)) bml).

(** The object of lines 119-124 for a grid of [rows] rows. *)
Definition plane_object (colormap : R -> rgba) (num_colors : Z) (rows : nat)
  : scene_object :=
  {| obj_mesh := Circle (Z.of_nat rows ^ 2);
     obj_material := rgb (colormap (IZR (num_colors - 1) / IZR num_colors)%R);
     obj_bevel := None |}.

(** * Properties *)

(** ** The bounds of binary64 *)

Local Open Scope R_scope.

(** The bounds of [float64_safe] leave at least one range other than zero. *)
Lemma float64_safe_ranges (pts : list (R * R)) :
  float64_safe pts ->
  max_of (map fst pts) - min_of (map fst pts) <> 0 \/
  max_of (map snd pts) - min_of (map snd pts) <> 0.
Proof.
  intros [Hd _]; unfold dominant_range in Hd.
  assert (H0 : 0 < / 2 ^ 1021) by (apply Rinv_0_lt_compat, pow_lt; lra).
  destruct (Req_dec (max_of (map fst pts) - min_of (map fst pts)) 0) as [E|E];
    [right | now left].
  intros E'; rewrite E, E' in Hd; unfold Rmax in Hd.
  destruct (Rle_dec 0 0); lra.
Qed.

Ltac eval_minmax :=
  repeat match goal with
         | |- context [Rmax ?a ?b] =>
             first [rewrite (Rmax_left a b) by lra | rewrite (Rmax_right a b) by lra]
         | |- context [Rmin ?a ?b] =>
             first [rewrite (Rmin_left a b) by lra | rewrite (Rmin_right a b) by lra]
         end.

Ltac solve_float64_safe :=
  split;
  [ unfold dominant_range;
    cbv beta iota delta [translate scale map fst snd max_of min_of fold_left];
    eval_minmax; lra
  | cbv beta iota delta [translate scale map fst snd];
    repeat match goal with |- Forall _ _ => constructor end;
    unfold float64_finite; cbv beta iota delta [fst snd]; repeat split; lra ].

Lemma float64_safe_two_points : float64_safe [(0, 0); (2, 1)].
Proof. solve_float64_safe. Qed.

Ltac solve_well_conditioned :=
  unfold well_conditioned, dominant_range;
  cbv beta iota delta [translate scale map fst snd max_of min_of fold_left];
  eval_minmax;
  repeat match goal with |- Forall _ _ => constructor end;
  cbv beta iota; unfold Rabs;
  repeat match goal with
         | |- context [Rcase_abs ?a] => destruct (Rcase_abs a)
         end;
  repeat split; lra.

(** The real number of a positive float with a negative exponent. *)
Lemma to_R_dyadic (a : float) (m k : positive) :
  Prim2SF a = S754_finite false m (Z.neg k) ->
  F64.to_R a = IZR (Z.pos m) / IZR (2 ^ Z.pos k).
Proof. intros E; unfold F64.to_R; rewrite E; reflexivity. Qed.

Ltac eval_powers_of_two :=
  repeat match goal with
         | |- context [(2 ^ Z.pos ?k)%Z] =>
             let v := eval vm_compute in (2 ^ Z.pos k)%Z in
             change (2 ^ Z.pos k)%Z with v
         end.

(** An integer product is stable, for [n] up to 2^52. *)
Lemma Rtrunc_IZR (k : Z) : Rtrunc (IZR k) = k.
Proof.
  unfold Rtrunc; destruct (Rle_dec 0 (IZR k)).
  - apply Zfloor_eq; lra.
  - apply Zceil_eq; lra.
Qed.

Lemma trunc_stable_IZR (n k : Z) :
  (IZR n <= 2 ^ 52)%R -> trunc_stable n (IZR k).
Proof.
  intros Hn; unfold trunc_stable; rewrite Rtrunc_IZR, <- abs_IZR.
  assert (H : (IZR n / 2 ^ 52 <= 1)%R).
  { apply Rmult_le_reg_r with (2 ^ 52)%R; [apply pow_lt; lra|].
    unfold Rdiv; rewrite Rmult_assoc, Rinv_l by (apply pow_nonzero; lra); lra. }
  lra.
Qed.


Local Close Scope R_scope.

(** ** Columns: minimum and maximum *)

Section Columns.
Local Open Scope R_scope.

Lemma fold_Rmin_le_init (t : list R) (a : R) : fold_left Rmin t a <= a.
Proof.
  revert a; induction t as [|b t IH]; intros a; simpl; [lra|].
  eapply Rle_trans; [apply IH | apply Rmin_l].
Qed.

Lemma fold_Rmin_le_elem (t : list R) (a x : R) :
  In x t -> fold_left Rmin t a <= x.
Proof.
  revert a; induction t as [|b t IH]; intros a; simpl; [tauto|].
  intros [<- | Hx]; [|now apply IH].
  eapply Rle_trans; [apply fold_Rmin_le_init | apply Rmin_r].
Qed.

Lemma fold_Rmax_ge_init (t : list R) (a : R) : a <= fold_left Rmax t a.
Proof.
  revert a; induction t as [|b t IH]; intros a; simpl; [lra|].
  eapply Rle_trans; [apply Rmax_l | apply IH].
Qed.

Lemma fold_Rmax_ge_elem (t : list R) (a x : R) :
  In x t -> x <= fold_left Rmax t a.
Proof.
  revert a; induction t as [|b t IH]; intros a; simpl; [tauto|].
  intros [<- | Hx]; [|now apply IH].
  eapply Rle_trans; [apply Rmax_r | apply fold_Rmax_ge_init].
Qed.

Lemma min_of_le (l : list R) (x : R) : In x l -> min_of l <= x.
Proof.
  destruct l as [|a t]; simpl; [tauto|].
  intros [<- | Hx]; [apply fold_Rmin_le_init | now apply fold_Rmin_le_elem].
Qed.

Lemma max_of_ge (l : list R) (x : R) : In x l -> x <= max_of l.
Proof.
  destruct l as [|a t]; simpl; [tauto|].
  intros [<- | Hx]; [apply fold_Rmax_ge_init | now apply fold_Rmax_ge_elem].
Qed.

(** A non-decreasing map commutes with the minimum and the maximum. *)
Variable f : R -> R.
Hypothesis f_mono : forall a b, a <= b -> f a <= f b.

Lemma Rmin_mono (a b : R) : Rmin (f a) (f b) = f (Rmin a b).
Proof.
  unfold Rmin; destruct (Rle_dec a b) as [H|H], (Rle_dec (f a) (f b)) as [H'|H'];
    try reflexivity.
  - exfalso; apply H'; now apply f_mono.
  - apply Rle_antisym; [exact H' | apply f_mono; lra].
Qed.

Lemma Rmax_mono (a b : R) : Rmax (f a) (f b) = f (Rmax a b).
Proof.
  unfold Rmax; destruct (Rle_dec a b) as [H|H], (Rle_dec (f a) (f b)) as [H'|H'];
    try reflexivity.
  - exfalso; apply H'; now apply f_mono.
  - apply Rle_antisym; [apply f_mono; lra | exact H'].
Qed.

Lemma fold_Rmin_map (t : list R) (a : R) :
  fold_left Rmin (map f t) (f a) = f (fold_left Rmin t a).
Proof.
  revert a; induction t as [|b t IH]; intros a; simpl; [reflexivity|].
  now rewrite Rmin_mono, IH.
Qed.

Lemma fold_Rmax_map (t : list R) (a : R) :
  fold_left Rmax (map f t) (f a) = f (fold_left Rmax t a).
Proof.
  revert a; induction t as [|b t IH]; intros a; simpl; [reflexivity|].
  now rewrite Rmax_mono, IH.
Qed.

Lemma min_of_map (l : list R) : l <> [] -> min_of (map f l) = f (min_of l).
Proof. destruct l; [congruence|]; intros _; apply fold_Rmin_map. Qed.

Lemma max_of_map (l : list R) : l <> [] -> max_of (map f l) = f (max_of l).
Proof. destruct l; [congruence|]; intros _; apply fold_Rmax_map. Qed.
End Columns.

(** ** Quotients of numpy floats *)

Lemma f_div_real (a b : R) : b <> 0%R -> f_div (Real a) (Real b) = Real (a / b).
Proof. intros Hb; simpl; destruct (Req_dec_T b 0); [contradiction | reflexivity]. Qed.

Lemma f_div_zero_zero : f_div (Real 0) (Real 0) = NaN.
Proof.
  simpl; destruct (Req_dec_T 0 0) as [_|H]; [|now elim H].
  destruct (Rlt_dec 0 0) as [H|_]; [lra | reflexivity].
Qed.

Lemma f_div_scale (s a b : R) :
  (0 < s)%R -> f_div (Real (s * a)) (Real (s * b)) = f_div (Real a) (Real b).
Proof.
  intros Hs; simpl.
  destruct (Req_dec_T (s * b) 0) as [E|E], (Req_dec_T b 0) as [E'|E'].
  - destruct (Rlt_dec 0 (s * a)), (Rlt_dec 0 a); try reflexivity; try nra.
    destruct (Rlt_dec (s * a) 0), (Rlt_dec a 0); try reflexivity; nra.
  - exfalso; nra.
  - exfalso; subst b; apply E; ring.
  - f_equal; field; lra.
Qed.

(** ** [normalize_points] *)

Section Normalize.
Local Open Scope R_scope.

Lemma min_of_le_max_of (l : list R) : min_of l <= max_of l.
Proof.
  destruct l as [|a t]; [simpl; lra|].
  apply Rle_trans with a; [apply min_of_le | apply max_of_ge]; now left.
Qed.

Lemma normalize_points_nonempty (p : R * R) (t : list (R * R)) :
  let pts := p :: t in
  let minX := min_of (map fst pts) in
  let minY := min_of (map snd pts) in
  let rangeX := max_of (map fst pts) - minX in
  let rangeY := max_of (map snd pts) - minY in
  normalize_points pts =
    Ok (map (normalize_row minX minY rangeX rangeY (Rmax rangeX rangeY)) pts).
Proof.
  intros pts minX minY rangeX rangeY.
  unfold normalize_points, pts.
  cbv beta iota zeta delta [bind Ok np_min_axis0 np_max_axis0].
  fold pts; fold minX; fold minY; fold rangeX; fold rangeY.
  destruct (Rlt_dec rangeY rangeX) as [H|H].
  - rewrite Rmax_left by lra; reflexivity.
  - rewrite Rmax_right by lra; reflexivity.
Qed.

Lemma normalize_points_empty : normalize_points [] = Raise ValueError.
Proof. reflexivity. Qed.
(** In the degenerate case every numerator is zero. *)
Lemma degenerate_column (l : list R) (x : R) :
  max_of l - min_of l = 0 -> In x l -> x - min_of l - 0.5 * (max_of l - min_of l) = 0.
Proof.
  intros H Hx; pose proof (min_of_le l x Hx); pose proof (max_of_ge l x Hx); lra.
Qed.

(** C2, as the code behaves: when all the points of a non-empty sequence
    coincide (both ranges are zero), [normalize_points] raises nothing and
    returns a sequence of the same length in which every coordinate is the
    [NaN] of the quotient [0 / 0]. *)
Theorem normalize_points_degenerate (pts : list (R * R)) :
  pts <> [] ->
  max_of (map fst pts) - min_of (map fst pts) = 0 ->
  max_of (map snd pts) - min_of (map snd pts) = 0 ->
  normalize_points pts = Ok (map (fun _ => (NaN, NaN)) pts).
Proof.
  intros Hne HX HY.
  destruct pts as [|p t]; [congruence|].
  rewrite normalize_points_nonempty.
  set (pts := p :: t) in *.
  f_equal; apply map_ext_in; intros q Hq.
  unfold normalize_row.
  rewrite (degenerate_column _ (fst q) HX) by now apply in_map.
  rewrite (degenerate_column _ (snd q) HY) by now apply in_map.
  rewrite HX, HY, Rmax_left by lra.
  now rewrite f_div_zero_zero.
Qed.

Lemma normalize_points_degenerate_witness :
  normalize_points [(1, 2); (1, 2)] = Ok [(NaN, NaN); (NaN, NaN)].
Proof.
  apply (normalize_points_degenerate [(1, 2); (1, 2)]).
  - discriminate.
  - simpl. unfold Rmax, Rmin. destruct (Rle_dec 1 1); lra.
  - simpl. unfold Rmax, Rmin. destruct (Rle_dec 2 2); lra.
Defined.

(** C2, as stated, fails: for the single point (1, 2) both ranges are zero,
    and [normalize_points] returns [NaN] coordinates instead of raising. *)
Lemma normalize_points_degenerate_no_error :
  (max_of (map fst [(1, 2)]) - min_of (map fst [(1, 2)]) = 0 /\
   max_of (map snd [(1, 2)]) - min_of (map snd [(1, 2)]) = 0) /\
  normalize_points [(1, 2)] = Ok [(NaN, NaN)] /\
  (forall e : exn, normalize_points [(1, 2)] <> Raise e).
Proof.
  assert (HX : max_of (map fst [(1, 2)]) - min_of (map fst [(1, 2)]) = 0)
    by (simpl; lra).
  assert (HY : max_of (map snd [(1, 2)]) - min_of (map snd [(1, 2)]) = 0)
    by (simpl; lra).
  assert (E : normalize_points [(1, 2)] = Ok [(NaN, NaN)]).
  { rewrite normalize_points_nonempty. simpl map. unfold normalize_row.
    simpl fst; simpl snd; simpl min_of; simpl max_of.
    replace (1 - 1 - 0.5 * (1 - 1)) with 0 by lra.
    replace (2 - 2 - 0.5 * (2 - 2)) with 0 by lra.
    replace (Rmax (1 - 1) (2 - 2)) with 0
      by (unfold Rmax; destruct (Rle_dec (1 - 1) (2 - 2)); lra).
    now rewrite f_div_zero_zero. }
  repeat split; try assumption.
  intros e; rewrite E; discriminate.
Qed.
Lemma affine_mono (a b d : R) :
  0 < d -> forall x y, x <= y -> (x - a - b) / d + 0.5 <= (y - a - b) / d + 0.5.
Proof.
  intros Hd x y Hxy.
  apply Rplus_le_compat_r.
  unfold Rdiv; apply Rmult_le_compat_r; [left; now apply Rinv_0_lt_compat | lra].
Qed.

(** In exact arithmetic, when at least one range is non-zero, both axes are
    divided by the larger range [d], and the dominant axis fills [0, 1]. *)
Lemma normalize_points_dominant_exact (pts : list (R * R)) :
  let minX := min_of (map fst pts) in
  let minY := min_of (map snd pts) in
  let rangeX := max_of (map fst pts) - minX in
  let rangeY := max_of (map snd pts) - minY in
  let d := Rmax rangeX rangeY in
  rangeX <> 0 \/ rangeY <> 0 ->
  exists out : list (R * R),
    normalize_points pts = Ok (map real_row out) /\
    out = map (fun p => ((fst p - minX - 0.5 * rangeX) / d + 0.5,
                         (snd p - minY - 0.5 * rangeY) / d + 0.5)) pts /\
    (min_of (map fst out) + max_of (map fst out)) / 2 = 0.5 /\
    (min_of (map snd out) + max_of (map snd out)) / 2 = 0.5 /\
    (rangeY <= rangeX ->
     min_of (map fst out) = 0 /\ max_of (map fst out) = 1 /\
     forall q, In q out -> 0 <= fst q <= 1) /\
    (rangeX <= rangeY ->
     min_of (map snd out) = 0 /\ max_of (map snd out) = 1 /\
     forall q, In q out -> 0 <= snd q <= 1).
Proof.
  intros minX minY rangeX rangeY d Hnd.
  assert (HrX : 0 <= rangeX) by (pose proof (min_of_le_max_of (map fst pts)); unfold rangeX, minX; lra).
  assert (HrY : 0 <= rangeY) by (pose proof (min_of_le_max_of (map snd pts)); unfold rangeY, minY; lra).
  assert (Hd : 0 < d).
  { unfold d, Rmax; destruct (Rle_dec rangeX rangeY); lra. }
  destruct pts as [|p t].
  { exfalso; unfold rangeX, rangeY, minX, minY in Hnd; simpl in Hnd; lra. }
  set (pts := p :: t) in *.
  set (fX := fun x => (x - minX - 0.5 * rangeX) / d + 0.5).
  set (fY := fun y => (y - minY - 0.5 * rangeY) / d + 0.5).
  exists (map (fun q => (fX (fst q), fY (snd q))) pts).
  assert (HmX : map fst (map (fun q => (fX (fst q), fY (snd q))) pts) = map fX (map fst pts))
    by (rewrite !map_map; reflexivity).
  assert (HmY : map snd (map (fun q => (fX (fst q), fY (snd q))) pts) = map fY (map snd pts))
    by (rewrite !map_map; reflexivity).
  assert (HneX : map fst pts <> []) by discriminate.
  assert (HneY : map snd pts <> []) by discriminate.
  assert (HfX : forall a b, a <= b -> fX a <= fX b) by (apply affine_mono; exact Hd).
  assert (HfY : forall a b, a <= b -> fY a <= fY b) by (apply affine_mono; exact Hd).
  rewrite HmX, HmY.
  rewrite (min_of_map fX HfX _ HneX), (max_of_map fX HfX _ HneX).
  rewrite (min_of_map fY HfY _ HneY), (max_of_map fY HfY _ HneY).
  fold minX; fold minY.
  replace (max_of (map fst pts)) with (minX + rangeX) by (unfold rangeX; ring).
  replace (max_of (map snd pts)) with (minY + rangeY) by (unfold rangeY; ring).
  split; [|split; [reflexivity|]].
  { unfold pts at 1; rewrite normalize_points_nonempty.
    fold pts; fold minX; fold minY; fold rangeX; fold rangeY; fold d.
    rewrite map_map; f_equal; apply map_ext; intros q.
    unfold normalize_row, real_row, fX, fY; simpl fst; simpl snd.
    rewrite !f_div_real by lra; reflexivity. }
  assert (HX0 : rangeY <= rangeX -> fX minX = 0 /\ fX (minX + rangeX) = 1).
  { intros Hle; assert (Ed : d = rangeX) by (unfold d; apply Rmax_left; lra).
    unfold fX; rewrite Ed; split; field; lra. }
  assert (HY0 : rangeX <= rangeY -> fY minY = 0 /\ fY (minY + rangeY) = 1).
  { intros Hle; assert (Ed : d = rangeY) by (unfold d; apply Rmax_right; lra).
    unfold fY; rewrite Ed; split; field; lra. }
  repeat split.
  - unfold fX, Rdiv; lra.
  - unfold fY, Rdiv; lra.
  - now apply HX0.
  - now apply HX0.
  - apply in_map_iff in H0 as [q' [<- Hq']]; simpl.
    destruct (HX0 H) as [<- _]; apply HfX, min_of_le, in_map, Hq'.
  - apply in_map_iff in H0 as [q' [<- Hq']]; simpl.
    destruct (HX0 H) as [_ <-].
    replace (minX + rangeX) with (max_of (map fst pts)) by (unfold rangeX; ring).
    apply HfX, max_of_ge, in_map, Hq'.
  - now apply HY0.
  - now apply HY0.
  - apply in_map_iff in H0 as [q' [<- Hq']]; simpl.
    destruct (HY0 H) as [<- _]; apply HfY, min_of_le, in_map, Hq'.
  - apply in_map_iff in H0 as [q' [<- Hq']]; simpl.
    destruct (HY0 H) as [_ <-].
    replace (minY + rangeY) with (max_of (map snd pts)) by (unfold rangeY; ring).
    apply HfY, max_of_ge, in_map, Hq'.
Qed.
Ltac solve_minmax :=
  simpl; unfold Rmax, Rmin;
  repeat match goal with |- context [Rle_dec ?a ?b] => destruct (Rle_dec a b) end;
  lra.

(** C4, within the range of the floats (coordinates of magnitude at most
    2^1022, dominant range at least 2^-1021): both axes are divided by the
    larger range [d]; the output keeps the input order and is given by
    [x' = (x - minX - 0.5*rangeX)/d + 0.5], [y' = (y - minY - 0.5*rangeY)/d + 0.5];
    its bounding box is centred at (0.5, 0.5), and on a dominant axis the
    coordinates lie in [0, 1] with minimum 0 and maximum 1. Outside these
    bounds binary64 parts from it ([normalize_points_float64_range]). *)
Theorem normalize_points_dominant (pts : list (R * R)) :
  let minX := min_of (map fst pts) in
  let minY := min_of (map snd pts) in
  let rangeX := max_of (map fst pts) - minX in
  let rangeY := max_of (map snd pts) - minY in
  let d := Rmax rangeX rangeY in
  float64_safe pts ->
  exists out : list (R * R),
    normalize_points pts = Ok (map real_row out) /\
    out = map (fun p => ((fst p - minX - 0.5 * rangeX) / d + 0.5,
                         (snd p - minY - 0.5 * rangeY) / d + 0.5)) pts /\
    (min_of (map fst out) + max_of (map fst out)) / 2 = 0.5 /\
    (min_of (map snd out) + max_of (map snd out)) / 2 = 0.5 /\
    (rangeY <= rangeX ->
     min_of (map fst out) = 0 /\ max_of (map fst out) = 1 /\
     forall q, In q out -> 0 <= fst q <= 1) /\
    (rangeX <= rangeY ->
     min_of (map snd out) = 0 /\ max_of (map snd out) = 1 /\
     forall q, In q out -> 0 <= snd q <= 1).
Proof.
  intros minX minY rangeX rangeY d Hsafe.
  exact (normalize_points_dominant_exact pts (float64_safe_ranges pts Hsafe)).
Qed.

Lemma normalize_points_dominant_witness :
  exists out : list (R * R),
    normalize_points [(0, 0); (2, 1)] = Ok (map real_row out) /\
    forall q, In q out -> 0 <= fst q <= 1.
Proof.
  destruct (normalize_points_dominant [(0, 0); (2, 1)] float64_safe_two_points)
    as [out [H [_ [_ [_ [HX _]]]]]].
  exists out; split; [exact H|].
  apply HX; solve_minmax.
Defined.

(** C4, as stated, fails on binary64. The points (-2^1023, 0), (2^1023, 1)
    have the ranges [inf] and 1: the first coordinates come out as [NaN].
    The points (0, 0), (2^-1074, 0) have the ranges 2^-1074 and 0: half of
    the range rounds to 0 and the dominant axis fills [0.5, 1.5]. *)
Lemma normalize_points_float64_range :
  (0x1p1023 - - 0x1p1023 = infinity)%float /\
  F64.normalize_points [(- 0x1p1023, 0); (0x1p1023, 1)]%float
  = Ok [(nan, 0.5); (nan, 0.5)]%float /\
  (0.5 * 0x1p-1074 = 0)%float /\
  F64.normalize_points [(0, 0); (0x1p-1074, 0)]%float
  = Ok [(0.5, 0.5); (1.5, 0.5)]%float.
Proof. repeat split; vm_compute; reflexivity. Qed.

Lemma normalize_row_ext (minX minY rX rY d minX' minY' rX' rY' d' k : R)
  (p p' : R * R) :
  0 < k ->
  fst p' - minX' - 0.5 * rX' = k * (fst p - minX - 0.5 * rX) ->
  snd p' - minY' - 0.5 * rY' = k * (snd p - minY - 0.5 * rY) ->
  d' = k * d ->
  normalize_row minX' minY' rX' rY' d' p' = normalize_row minX minY rX rY d p.
Proof.
  intros Hk EX EY Ed; unfold normalize_row.
  now rewrite EX, EY, Ed, !f_div_scale.
Qed.

Lemma normalize_points_translate (cx cy : R) (pts : list (R * R)) :
  normalize_points (map (translate cx cy) pts) = normalize_points pts.
Proof.
  destruct pts as [|p t]; [reflexivity|].
  change (map (translate cx cy) (p :: t))
    with (translate cx cy p :: map (translate cx cy) t).
  rewrite !normalize_points_nonempty.
  change (translate cx cy p :: map (translate cx cy) t)
    with (map (translate cx cy) (p :: t)).
  set (pts := p :: t).
  assert (EX : map fst (map (translate cx cy) pts) = map (fun x => x + cx) (map fst pts))
    by (rewrite !map_map; reflexivity).
  assert (EY : map snd (map (translate cx cy) pts) = map (fun y => y + cy) (map snd pts))
    by (rewrite !map_map; reflexivity).
  rewrite EX, EY.
  rewrite !(min_of_map (fun x => x + cx)), !(max_of_map (fun x => x + cx));
    try discriminate; try (intros; lra).
  rewrite !(min_of_map (fun y => y + cy)), !(max_of_map (fun y => y + cy));
    try discriminate; try (intros; lra).
  rewrite map_map; f_equal; apply map_ext; intros q.
  apply normalize_row_ext with (k := 1); unfold translate; simpl fst; simpl snd;
    try lra.
  rewrite Rmult_1_l; f_equal; ring.
Qed.

Lemma normalize_points_scale (s : R) (pts : list (R * R)) :
  0 < s -> normalize_points (map (scale s) pts) = normalize_points pts.
Proof.
  intros Hs.
  destruct pts as [|p t]; [reflexivity|].
  change (map (scale s) (p :: t)) with (scale s p :: map (scale s) t).
  rewrite !normalize_points_nonempty.
  change (scale s p :: map (scale s) t) with (map (scale s) (p :: t)).
  set (pts := p :: t).
  assert (EX : map fst (map (scale s) pts) = map (fun x => s * x) (map fst pts))
    by (rewrite !map_map; reflexivity).
  assert (EY : map snd (map (scale s) pts) = map (fun y => s * y) (map snd pts))
    by (rewrite !map_map; reflexivity).
  rewrite EX, EY.
  rewrite !(min_of_map (fun x => s * x)), !(max_of_map (fun x => s * x));
    try discriminate; try (intros; nra).
  set (minX := min_of (map fst pts)); set (minY := min_of (map snd pts)).
  set (maxX := max_of (map fst pts)); set (maxY := max_of (map snd pts)).
  assert (Ed : Rmax (s * maxX - s * minX) (s * maxY - s * minY)
               = s * Rmax (maxX - minX) (maxY - minY)).
  { rewrite <- !Rmult_minus_distr_l. apply RmaxRmult; lra. }
  rewrite Ed, map_map; f_equal; apply map_ext; intros q.
  apply normalize_row_ext with (k := s); unfold scale; simpl fst; simpl snd;
    try assumption; try reflexivity; ring.
Qed.

(** C5, in exact arithmetic and within the range of the floats:
    translating every point by a constant offset, or scaling every point by
    a positive factor, leaves the output of [normalize_points] unchanged.
    The point sets stay within [float64_safe], and no coordinate, before or
    after the translation, exceeds four times the dominant range: under
    these bounds binary64 agrees with the statement up to a rounding in the
    last places, and no closer ([normalize_points_float64_rounding]). *)
Theorem normalize_points_invariant (pts : list (R * R)) (cx cy s : R) :
  0 < s ->
  float64_safe pts -> well_conditioned pts ->
  float64_safe (map (translate cx cy) pts) ->
  well_conditioned (map (translate cx cy) pts) ->
  float64_safe (map (scale s) pts) ->
  normalize_points (map (translate cx cy) pts) = normalize_points pts /\
  normalize_points (map (scale s) pts) = normalize_points pts.
Proof.
  intros Hs _ _ _ _ _; split;
    [apply normalize_points_translate | now apply normalize_points_scale].
Qed.

Lemma normalize_points_invariant_witness :
  normalize_points (map (translate 3 (-1)) [(0, 0); (2, 1)])
    = normalize_points [(0, 0); (2, 1)] /\
  normalize_points (map (scale 5) [(0, 0); (2, 1)])
    = normalize_points [(0, 0); (2, 1)].
Proof.
  apply (normalize_points_invariant [(0, 0); (2, 1)] 3 (-1) 5).
  - lra.
  - exact float64_safe_two_points.
  - solve_well_conditioned.
  - solve_float64_safe.
  - solve_well_conditioned.
  - solve_float64_safe.
Defined.

(** C5, as stated, fails on binary64. Scaling by 3 the three points below,
    whose products by 3 are exact, changes the last places of the second
    output; translating (0, 0), (1, 0), (3, 0) by 10^16 rounds the first
    two points to the same float, and the second output drops from 1/3
    to 0. *)
Lemma normalize_points_float64_rounding :
  F64.normalize_points
    [(0x1.88b077fa3a660p-3, 0); (0x1.6f2e7f714a3b0p+2, 0);
     (0x1.14fabc31983a0p+5, 0)]%float
  = Ok [(0, 0.5); (0x1.49dacc02d7abep-3, 0.5); (1, 0.5)]%float /\
  F64.normalize_points
    (map (F64.scale 3)
       [(0x1.88b077fa3a660p-3, 0); (0x1.6f2e7f714a3b0p+2, 0);
        (0x1.14fabc31983a0p+5, 0)]%float)
  = Ok [(0, 0.5); (0x1.49dacc02d7ac0p-3, 0.5); (1, 0.5)]%float /\
  (F64.to_R (3 * 0x1.88b077fa3a660p-3) = 3 * F64.to_R 0x1.88b077fa3a660p-3 /\
   F64.to_R (3 * 0x1.6f2e7f714a3b0p+2) = 3 * F64.to_R 0x1.6f2e7f714a3b0p+2 /\
   F64.to_R (3 * 0x1.14fabc31983a0p+5) = 3 * F64.to_R 0x1.14fabc31983a0p+5) /\
  F64.normalize_points [(0, 0); (1, 0); (3, 0)]%float
  = Ok [(0, 0.5); (0x1.5555555555556p-2, 0.5); (1, 0.5)]%float /\
  F64.normalize_points
    (map (F64.translate 1e16 1e16) [(0, 0); (1, 0); (3, 0)]%float)
  = Ok [(0, 0.5); (0, 0.5); (1, 0.5)]%float.
Proof.
  split; [vm_compute; reflexivity|].
  split; [vm_compute; reflexivity|].
  split; [|split; vm_compute; reflexivity].
  rewrite (to_R_dyadic (3 * 0x1.88b077fa3a660p-3) 5181197822639304 53)
    by (vm_compute; reflexivity).
  rewrite (to_R_dyadic 0x1.88b077fa3a660p-3 6908263763519072 55)
    by (vm_compute; reflexivity).
  rewrite (to_R_dyadic (3 * 0x1.6f2e7f714a3b0p+2) 4844645688244932 48)
    by (vm_compute; reflexivity).
  rewrite (to_R_dyadic 0x1.6f2e7f714a3b0p+2 6459527584326576 50)
    by (vm_compute; reflexivity).
  rewrite (to_R_dyadic (3 * 0x1.14fabc31983a0p+5) 7309010602968432 46)
    by (vm_compute; reflexivity).
  rewrite (to_R_dyadic 0x1.14fabc31983a0p+5 4872673735312288 47)
    by (vm_compute; reflexivity).
  eval_powers_of_two; repeat split; lra.
Qed.
End Normalize.

(** ** The kernel and the bucket indices *)

Section KernelAndBuckets.
Local Open Scope R_scope.

Lemma kernel_real (sigma_sq x0 y0 : R) (q : R * R) :
  sigma_sq <> 0 -> kernel sigma_sq x0 y0 (real_row q) = Real (gauss sigma_sq x0 y0 q).
Proof.
  intros Hs; destruct q as [x y]; unfold kernel, real_row, gauss; simpl fst; simpl snd.
  unfold f_sqr, f_sub; cbn [f_neg f_add f_mul].
  rewrite !f_div_real by lra.
  cbn [f_neg f_add f_exp]; do 2 f_equal; lra.
Qed.

Lemma exp_le (a b : R) : a <= b -> exp a <= exp b.
Proof.
  intros [H | ->]; [left; now apply exp_increasing | right; reflexivity].
Qed.

(** C9: for a fixed offset between a real point and a cell centre, the
    kernel contribution does not decrease when [sigma_sq] grows:
    for 0 < s1 < s2 both contributions are real numbers, given by the
    Gaussian formula, and the one under [s2] is at least the one under [s1]. *)
Theorem kernel_monotone_in_sigma_sq (x0 y0 s1 s2 : R) (q : R * R) :
  0 < s1 -> s1 < s2 ->
  kernel s1 x0 y0 (real_row q) = Real (gauss s1 x0 y0 q) /\
  kernel s2 x0 y0 (real_row q) = Real (gauss s2 x0 y0 q) /\
  gauss s1 x0 y0 q <= gauss s2 x0 y0 q.
Proof.
  intros H1 H12.
  split; [apply kernel_real; lra | split; [apply kernel_real; lra|]].
  unfold gauss; apply exp_le.
  set (a := (x0 - fst q) * (x0 - fst q)); set (b := (y0 - snd q) * (y0 - snd q)).
  assert (Ha : 0 <= a) by exact (Rle_0_sqr _).
  assert (Hb : 0 <= b) by exact (Rle_0_sqr _).
  assert (Hi : / (2 * s2) <= / (2 * s1)) by (apply Rinv_le_contravar; lra).
  assert (Hp : 0 < / (2 * s2)) by (apply Rinv_0_lt_compat; lra).
  unfold Rdiv; nra.
Qed.

Lemma kernel_monotone_in_sigma_sq_witness :
  gauss 1 0 0 (1, 1) <= gauss 2 0 0 (1, 1).
Proof. apply (kernel_monotone_in_sigma_sq 0 0 1 2 (1, 1)); lra. Defined.

Lemma Rtrunc_nonneg (r : R) : 0 <= r -> Rtrunc r = Zfloor r.
Proof. intros H; unfold Rtrunc; destruct (Rle_dec 0 r); [reflexivity | contradiction]. Qed.

Lemma bucket_index_bounds (x : R) (n : Z) :
  0 <= x <= 1 -> (2 <= n)%Z ->
  (0 <= Zfloor (x * IZR (n - 1)) <= n - 1)%Z.
Proof.
  intros Hx Hn.
  assert (H1 : 1 <= IZR (n - 1)) by (apply IZR_le; lia).
  split.
  - apply Zfloor_lub; simpl; nra.
  - rewrite <- (ZfloorZ (n - 1)) at 2; apply Zfloor_le; nra.
Qed.

Lemma py_index_in_range (len : nat) (i : Z) :
  (0 <= i < Z.of_nat len)%Z -> py_index len i = Ok (Z.to_nat i).
Proof.
  intros [H0 H1]; unfold py_index.
  apply Z.leb_le in H0; apply Z.ltb_lt in H1; now rewrite H0, H1.
Qed.

End KernelAndBuckets.

(** ** Loops *)

Section Loops.
Context {A S : Type}.
Implicit Types (l : list A) (body : A -> S -> result S).

Lemma for_each_app l1 l2 body (s : S) :
  for_each (l1 ++ l2) body s = (s' <~ for_each l1 body s ;; for_each l2 body s').
Proof.
  revert s; induction l1 as [|a l1 IH]; intros s; simpl; [reflexivity|].
  destruct (body a s) as [e|s']; simpl; [reflexivity | apply IH].
Qed.

(** A loop whose body succeeds and keeps the invariant succeeds. *)
Lemma for_each_total (P : list A -> S -> Prop) l body (s0 : S) :
  P [] s0 ->
  (forall pre a post s, l = pre ++ a :: post -> P pre s ->
     exists s', body a s = Ok s' /\ P (pre ++ [a]) s') ->
  exists s, for_each l body s0 = Ok s /\ P l s.
Proof.
  intros H0 Hstep.
  assert (G : forall post pre s, l = pre ++ post -> P pre s ->
              exists s', for_each post body s = Ok s' /\ P l s').
  { induction post as [|a post IH]; intros pre s El Hp.
    - rewrite app_nil_r in El; subst pre; exists s; split; [reflexivity | exact Hp].
    - destruct (Hstep pre a post s El Hp) as [s' [Eb Hp']].
      simpl; rewrite Eb; simpl.
      apply (IH (pre ++ [a])); [now rewrite <- app_assoc | exact Hp']. }
  exact (G l [] s0 eq_refl H0).
Qed.

(** What holds initially and is kept by every successful step holds of the
    result of a loop that returns. *)
Lemma for_each_partial (P : list A -> S -> Prop) l body (s0 s : S) :
  P [] s0 ->
  (forall pre a post s s', l = pre ++ a :: post -> P pre s ->
     body a s = Ok s' -> P (pre ++ [a]) s') ->
  for_each l body s0 = Ok s -> P l s.
Proof.
  intros H0 Hstep.
  assert (G : forall post pre s1, l = pre ++ post -> P pre s1 ->
              for_each post body s1 = Ok s -> P l s).
  { induction post as [|a post IH]; intros pre s1 El Hp E.
    - rewrite app_nil_r in El; subst pre; simpl in E.
      injection E as <-; exact Hp.
    - simpl in E; destruct (body a s1) as [e|s'] eqn:Eb; simpl in E; [discriminate|].
      apply (IH (pre ++ [a]) s'); [now rewrite <- app_assoc | | exact E].
      now apply (Hstep pre a post s1 s'). }
  exact (G l [] s0 eq_refl H0).
Qed.
End Loops.

(** ** Indexing *)

Lemma py_index_lt (len : nat) (i : Z) (k : nat) :
  py_index len i = Ok k -> (k < len)%nat.
Proof.
  unfold py_index.
  destruct ((0 <=? i)%Z && (i <? Z.of_nat len)%Z) eqn:E1.
  { intros [= <-]; apply andb_prop in E1 as [H0 H1].
    apply Z.leb_le in H0; apply Z.ltb_lt in H1; lia. }
  destruct ((- Z.of_nat len <=? i)%Z && (i <? 0)%Z) eqn:E2; [|discriminate].
  intros [= <-]; apply andb_prop in E2 as [H0 H1].
  apply Z.leb_le in H0; apply Z.ltb_lt in H1; lia.
Qed.

Lemma py_range_spec (a b i : Z) : In i (py_range a b) <-> (a <= i < b)%Z.
Proof.
  unfold py_range; rewrite in_map_iff; split.
  - intros [k [<- Hk]]; apply in_seq in Hk; lia.
  - intros H; exists (Z.to_nat (i - a)); split; [lia | apply in_seq; lia].
Qed.

Lemma py_range_NoDup (a b : Z) : NoDup (py_range a b).
Proof.
  unfold py_range; apply NoDup_fmap_2; [|apply NoDup_seq].
  intros x y H; lia.
Qed.

Section NdArray.
Context {A : Type}.
Implicit Types (a : ndarray A) (v : A).

Lemma has_shape_full (rows cols : nat) v : has_shape rows cols (np_full rows cols v).
Proof.
  split; [apply length_replicate|].
  apply Forall_forall; intros row Hr; apply elem_of_replicate in Hr as [-> _].
  apply length_replicate.
Qed.

Lemma nd_cell_full (rows cols i j : nat) v :
  (i < rows)%nat -> (j < cols)%nat -> nd_cell (np_full rows cols v) i j = Some v.
Proof.
  intros Hi Hj; unfold nd_cell, np_full.
  rewrite lookup_replicate_2 by exact Hi.
  now apply lookup_replicate_2.
Qed.

Lemma has_shape_row (rows cols : nat) a (i : nat) (row : list A) :
  has_shape rows cols a -> a !! i = Some row -> length row = cols.
Proof.
  intros [_ HF] Hl; rewrite Forall_lookup in HF; exact (HF i row Hl).
Qed.


Lemma nd_cell_is_Some (rows cols : nat) a (i j : nat) :
  has_shape rows cols a -> (i < rows)%nat -> (j < cols)%nat ->
  exists v, nd_cell a i j = Some v.
Proof.
  intros Hs Hi Hj; unfold nd_cell.
  destruct (lookup_lt_is_Some_2 a i) as [row Er]; [rewrite (proj1 Hs); exact Hi|].
  rewrite Er; apply lookup_lt_is_Some_2.
  now rewrite (has_shape_row _ _ _ _ _ Hs Er).
Qed.

Lemma nd_get_eq (rows cols : nat) a (i j : Z) :
  has_shape rows cols a ->
  nd_get a i j =
    (i' <~ py_index rows i ;;
     j' <~ py_index cols j ;;
     match nd_cell a i' j' with
     | Some v => Ok v
     | None => Raise IndexError
     end).
Proof.
  intros Hs; unfold nd_get; rewrite (proj1 Hs).
  destruct (py_index rows i) as [e|i'] eqn:Ei; simpl; [reflexivity|].
  apply py_index_lt in Ei.
  destruct (lookup_lt_is_Some_2 a i') as [row Er]; [rewrite (proj1 Hs); exact Ei|].
  unfold nd_cell; rewrite Er, (has_shape_row _ _ _ _ _ Hs Er); reflexivity.
Qed.

Lemma nd_set_eq (rows cols : nat) a (i j : Z) v :
  has_shape rows cols a ->
  nd_set a i j v =
    (i' <~ py_index rows i ;; j' <~ py_index cols j ;; Ok (nd_upd a i' j' v)).
Proof.
  intros Hs; unfold nd_set; rewrite (proj1 Hs).
  destruct (py_index rows i) as [e|i'] eqn:Ei; simpl; [reflexivity|].
  apply py_index_lt in Ei.
  destruct (lookup_lt_is_Some_2 a i') as [row Er]; [rewrite (proj1 Hs); exact Ei|].
  unfold nd_upd; rewrite Er, (has_shape_row _ _ _ _ _ Hs Er); reflexivity.
Qed.

Lemma nd_upd_written (rows cols : nat) a (i j : nat) v :
  has_shape rows cols a -> (i < rows)%nat -> (j < cols)%nat ->
  cell_written rows cols a i j v (nd_upd a i j v).
Proof.
  intros Hs Hi Hj; unfold nd_upd.
  destruct (lookup_lt_is_Some_2 a i) as [row Er]; [rewrite (proj1 Hs); exact Hi|].
  rewrite Er.
  pose proof (has_shape_row _ _ _ _ _ Hs Er) as Hlen.
  assert (Hia : (i < length a)%nat) by (rewrite (proj1 Hs); exact Hi).
  split; [|split].
  - split; [rewrite length_insert; exact (proj1 Hs)|].
    apply Forall_insert; [exact (proj2 Hs) | now rewrite length_insert].
  - unfold nd_cell; rewrite list_lookup_insert_eq by exact Hia.
    apply list_lookup_insert_eq; lia.
  - intros i' j' Hne; unfold nd_cell.
    destruct (decide (i = i')) as [<-|Hii].
    + rewrite list_lookup_insert_eq by exact Hia; rewrite Er.
      apply list_lookup_insert_ne; congruence.
    + now rewrite list_lookup_insert_ne.
Qed.
End NdArray.

(** ** The bucket indices of a point of the unit square *)

(** C10: for a point with both coordinates in [0, 1] and [n >= 2], the two
    indices [int(x*(n-1))] and [int(y*(n-1))] are computed without error and
    lie in [0, n-1], so that they resolve, unchanged, on an axis of length
    [n] and the access to an [n] by [n] array at these indices is in bounds;
    a coordinate equal to 1 gives the index [n-1]. *)
Theorem bucket_indices_in_bounds (x y : R) (n : Z) :
  (0 <= x <= 1)%R -> (0 <= y <= 1)%R -> (2 <= n)%Z ->
  exists i j : Z,
    py_int (f_mul (Real x) (Real (IZR (n - 1)))) = Ok i /\
    py_int (f_mul (Real y) (Real (IZR (n - 1)))) = Ok j /\
    (0 <= i <= n - 1)%Z /\ (0 <= j <= n - 1)%Z /\
    py_index (Z.to_nat n) i = Ok (Z.to_nat i) /\
    py_index (Z.to_nat n) j = Ok (Z.to_nat j) /\
    (forall (A : Type) (a : ndarray A),
       has_shape (Z.to_nat n) (Z.to_nat n) a -> exists c, nd_get a i j = Ok c) /\
    py_int (f_mul (Real 1) (Real (IZR (n - 1)))) = Ok (n - 1)%Z.
Proof.
  intros Hx Hy Hn.
  assert (H1 : (1 <= IZR (n - 1))%R) by (apply IZR_le; lia).
  pose proof (bucket_index_bounds x n Hx Hn) as Bx.
  pose proof (bucket_index_bounds y n Hy Hn) as By.
  exists (Zfloor (x * IZR (n - 1))), (Zfloor (y * IZR (n - 1))).
  simpl f_mul; unfold py_int.
  rewrite !Rtrunc_nonneg by nra.
  assert (Ei : py_index (Z.to_nat n) (Zfloor (x * IZR (n - 1)))
               = Ok (Z.to_nat (Zfloor (x * IZR (n - 1)))))
    by (apply py_index_in_range; lia).
  assert (Ej : py_index (Z.to_nat n) (Zfloor (y * IZR (n - 1)))
               = Ok (Z.to_nat (Zfloor (y * IZR (n - 1)))))
    by (apply py_index_in_range; lia).
  repeat split; try lia; try assumption.
  - intros A a Ha; rewrite (nd_get_eq (Z.to_nat n) (Z.to_nat n)) by exact Ha.
    rewrite Ei, Ej; cbn [bind Ok].
    destruct (nd_cell_is_Some _ _ a (Z.to_nat (Zfloor (x * IZR (n - 1))))
                (Z.to_nat (Zfloor (y * IZR (n - 1)))) Ha) as [c Ec]; [lia | lia |].
    exists c; now rewrite Ec.
  - now rewrite Rmult_1_l, ZfloorZ.
Qed.

Lemma bucket_indices_in_bounds_witness :
  exists i j : Z,
    py_int (f_mul (Real 1) (Real (IZR (20 - 1)))) = Ok i /\
    py_int (f_mul (Real 0.5) (Real (IZR (20 - 1)))) = Ok j /\
    (0 <= i <= 20 - 1)%Z /\ (0 <= j <= 20 - 1)%Z.
Proof.
  destruct (bucket_indices_in_bounds 1 0.5 20) as [i [j [Hi [Hj [Bi [Bj _]]]]]];
    [lra | lra | lia |].
  exists i, j; repeat split; try assumption; lia.
Defined.

(** ** Lines 39-46: the bucket array *)

Section FillBuckets.
Variable n : Z.
Let N := Z.to_nat n.

Lemma bucket_step_eq (data : list point) (idx : nat) (X : buckets) :
  has_shape N N X ->
  bucket_step data n idx X =
    (p <~ match data !! idx with
          | Some p => Ok p
          | None => Raise IndexError
          end ;;
     ij <~ bucket_of n p ;;
     Ok (nd_upd X (fst ij) (snd ij)
           (Some (cell_points X (fst ij) (snd ij) ++ [p])))).
Proof.
  intros Hs; unfold bucket_step, bucket_of.
  destruct (data !! idx) as [[x y]|]; simpl; [|reflexivity].
  destruct (py_int (f_mul x (Real (IZR (n - 1))))) as [e|i]; simpl; [reflexivity|].
  destruct (py_int (f_mul y (Real (IZR (n - 1))))) as [e|j]; simpl; [reflexivity|].
  rewrite (nd_get_eq N N) by exact Hs.
  fold N.
  destruct (py_index N i) as [e|i'] eqn:Ei; simpl; [reflexivity|].
  destruct (py_index N j) as [e|j'] eqn:Ej; simpl; [reflexivity|].
  destruct (nd_cell_is_Some N N X i' j' Hs) as [c Ec];
    [now apply py_index_lt with i | now apply py_index_lt with j |].
  unfold cell_points; rewrite Ec; simpl.
  destruct c as [l|]; rewrite (nd_set_eq N N) by exact Hs; rewrite Ei, Ej; reflexivity.
Qed.

Lemma bucket_of_lt (p : point) (i j : nat) :
  bucket_of n p = Ok (i, j) -> (i < N)%nat /\ (j < N)%nat.
Proof.
  unfold bucket_of.
  destruct (py_int (f_mul (fst p) (Real (IZR (n - 1))))) as [e|zi]; simpl; [discriminate|].
  destruct (py_int (f_mul (snd p) (Real (IZR (n - 1))))) as [e|zj]; simpl; [discriminate|].
  destruct (py_index (Z.to_nat n) zi) as [e|i'] eqn:Ei; simpl; [discriminate|].
  destruct (py_index (Z.to_nat n) zj) as [e|j'] eqn:Ej; simpl; [discriminate|].
  intros [= <- <-]; split; [now apply py_index_lt with zi | now apply py_index_lt with zj].
Qed.

Lemma in_bucket_true (p : point) (i j i' j' : nat) :
  bucket_of n p = Ok (i, j) ->
  in_bucket n i' j' p = true <-> (i', j') = (i, j).
Proof.
  intros E; unfold in_bucket; rewrite E; unfold Ok.
  rewrite andb_true_iff, !Nat.eqb_eq; split; [intros [-> ->] | intros [= -> ->]]; auto.
Qed.

Lemma buckets_of_add (D : list point) (X : buckets) (p : point) (i j : nat) :
  buckets_of n D X -> bucket_of n p = Ok (i, j) ->
  buckets_of n (D ++ [p]) (nd_upd X i j (Some (cell_points X i j ++ [p]))).
Proof.
  intros [Hs Hc] Ep.
  destruct (bucket_of_lt p i j Ep) as [Hi Hj].
  destruct (nd_upd_written N N X i j (Some (cell_points X i j ++ [p])) Hs Hi Hj)
    as [Hs' [Heq Hne]].
  split; [exact Hs'|].
  intros i' j' Hi' Hj'; rewrite List.filter_app; simpl.
  destruct (in_bucket n i' j' p) eqn:Eb.
  - apply (in_bucket_true p i j i' j' Ep) in Eb as [= -> ->].
    unfold cell_points at 1; rewrite Heq.
    now rewrite Hc.
  - rewrite app_nil_r, <- Hc by assumption.
    unfold cell_points; rewrite Hne; [reflexivity|].
    intros Eij; rewrite <- (in_bucket_true p i j i' j' Ep) in Eij; congruence.
Qed.

Lemma buckets_of_alloc (X : buckets) : np_alloc n None = Ok X -> buckets_of n [] X.
Proof.
  unfold np_alloc; destruct (n <? 0)%Z; [discriminate|].
  intros [= <-]; split; [apply has_shape_full|].
  intros i j Hi Hj; unfold cell_points; now rewrite nd_cell_full.
Qed.

(** The loop over [idx], when it runs [k] times from the bucket array of no
    point: it returns exactly when [data] has [k] points that all resolve to
    a cell, and then returns the bucket array of these [k] points. *)
Lemma fill_loop_spec (data : list point) (k : nat) (X0 : buckets) :
  buckets_of n [] X0 ->
  match for_each (seq 0 k) (bucket_step data n) X0 with
  | inr X => (k <= length data)%nat /\ bucketable n (take k data) /\
             buckets_of n (take k data) X
  | inl _ => ~ ((k <= length data)%nat /\ bucketable n (take k data))
  end.
Proof.
  intros H0; induction k as [|k IH].
  - simpl; split; [lia | split; [constructor | exact H0]].
  - rewrite seq_S, for_each_app; simpl.
    destruct (for_each (seq 0 k) (bucket_step data n) X0) as [e|X]; simpl.
    + intros [Hk Hb]; apply IH; split; [lia|].
      replace (take k data) with (take k (take (S k) data))
        by (rewrite take_take; f_equal; lia).
      now apply Forall_take.
    + destruct IH as [Hk [Hb HX]].
      rewrite bucket_step_eq by exact (proj1 HX).
      destruct (data !! k) as [p|] eqn:Ep; simpl.
      * rewrite (take_S_r data k p Ep).
        destruct (bucket_of n p) as [e|[i j]] eqn:Eb; simpl.
        -- intros [_ Hb']; unfold bucketable in Hb'.
           apply Forall_app in Hb' as [_ Hp].
           apply Forall_singleton in Hp as [ij Hij]; rewrite Eb in Hij; discriminate.
        -- split; [apply lookup_lt_Some in Ep; lia|].
           split; [|now apply buckets_of_add].
           apply Forall_app; split; [exact Hb|].
           apply Forall_singleton; now exists (i, j).
      * intros [Hk' _]; apply lookup_ge_None in Ep; lia.
Qed.

Lemma fill_buckets_inv (g : globals) (data : list point) (X : buckets) :
  fill_buckets g data n = Ok X ->
  let k := length (points g) in
  (0 <= n)%Z /\ (k <= length data)%nat /\ bucketable n (take k data) /\
  buckets_of n (take k data) X.
Proof.
  intros E k; unfold fill_buckets in E.
  destruct (np_alloc n None) as [e|X0] eqn:E0; simpl in E; [discriminate|].
  pose proof (fill_loop_spec data k X0 (buckets_of_alloc X0 E0)) as L.
  fold k in E; rewrite E in L.
  split; [|exact L].
  unfold np_alloc in E0; destruct (n <? 0)%Z eqn:En; [discriminate|].
  apply Z.ltb_ge in En; exact En.
Qed.

Lemma fill_buckets_total (g : globals) (data : list point) :
  let k := length (points g) in
  (0 <= n)%Z -> (k <= length data)%nat -> bucketable n (take k data) ->
  exists X, fill_buckets g data n = Ok X /\ buckets_of n (take k data) X.
Proof.
  intros k Hn Hk Hb; unfold fill_buckets.
  assert (E0 : np_alloc n None (A := option (list point))
               = Ok (np_full N N None)).
  { unfold np_alloc; apply Z.ltb_ge in Hn; now rewrite Hn. }
  rewrite E0; simpl.
  pose proof (fill_loop_spec data k _ (buckets_of_alloc _ E0)) as L.
  fold k; destruct (for_each (seq 0 k) (bucket_step data n) (np_full N N None))
    as [e|X].
  - exfalso; apply L; split; assumption.
  - exists X; split; [reflexivity | apply L].
Qed.
End FillBuckets.

(** ** Lines 48-63: the sums of kernels *)

Section SumKernels.
Variables (X : buckets) (sigma_sq : R) (n m : Z).
Let N := Z.to_nat n.
Hypothesis X_shape : has_shape N N X.

Lemma cell_written_refl (grid : ndarray float64) (i j : nat) (v : float64) :
  has_shape N N grid -> nd_cell grid i j = Some v ->
  cell_written N N grid i j v grid.
Proof. intros Hs Hc; split; [exact Hs | split; [exact Hc | reflexivity]]. Qed.

Lemma cell_written_trans (g1 g2 g3 : ndarray float64) (i j : nat) (v w : float64) :
  cell_written N N g1 i j v g2 -> cell_written N N g2 i j w g3 ->
  cell_written N N g1 i j w g3.
Proof.
  intros [_ [_ H12]] [Hs [Hc H23]]; split; [exact Hs | split; [exact Hc|]].
  intros i' j' Hne; now rewrite H23, H12.
Qed.

Lemma grid_add_written (grid : ndarray float64) (i0 j0 : Z) (v0 v : float64) :
  has_shape N N grid -> (0 <= i0 < n)%Z -> (0 <= j0 < n)%Z ->
  nd_cell grid (Z.to_nat i0) (Z.to_nat j0) = Some v0 ->
  exists grid', grid_add i0 j0 v grid = Ok grid' /\
    cell_written N N grid (Z.to_nat i0) (Z.to_nat j0) (f_add v0 v) grid'.
Proof.
  intros Hs Hi Hj Hc; unfold grid_add.
  rewrite (nd_get_eq N N), !py_index_in_range by (assumption || (unfold N; lia)).
  simpl; rewrite Hc; simpl.
  rewrite (nd_set_eq N N), !py_index_in_range by (assumption || (unfold N; lia)).
  simpl; eexists; split; [reflexivity|].
  apply nd_upd_written; [exact Hs | unfold N; lia | unfold N; lia].
Qed.

(** Line 58-60: the loop over the points of one bucket. *)
Lemma add_points_written (x0 y0 : R) (i0 j0 : Z) (l : list point) :
  (0 <= i0 < n)%Z -> (0 <= j0 < n)%Z ->
  forall (grid : ndarray float64) (v0 : float64),
  has_shape N N grid ->
  nd_cell grid (Z.to_nat i0) (Z.to_nat j0) = Some v0 ->
  exists grid',
    for_each l (fun p grid => grid_add i0 j0 (kernel sigma_sq x0 y0 p) grid) grid
      = Ok grid' /\
    cell_written N N grid (Z.to_nat i0) (Z.to_nat j0)
      (cell_sum sigma_sq x0 y0 l v0) grid'.
Proof.
  intros Hi Hj; induction l as [|p l IH]; intros grid v0 Hs Hc.
  - exists grid; split; [reflexivity | now apply cell_written_refl].
  - destruct (grid_add_written grid i0 j0 v0 (kernel sigma_sq x0 y0 p) Hs Hi Hj Hc)
      as [g1 [E1 W1]].
    destruct (IH g1 (f_add v0 (kernel sigma_sq x0 y0 p)) (proj1 W1) (proj1 (proj2 W1)))
      as [g2 [E2 W2]].
    exists g2; split; [simpl; rewrite E1; exact E2|].
    exact (cell_written_trans _ _ _ _ _ _ _ W1 W2).
Qed.

Lemma cell_sum_app (x0 y0 : R) (l1 l2 : list point) (v0 : float64) :
  cell_sum sigma_sq x0 y0 (l1 ++ l2) v0
  = cell_sum sigma_sq x0 y0 l2 (cell_sum sigma_sq x0 y0 l1 v0).
Proof. unfold cell_sum; apply fold_left_app. Qed.

(** Lines 56-60: the loop over the columns [js] of the row [i] of [X]. *)
Lemma add_row_written (x0 y0 : R) (i0 j0 i : Z) (js : list Z) :
  (0 <= i0 < n)%Z -> (0 <= j0 < n)%Z -> (0 <= i < n)%Z ->
  (forall j, In j js -> (0 <= j < n)%Z) ->
  forall (grid : ndarray float64) (v0 : float64),
  has_shape N N grid ->
  nd_cell grid (Z.to_nat i0) (Z.to_nat j0) = Some v0 ->
  exists grid',
    for_each js
      (fun j grid =>
         c <~ nd_get X i j ;;
         match c with
         | None => Ok grid
         | Some l =>
             for_each l
               (fun p grid => grid_add i0 j0 (kernel sigma_sq x0 y0 p) grid) grid
         end) grid = Ok grid' /\
    cell_written N N grid (Z.to_nat i0) (Z.to_nat j0)
      (cell_sum sigma_sq x0 y0
         (flat_map (fun j => cell_points X (Z.to_nat i) (Z.to_nat j)) js) v0)
      grid'.
Proof.
  intros Hi0 Hj0 Hi; induction js as [|j js IH]; intros Hjs grid v0 Hs Hc.
  - exists grid; split; [reflexivity | now apply cell_written_refl].
  - assert (Hj : (0 <= j < n)%Z) by (apply Hjs; now left).
    cbn [for_each flat_map]; rewrite cell_sum_app.
    rewrite (nd_get_eq N N), !py_index_in_range by (assumption || (unfold N; lia)).
    cbn [bind Ok].
    destruct (nd_cell_is_Some N N X (Z.to_nat i) (Z.to_nat j) X_shape) as [c Ec];
      [unfold N; lia | unfold N; lia |].
    unfold cell_points at 2; rewrite Ec.
    assert (Step : exists g1,
      match c with
      | Some l =>
          for_each l
            (fun p grid => grid_add i0 j0 (kernel sigma_sq x0 y0 p) grid) grid
      | None => Ok grid
      end = Ok g1 /\
      cell_written N N grid (Z.to_nat i0) (Z.to_nat j0)
        (cell_sum sigma_sq x0 y0 match c with Some l => l | None => [] end v0) g1).
    { destruct c as [l|]; [now apply add_points_written|].
      exists grid; split; [reflexivity | now apply cell_written_refl]. }
    destruct Step as [g1 [E1 W1]].
    destruct (IH (fun j' H => Hjs j' (or_intror H)) g1 _ (proj1 W1) (proj1 (proj2 W1)))
      as [g2 [E2 W2]].
    exists g2; split; [|exact (cell_written_trans _ _ _ _ _ _ _ W1 W2)].
    destruct c as [l|]; unfold Ok in E1, E2 |- *; cbv beta iota delta [bind].
    + rewrite E1; exact E2.
    + injection E1 as ->; exact E2.
Qed.
(** Lines 55-60: the loop over the rows [is] of [X]. *)
Lemma add_window_written (x0 y0 : R) (i0 j0 : Z) (js : list Z) (rows : list Z) :
  (0 <= i0 < n)%Z -> (0 <= j0 < n)%Z ->
  (forall j, In j js -> (0 <= j < n)%Z) ->
  (forall i, In i rows -> (0 <= i < n)%Z) ->
  forall (grid : ndarray float64) (v0 : float64),
  has_shape N N grid ->
  nd_cell grid (Z.to_nat i0) (Z.to_nat j0) = Some v0 ->
  exists grid',
    for_each rows
      (fun i grid =>
         for_each js
           (fun j grid =>
              c <~ nd_get X i j ;;
              match c with
              | None => Ok grid
              | Some l =>
                  for_each l
                    (fun p grid => grid_add i0 j0 (kernel sigma_sq x0 y0 p) grid)
                    grid
              end) grid) grid = Ok grid' /\
    cell_written N N grid (Z.to_nat i0) (Z.to_nat j0)
      (cell_sum sigma_sq x0 y0
         (flat_map
            (fun i => flat_map (fun j => cell_points X (Z.to_nat i) (Z.to_nat j)) js)
            rows) v0)
      grid'.
Proof.
  intros Hi0 Hj0 Hjs; induction rows as [|i rows IH]; intros Hrows grid v0 Hs Hc.
  - exists grid; split; [reflexivity | now apply cell_written_refl].
  - assert (Hi : (0 <= i < n)%Z) by (apply Hrows; now left).
    cbn [for_each flat_map]; rewrite cell_sum_app.
    destruct (add_row_written x0 y0 i0 j0 i js Hi0 Hj0 Hi Hjs grid v0 Hs Hc)
      as [g1 [E1 W1]].
    destruct (IH (fun i' H => Hrows i' (or_intror H)) g1 _ (proj1 W1) (proj1 (proj2 W1)))
      as [g2 [E2 W2]].
    exists g2; split; [|exact (cell_written_trans _ _ _ _ _ _ _ W1 W2)].
    rewrite E1; exact E2.
Qed.

(** Lines 52-60, for one target cell. *)
Lemma heatmap_cell_written (i0 j0 : Z) (grid : ndarray float64) (v0 : float64) :
  n <> 1%Z -> (0 <= i0 < n)%Z -> (0 <= j0 < n)%Z ->
  has_shape N N grid ->
  nd_cell grid (Z.to_nat i0) (Z.to_nat j0) = Some v0 ->
  exists grid',
    heatmap_cell X sigma_sq n m i0 j0 grid = Ok grid' /\
    cell_written N N grid (Z.to_nat i0) (Z.to_nat j0)
      (cell_sum sigma_sq (IZR i0 / IZR (n - 1)) (IZR j0 / IZR (n - 1))
         (window_points X n m i0 j0) v0)
      grid'.
Proof.
  intros Hn Hi0 Hj0 Hs Hc; unfold heatmap_cell, py_truediv.
  destruct (n - 1 =? 0)%Z eqn:E; [apply Z.eqb_eq in E; lia|].
  cbn [bind Ok]; unfold window_points.
  apply add_window_written; try assumption.
  - intros j Hj; apply py_range_spec in Hj; lia.
  - intros i Hi; apply py_range_spec in Hi; lia.
Qed.

Lemma grid_state_step (done : Z -> Z -> Prop) (i0 j0 : Z) (grid : ndarray float64) :
  n <> 1%Z -> (0 <= i0 < n)%Z -> (0 <= j0 < n)%Z -> ~ done i0 j0 ->
  grid_state X sigma_sq n m done grid ->
  exists grid',
    heatmap_cell X sigma_sq n m i0 j0 grid = Ok grid' /\
    grid_state X sigma_sq n m (fun i j => done i j \/ (i, j) = (i0, j0)) grid'.
Proof.
  intros Hn Hi0 Hj0 Hnd [Hs Hcells].
  destruct (heatmap_cell_written i0 j0 grid (Real 0) Hn Hi0 Hj0 Hs
              (proj2 (Hcells i0 j0 Hi0 Hj0) Hnd)) as [g' [E [Hs' [Hc Hother]]]].
  exists g'; split; [exact E|]; split; [exact Hs'|].
  intros i j Hi Hj.
  destruct (decide ((i, j) = (i0, j0))) as [[= -> ->]|Hne].
  - split; [intros _; exact Hc | intros Hd; exfalso; apply Hd; now right].
  - assert (Hne' : (Z.to_nat i, Z.to_nat j) <> (Z.to_nat i0, Z.to_nat j0)).
    { intros [= Ei Ej]; apply Hne; f_equal; lia. }
    rewrite (Hother _ _ Hne'); split.
    + intros [Hd | Hd]; [now apply Hcells | contradiction].
    + intros Hd; apply Hcells; try assumption.
      intros Hd'; apply Hd; now left.
Qed.
Lemma grid_state_ext (done done' : Z -> Z -> Prop) (grid : ndarray float64) :
  (forall i j, (0 <= i < n)%Z -> (0 <= j < n)%Z -> done i j <-> done' i j) ->
  grid_state X sigma_sq n m done grid -> grid_state X sigma_sq n m done' grid.
Proof.
  intros Hext [Hs Hc]; split; [exact Hs|].
  intros i j Hi Hj; destruct (Hc i j Hi Hj) as [H1 H2].
  split; intros H; [apply H1 | apply H2]; rewrite (Hext i j Hi Hj); exact H.
Qed.

Lemma NoDup_middle_fresh {T : Type} (pre post : list T) (a : T) :
  NoDup (pre ++ a :: post) -> ~ In a pre.
Proof.
  intros H Ha; apply NoDup_app in H as [_ [H _]].
  apply (H a); [now apply list_elem_of_In | left].
Qed.

(** Lines 51-60: the loop over [j0], for the row [i0] of the grid. *)
Lemma sum_row (i0 : Z) (rows : list Z) (grid : ndarray float64) :
  n <> 1%Z -> (0 <= i0 < n)%Z -> ~ In i0 rows ->
  grid_state X sigma_sq n m (fun i _ => In i rows) grid ->
  exists grid',
    for_each (py_range 0 n)
      (fun j0 grid => heatmap_cell X sigma_sq n m i0 j0 grid) grid = Ok grid' /\
    grid_state X sigma_sq n m (fun i _ => In i (rows ++ [i0])) grid'.
Proof.
  intros Hn Hi0 Hfresh H0.
  destruct (for_each_total
    (fun pre g =>
       grid_state X sigma_sq n m (fun i j => In i rows \/ (i = i0 /\ In j pre)) g)
    (py_range 0 n)
    (fun j0 grid => heatmap_cell X sigma_sq n m i0 j0 grid) grid) as [g' [E Hg]].
  - revert H0; apply grid_state_ext; intros i j _ _; simpl; tauto.
  - intros pre j0 post g El Hg.
    assert (Hj0 : (0 <= j0 < n)%Z).
    { apply py_range_spec; rewrite El; apply in_or_app; right; now left. }
    assert (Hnew : ~ In j0 pre).
    { apply NoDup_middle_fresh with post; rewrite <- El; apply py_range_NoDup. }
    destruct (grid_state_step _ i0 j0 g Hn Hi0 Hj0
                (fun H => match H with
                          | or_introl H1 => Hfresh H1
                          | or_intror (conj _ H2) => Hnew H2
                          end) Hg) as [g1 [E1 Hg1]].
    exists g1; split; [exact E1|].
    revert Hg1; apply grid_state_ext; intros i j _ _.
    rewrite in_app_iff; simpl; split.
    + intros [[H | [-> H]] | [= -> ->]]; auto.
    + intros [H | [-> [H | [-> | []]]]]; auto.
  - exists g'; split; [exact E|].
    revert Hg; apply grid_state_ext; intros i j _ Hj.
    rewrite in_app_iff, py_range_spec; simpl; split.
    + intros [H | [-> _]]; auto.
    + intros [H | [-> | []]]; [now left | right; split; [reflexivity | lia]].
Qed.

(** Lines 48-63: the grid returned for a bucket array of shape (n, n). A
    resolution of 1 divides by zero at the first cell and is left out. *)
Lemma sum_kernels_total :
  (0 <= n)%Z -> n <> 1%Z ->
  exists grid,
    sum_kernels X sigma_sq n m = Ok grid /\
    has_shape N N grid /\
    forall i0 j0, (0 <= i0 < n)%Z -> (0 <= j0 < n)%Z ->
      nd_cell grid (Z.to_nat i0) (Z.to_nat j0)
      = Some (cell_value X sigma_sq n m i0 j0).
Proof.
  intros Hn0 Hn1; unfold sum_kernels, np_alloc.
  apply Z.ltb_ge in Hn0; rewrite Hn0; cbn [bind Ok].
  destruct (for_each_total
    (fun pre g => grid_state X sigma_sq n m (fun i _ => In i pre) g)
    (py_range 0 n)
    (fun i0 grid =>
       for_each (py_range 0 n)
         (fun j0 grid => heatmap_cell X sigma_sq n m i0 j0 grid) grid)
    (np_full N N (Real 0))) as [g' [E [Hs Hg]]].
  - split; [apply has_shape_full|].
    intros i j Hi Hj; split; [intros []|intros _].
    apply nd_cell_full; unfold N; lia.
  - intros pre i0 post g El Hg.
    apply sum_row; try assumption.
    + apply py_range_spec; rewrite El; apply in_or_app; right; now left.
    + apply NoDup_middle_fresh with post; rewrite <- El; apply py_range_NoDup.
  - exists g'; split; [exact E | split; [exact Hs|]].
    intros i j Hi Hj; apply (Hg i j Hi Hj), py_range_spec; lia.
Qed.
End SumKernels.

(** ** [heatmap_grid]: the returned grid *)

Section HeatmapGrid.
Local Open Scope R_scope.

Lemma py_int_real (v : float64) (c : R) (z : Z) :
  py_int (f_mul v (Real c)) = Ok z -> exists r, v = Real r.
Proof.
  destruct v as [r| | |]; simpl; try discriminate.
  - intros _; now exists r.
  - unfold inf_times; destruct (Rlt_dec 0 c); [discriminate|].
    destruct (Rlt_dec c 0); discriminate.
  - unfold inf_times; destruct (Rlt_dec 0 c); [discriminate|].
    destruct (Rlt_dec c 0); discriminate.
Qed.

Lemma bucket_of_real (n : Z) (p : point) (ij : nat * nat) :
  bucket_of n p = Ok ij -> exists q, p = real_row q.
Proof.
  unfold bucket_of; destruct p as [x y]; simpl fst; simpl snd.
  destruct (py_int (f_mul x (Real (IZR (n - 1))))) as [e|i] eqn:Ei; simpl; [discriminate|].
  destruct (py_int (f_mul y (Real (IZR (n - 1))))) as [e|j] eqn:Ej; simpl; [discriminate|].
  intros _.
  apply py_int_real in Ei as [rx ->]; apply py_int_real in Ej as [ry ->].
  now exists (rx, ry).
Qed.

Lemma all_real (l : list point) :
  Forall (fun p => exists q, p = real_row q) l -> exists qs, l = map real_row qs.
Proof.
  induction 1 as [|p l [q ->] _ [qs ->]]; [now exists [] | now exists (q :: qs)].
Qed.

Lemma window_points_subset (X : buckets) (D : list point) (n m i0 j0 : Z) (p : point) :
  buckets_of n D X -> In p (window_points X n m i0 j0) -> In p D.
Proof.
  intros [_ Hc]; unfold window_points; rewrite in_flat_map.
  intros [i [Hi Hp]]; apply in_flat_map in Hp as [j [Hj Hp]].
  apply py_range_spec in Hi, Hj.
  rewrite Hc in Hp by lia.
  now apply filter_In in Hp.
Qed.

Lemma window_points_real (X : buckets) (D : list point) (n m i0 j0 : Z) :
  buckets_of n D X -> bucketable n D ->
  exists qs, window_points X n m i0 j0 = map real_row qs.
Proof.
  intros HX HD; apply all_real, Forall_forall; intros p Hp.
  apply list_elem_of_In, (window_points_subset X D) in Hp; [|exact HX].
  unfold bucketable in HD; rewrite Forall_forall in HD.
  destruct (HD p) as [ij Hij]; [now apply list_elem_of_In|].
  now apply bucket_of_real with n ij.
Qed.

Lemma cell_sum_real (sigma_sq x0 y0 a : R) (qs : list (R * R)) :
  sigma_sq <> 0 ->
  cell_sum sigma_sq x0 y0 (map real_row qs) (Real a)
  = Real (a + Rsum (map (gauss sigma_sq x0 y0) qs)).
Proof.
  intros Hs; revert a; induction qs as [|q qs IH]; intros a.
  - simpl; f_equal; lra.
  - unfold cell_sum in *; cbn [map fold_left]; rewrite kernel_real by exact Hs.
    cbn [f_add]; rewrite IH; unfold Rsum; cbn [map fold_right]; f_equal; lra.
Qed.

Lemma Rsum_gauss_nonneg (sigma_sq x0 y0 : R) (qs : list (R * R)) :
  0 <= Rsum (map (gauss sigma_sq x0 y0) qs).
Proof.
  induction qs as [|q qs IH]; simpl; [lra|].
  pose proof (exp_pos (- ((x0 - fst q) * (x0 - fst q)) / (2 * sigma_sq)
                       - ((y0 - snd q) * (y0 - snd q)) / (2 * sigma_sq))).
  unfold gauss at 1; lra.
Qed.

Lemma sum_kernels_one (X : buckets) (sigma_sq : R) (m : Z) :
  sum_kernels X sigma_sq 1 m = Raise ZeroDivisionError.
Proof. reflexivity. Qed.

(** C6: when [heatmap_grid] returns a grid (for [sigma_sq] other than zero),
    the grid has [n] rows of [n] cells, every cell is a non-negative real
    number, and a cell whose window of the bucket array holds no point is
    exactly 0. *)
Theorem heatmap_grid_nonneg (g : globals) (data : list point) (sigma_sq : R)
  (n m : Z) (grid : ndarray float64) :
  sigma_sq <> 0 ->
  heatmap_grid g data sigma_sq n m = Ok grid ->
  exists X : buckets,
    fill_buckets g data n = Ok X /\
    has_shape (Z.to_nat n) (Z.to_nat n) grid /\
    forall i0 j0, (0 <= i0 < n)%Z -> (0 <= j0 < n)%Z ->
      exists r : R,
        nd_cell grid (Z.to_nat i0) (Z.to_nat j0) = Some (Real r) /\
        0 <= r /\
        (window_points X n m i0 j0 = [] -> r = 0).
Proof.
  intros Hs E; unfold heatmap_grid in E.
  destruct (fill_buckets g data n) as [e|X] eqn:EX; simpl in E; [discriminate|].
  exists X; split; [reflexivity|].
  destruct (fill_buckets_inv n g data X EX) as [Hn [_ [HD HX]]].
  destruct (Z.eq_dec n 1%Z) as [->|Hn1].
  { rewrite sum_kernels_one in E; discriminate. }
  destruct (sum_kernels_total X sigma_sq n m (proj1 HX) Hn Hn1) as [G [EG [HsG HG]]].
  rewrite EG in E; injection E as <-.
  split; [exact HsG|].
  intros i0 j0 Hi0 Hj0.
  destruct (window_points_real X _ n m i0 j0 HX HD) as [qs Eqs].
  exists (0 + Rsum (map (gauss sigma_sq (IZR i0 / IZR (n - 1)) (IZR j0 / IZR (n - 1))) qs)).
  split; [|split].
  - rewrite (HG i0 j0 Hi0 Hj0); unfold cell_value.
    now rewrite Eqs, cell_sum_real.
  - pose proof (Rsum_gauss_nonneg sigma_sq (IZR i0 / IZR (n - 1)) (IZR j0 / IZR (n - 1)) qs).
    lra.
  - intros Hnil; rewrite Hnil in Eqs.
    destruct qs; [simpl; lra | discriminate].
Qed.
End HeatmapGrid.

(** ** Sums over buckets *)

Section BucketSums.
Local Open Scope R_scope.
Context {Q : Type}.
Variable f : Q -> R.

Lemma Rsum_app (l1 l2 : list R) : Rsum (l1 ++ l2) = Rsum l1 + Rsum l2.
Proof. induction l1 as [|a l1 IH]; simpl; [lra | rewrite IH; lra]. Qed.

Lemma Rsum_flat_map {K : Type} (G : K -> list Q) (ks : list K) :
  Rsum (map f (flat_map G ks)) = Rsum (map (fun k => Rsum (map f (G k))) ks).
Proof.
  induction ks as [|k ks IH]; simpl; [reflexivity|].
  now rewrite map_app, Rsum_app, IH.
Qed.

Lemma Rsum_zero {K : Type} (ks : list K) : Rsum (map (fun _ => 0) ks) = 0.
Proof. induction ks as [|k ks IH]; simpl; [reflexivity | rewrite IH; lra]. Qed.

Lemma Rsum_plus {K : Type} (u v : K -> R) (ks : list K) :
  Rsum (map (fun k => u k + v k) ks) = Rsum (map u ks) + Rsum (map v ks).
Proof. induction ks as [|k ks IH]; simpl; [lra | rewrite IH; lra]. Qed.

Lemma memb_In (z : Z) (l : list Z) : memb z l = true <-> In z l.
Proof.
  unfold memb; rewrite existsb_exists; split.
  - intros [x [Hx E]]; apply Z.eqb_eq in E; now subst.
  - intros H; exists z; split; [exact H | apply Z.eqb_refl].
Qed.

(** Among distinct keys, at most one selects a given point. *)
Lemma Rsum_select (z : Z) (c : bool) (x : R) (ks : list Z) :
  NoDup ks ->
  Rsum (map (fun k => if (z =? k)%Z && c then x else 0) ks)
  = if memb z ks && c then x else 0.
Proof.
  induction 1 as [|k ks Hk Hnd IH]; [reflexivity|].
  cbn [map Rsum fold_right memb existsb]; fold (memb z ks).
  unfold Rsum in IH; rewrite IH.
  destruct (z =? k)%Z eqn:E; simpl; [|lra].
  apply Z.eqb_eq in E; subst k.
  assert (Hm : memb z ks = false).
  { destruct (memb z ks) eqn:Em; [|reflexivity].
    apply memb_In in Em; exfalso; apply Hk; now apply list_elem_of_In. }
  rewrite Hm; simpl; destruct c; lra.
Qed.

(** Summing bucket by bucket over distinct keys is summing over the points
    whose key is one of them. *)
Lemma Rsum_by_key (key : Q -> Z) (c : Q -> bool) (ks : list Z) (pts : list Q) :
  NoDup ks ->
  Rsum (map (fun k => Rsum (map f (List.filter (fun q => (key q =? k)%Z && c q) pts))) ks)
  = Rsum (map f (List.filter (fun q => memb (key q) ks && c q) pts)).
Proof.
  intros Hnd; induction pts as [|q pts IH].
  - simpl; apply Rsum_zero.
  - rewrite (map_ext _ (fun k =>
       (if (key q =? k)%Z && c q then f q else 0)
       + Rsum (map f (List.filter (fun q => (key q =? k)%Z && c q) pts)))).
    + rewrite Rsum_plus, IH, Rsum_select by exact Hnd.
      simpl; destruct (memb (key q) ks && c q); simpl; lra.
    + intros k; simpl; destruct ((key q =? k)%Z && c q); simpl; lra.
Qed.

(** The two-dimensional form, for a row key and a column key. *)
Lemma Rsum_by_cell (row col : Q -> Z) (rows cols : list Z) (pts : list Q) :
  NoDup rows -> NoDup cols ->
  Rsum (map f
          (flat_map
             (fun i =>
                flat_map
                  (fun j => List.filter (fun q => (row q =? i)%Z && (col q =? j)%Z) pts)
                  cols)
             rows))
  = Rsum (map f (List.filter (fun q => memb (row q) rows && memb (col q) cols) pts)).
Proof.
  intros Hr Hc; rewrite Rsum_flat_map.
  rewrite (map_ext _ (fun i =>
     Rsum (map f (List.filter (fun q => (row q =? i)%Z && memb (col q) cols) pts)))).
  - now apply Rsum_by_key.
  - intros i; rewrite Rsum_flat_map.
    rewrite (map_ext _ (fun j =>
       Rsum (map f (List.filter (fun q => (col q =? j)%Z && (row q =? i)%Z) pts)))).
    + rewrite Rsum_by_key by exact Hc.
      do 2 f_equal; apply filter_ext; intros q; apply andb_comm.
    + intros j; do 2 f_equal; apply filter_ext; intros q; apply andb_comm.
Qed.
End BucketSums.

(** ** [heatmap_grid] on points of the unit square *)

Section UnitSquare.
Local Open Scope R_scope.
Variable n : Z.
Hypothesis n_ge_2 : (2 <= n)%Z.

Lemma bucket_of_unit_square (q : R * R) :
  in_unit_square q ->
  bucket_of n (real_row q)
  = Ok (Z.to_nat (fst (bucket_cell n q)), Z.to_nat (snd (bucket_cell n q))).
Proof.
  intros [Hx Hy]; unfold bucket_of, real_row, bucket_cell; simpl fst; simpl snd.
  assert (H1 : 1 <= IZR (n - 1)) by (apply IZR_le; lia).
  pose proof (bucket_index_bounds (fst q) n Hx n_ge_2) as Bx.
  pose proof (bucket_index_bounds (snd q) n Hy n_ge_2) as By.
  cbn [f_mul py_int]; rewrite !Rtrunc_nonneg by nra.
  cbn [bind Ok]; rewrite !py_index_in_range by lia.
  reflexivity.
Qed.

Lemma in_bucket_unit_square (q : R * R) (i j : Z) :
  in_unit_square q -> (0 <= i < n)%Z -> (0 <= j < n)%Z ->
  in_bucket n (Z.to_nat i) (Z.to_nat j) (real_row q)
  = (fst (bucket_cell n q) =? i)%Z && (snd (bucket_cell n q) =? j)%Z.
Proof.
  intros Hq Hi Hj; unfold in_bucket; rewrite bucket_of_unit_square by exact Hq.
  destruct Hq as [Hx Hy].
  pose proof (bucket_index_bounds (fst q) n Hx n_ge_2) as Bx.
  pose proof (bucket_index_bounds (snd q) n Hy n_ge_2) as By.
  unfold Ok, bucket_cell; simpl fst; simpl snd.
  f_equal.
  - destruct (Z.eqb_spec (Zfloor (fst q * IZR (n - 1))) i) as [E|E].
    + apply Nat.eqb_eq; lia.
    + apply Nat.eqb_neq; lia.
  - destruct (Z.eqb_spec (Zfloor (snd q * IZR (n - 1))) j) as [E|E].
    + apply Nat.eqb_eq; lia.
    + apply Nat.eqb_neq; lia.
Qed.

Lemma bucketable_unit_square (pts : list (R * R)) :
  Forall in_unit_square pts -> bucketable n (map real_row pts).
Proof.
  intros H; unfold bucketable; apply Forall_map.
  eapply Forall_impl; [exact H|].
  intros q Hq; eexists; now apply bucket_of_unit_square.
Qed.

Lemma filter_map_real_row (P : point -> bool) (pts : list (R * R)) :
  List.filter P (map real_row pts)
  = map real_row (List.filter (fun q => P (real_row q)) pts).
Proof.
  induction pts as [|q pts IH]; simpl; [reflexivity|].
  destruct (P (real_row q)); simpl; now rewrite IH.
Qed.

Lemma map_flat_map_list {K U V : Type} (h : U -> V) (G : K -> list U) (ks : list K) :
  map h (flat_map G ks) = flat_map (fun k => map h (G k)) ks.
Proof.
  induction ks as [|k ks IH]; simpl; [reflexivity | now rewrite map_app, IH].
Qed.

Lemma flat_map_ext_in {K U : Type} (G G' : K -> list U) (ks : list K) :
  (forall k, In k ks -> G k = G' k) -> flat_map G ks = flat_map G' ks.
Proof.
  induction ks as [|k ks IH]; intros H; simpl; [reflexivity|].
  rewrite (H k) by now left.
  f_equal; apply IH; intros k' Hk'; apply H; now right.
Qed.

(** The points visited for a target cell are the points of the buckets
    [(floor(x*(n-1)), floor(y*(n-1)))] of the window, row by row. *)
Lemma window_points_unit_square (X : buckets) (pts : list (R * R)) (m i0 j0 : Z) :
  Forall in_unit_square pts ->
  buckets_of n (map real_row pts) X ->
  window_points X n m i0 j0
  = map real_row
      (flat_map
         (fun i =>
            flat_map
              (fun j =>
                 List.filter
                   (fun q => (fst (bucket_cell n q) =? i)%Z
                             && (snd (bucket_cell n q) =? j)%Z) pts)
              (py_range (Z.max 0 (j0 - m)) (Z.min (j0 + m) n)))
         (py_range (Z.max 0 (i0 - m)) (Z.min (i0 + m) n))).
Proof.
  intros Hpts [_ Hc]; unfold window_points.
  rewrite map_flat_map_list; apply flat_map_ext_in; intros i Hi.
  rewrite map_flat_map_list; apply flat_map_ext_in; intros j Hj.
  apply py_range_spec in Hi, Hj.
  rewrite Hc, filter_map_real_row by lia.
  f_equal; apply filter_ext_in; intros q Hq.
  apply in_bucket_unit_square; [|lia|lia].
  rewrite Forall_forall in Hpts; now apply Hpts, list_elem_of_In.
Qed.

Lemma memb_py_range (m i0 i : Z) :
  memb i (py_range (Z.max 0 (i0 - m)) (Z.min (i0 + m) n)) = in_window n m i0 i.
Proof.
  unfold in_window.
  destruct (memb i (py_range (Z.max 0 (i0 - m)) (Z.min (i0 + m) n))) eqn:E.
  - apply memb_In, py_range_spec in E; symmetry.
    apply andb_true_intro; split; [apply Z.leb_le | apply Z.ltb_lt]; lia.
  - symmetry; apply not_true_is_false; intros H.
    apply andb_prop in H as [H1 H2]; apply Z.leb_le in H1; apply Z.ltb_lt in H2.
    assert (In i (py_range (Z.max 0 (i0 - m)) (Z.min (i0 + m) n)))
      by (apply py_range_spec; lia).
    apply memb_In in H; congruence.
Qed.

Lemma cell_value_unit_square (X : buckets) (pts : list (R * R))
  (sigma_sq : R) (m i0 j0 : Z) :
  sigma_sq <> 0 ->
  Forall in_unit_square pts ->
  buckets_of n (map real_row pts) X ->
  cell_value X sigma_sq n m i0 j0 = Real (window_sum sigma_sq n m i0 j0 pts).
Proof.
  intros Hs Hpts HX; unfold cell_value, window_sum, window_of.
  rewrite (window_points_unit_square X pts) by assumption.
  rewrite cell_sum_real by exact Hs.
  rewrite Rsum_by_cell by apply py_range_NoDup.
  f_equal; rewrite Rplus_0_l; do 2 f_equal.
  apply filter_ext; intros q; now rewrite !memb_py_range.
Qed.
End UnitSquare.

(** On points of the unit square the loop over [len(points)] buckets the
    first [len(points)] points of the argument, and the grid holds the sums
    over the windows of these points. *)
Lemma heatmap_grid_unit_square (g : globals) (pts : list (R * R))
  (sigma_sq : R) (n m : Z) :
  Forall in_unit_square pts -> (2 <= n)%Z -> sigma_sq <> 0%R ->
  (length (points g) <= length pts)%nat ->
  exists (X : buckets) (grid : ndarray float64),
    fill_buckets g (map real_row pts) n = Ok X /\
    heatmap_grid g (map real_row pts) sigma_sq n m = Ok grid /\
    has_shape (Z.to_nat n) (Z.to_nat n) grid /\
    forall i0 j0, (0 <= i0 < n)%Z -> (0 <= j0 < n)%Z ->
      cell_points X (Z.to_nat i0) (Z.to_nat j0)
        = map real_row (List.filter
                          (fun q => (fst (bucket_cell n q) =? i0)%Z
                                    && (snd (bucket_cell n q) =? j0)%Z)
                          (take (length (points g)) pts)) /\
      nd_cell grid (Z.to_nat i0) (Z.to_nat j0)
        = Some (Real (window_sum sigma_sq n m i0 j0 (take (length (points g)) pts))).
Proof.
  intros Hpts Hn Hs Hlen.
  set (used := take (length (points g)) pts).
  assert (Hused : Forall in_unit_square used) by now apply Forall_take.
  assert (Etake : take (length (points g)) (map real_row pts) = map real_row used).
  { unfold used; apply firstn_map. }
  pose proof (fill_buckets_total n g (map real_row pts)) as T.
  cbv zeta in T; rewrite Etake in T.
  destruct T as [X [EX HX]].
  - lia.
  - rewrite length_map; lia.
  - now apply bucketable_unit_square.
  - destruct (sum_kernels_total X sigma_sq n m (proj1 HX)) as [grid [EG [HsG HG]]];
      [lia | lia |].
    exists X, grid; split; [exact EX|].
    split; [unfold heatmap_grid; rewrite EX; exact EG|].
    split; [exact HsG|].
    intros i0 j0 Hi0 Hj0; split.
    + rewrite (proj2 HX) by lia.
      rewrite filter_map_real_row; f_equal.
      apply filter_ext_in; intros q Hq.
      apply in_bucket_unit_square; try assumption.
      rewrite Forall_forall in Hused; now apply Hused, list_elem_of_In.
    + rewrite (HG i0 j0 Hi0 Hj0); f_equal.
      now apply cell_value_unit_square.
Qed.



(** ** One point at the origin, [n = 2], [m = 1], [sigma_sq = 1] *)

Section SinglePoint.
Local Open Scope R_scope.

Lemma bucket_cell_origin (n : Z) : bucket_cell n (0, 0) = (0, 0)%Z.
Proof.
  unfold bucket_cell; simpl fst; simpl snd.
  rewrite Rmult_0_l; now rewrite (ZfloorZ 0).
Qed.

Lemma in_unit_square_origin : Forall in_unit_square [(0, 0)].
Proof. apply Forall_singleton; unfold in_unit_square; simpl; lra. Qed.

Lemma window_sum_single (sigma_sq : R) (n m i0 j0 : Z) (q : R * R) :
  window_sum sigma_sq n m i0 j0 [q]
  = if in_window n m i0 (fst (bucket_cell n q))
       && in_window n m j0 (snd (bucket_cell n q))
    then gauss sigma_sq (IZR i0 / IZR (n - 1)) (IZR j0 / IZR (n - 1)) q
    else 0.
Proof.
  unfold window_sum, window_of; cbn [List.filter].
  destruct (in_window n m i0 (fst (bucket_cell n q))
            && in_window n m j0 (snd (bucket_cell n q))); simpl; lra.
Qed.

Lemma window_sum_origin_00 : window_sum 1 2 1 0 0 [(0, 0)] = 1.
Proof.
  rewrite window_sum_single, bucket_cell_origin.
  change (in_window 2 1 0 (0, 0)%Z.1 && in_window 2 1 0 (0, 0)%Z.2) with true.
  cbv iota; unfold gauss; cbn [fst snd]; change (2 - 1)%Z with 1%Z.
  rewrite <- exp_0; f_equal; lra.
Qed.

Lemma window_sum_origin_11 : window_sum 1 2 1 1 1 [(0, 0)] = exp (- 1).
Proof.
  rewrite window_sum_single, bucket_cell_origin.
  change (in_window 2 1 1 (0, 0)%Z.1 && in_window 2 1 1 (0, 0)%Z.2) with true.
  cbv iota; unfold gauss; cbn [fst snd]; change (2 - 1)%Z with 1%Z.
  f_equal; lra.
Qed.

Lemma window_sum_nil (sigma_sq : R) (n m i0 j0 : Z) :
  window_sum sigma_sq n m i0 j0 [] = 0.
Proof. reflexivity. Qed.

(** The grid when the module-level [points] has one entry. *)
Lemma single_point_grid (g : globals) :
  length (points g) = 1%nat ->
  exists grid : ndarray float64,
    heatmap_grid g [(Real 0, Real 0)] 1 2 1 = Ok grid /\
    has_shape 2 2 grid /\
    nd_cell grid 0 0 = Some (Real 1) /\
    nd_cell grid 1 1 = Some (Real (exp (- 1))).
Proof.
  intros Hlen.
  destruct (heatmap_grid_unit_square g [(0, 0)] 1 2 1 in_unit_square_origin)
    as [X [grid [_ [E [Hs H]]]]]; [lia | lra | simpl; lia |].
  rewrite Hlen in H; cbn [take firstn] in H.
  exists grid; split; [exact E | split; [exact Hs|]].
  split.
  - rewrite <- window_sum_origin_00; apply (H 0%Z 0%Z); lia.
  - rewrite <- window_sum_origin_11; apply (H 1%Z 1%Z); lia.
Qed.

(** The grid when the module-level [points] is empty: no point of the
    argument is bucketed. *)
Lemma single_point_grid_empty_global (g : globals) :
  points g = [] ->
  exists grid : ndarray float64,
    heatmap_grid g [(Real 0, Real 0)] 1 2 1 = Ok grid /\
    has_shape 2 2 grid /\
    nd_cell grid 0 0 = Some (Real 0) /\
    nd_cell grid 1 1 = Some (Real 0).
Proof.
  intros Hg.
  destruct (heatmap_grid_unit_square g [(0, 0)] 1 2 1 in_unit_square_origin)
    as [X [grid [_ [E [Hs H]]]]]; [lia | lra | rewrite Hg; simpl; lia |].
  rewrite Hg in H; cbn [length take firstn] in H.
  exists grid; split; [exact E | split; [exact Hs|]].
  split.
  - rewrite <- (window_sum_nil 1 2 1 0 0); apply (H 0%Z 0%Z); lia.
  - rewrite <- (window_sum_nil 1 2 1 1 1); apply (H 1%Z 1%Z); lia.
Qed.

(** C7: with one point at (0, 0), [n = 2], [m = 1] and [sigma_sq = 1]
    (the module-level [points] holding that one point), [heatmap_grid]
    returns a grid with [grid[0][0] = exp(0) = 1] and
    [grid[1][1] = exp(-1)]. *)
Theorem heatmap_grid_single_point (g : globals) :
  length (points g) = 1%nat ->
  exists grid : ndarray float64,
    heatmap_grid g [(Real 0, Real 0)] 1 2 1 = Ok grid /\
    nd_cell grid 0 0 = Some (Real (exp 0)) /\
    nd_cell grid 0 0 = Some (Real 1) /\
    nd_cell grid 1 1 = Some (Real (exp (- 1))).
Proof.
  intros Hlen; destruct (single_point_grid g Hlen) as [grid [E [_ [H00 H11]]]].
  exists grid; rewrite exp_0; auto.
Qed.

Lemma heatmap_grid_single_point_witness :
  exists grid : ndarray float64,
    heatmap_grid {| points := [(0, 0)] |} [(Real 0, Real 0)] 1 2 1 = Ok grid /\
    nd_cell grid 0 0 = Some (Real 1) /\
    nd_cell grid 1 1 = Some (Real (exp (- 1))).
Proof.
  destruct (heatmap_grid_single_point {| points := [(0, 0)] |} eq_refl)
    as [grid [E [_ [H00 H11]]]].
  now exists grid.
Defined.

(** When the module-level [points] is longer than the argument, the loop of
    lines 40-46 indexes the argument out of range. *)
Lemma heatmap_grid_longer_global :
  heatmap_grid {| points := [(0, 0); (1, 1)]%R |} [(Real 0, Real 0)] 1 2 1
  = Raise IndexError.
Proof.
  unfold heatmap_grid, fill_buckets, np_alloc.
  change (2 <? 0)%Z with false; cbn [bind Ok points length seq for_each].
  rewrite (bucket_step_eq 2) by apply has_shape_full.
  change ([(Real 0, Real 0)] !! 0%nat) with (Some (real_row (0, 0)%R)).
  cbn [bind Ok].
  rewrite (bucket_of_unit_square 2) by (try lia; unfold in_unit_square; simpl; lra).
  cbn [bind Ok].
  reflexivity.
Qed.

(** C1 fails on the code: [heatmap_grid] reads the module-level [points].
    Calls with the same arguments (one point at the origin, [sigma_sq = 1],
    [n = 2], [m = 1]) return different grids when [points] is empty at the
    first call and holds one entry at the second, and raise when [points]
    holds two entries. *)
Theorem heatmap_grid_reads_global :
  exists grid0 grid1 : ndarray float64,
    heatmap_grid {| points := [] |} [(Real 0, Real 0)] 1 2 1 = Ok grid0 /\
    heatmap_grid {| points := [(0, 0)] |} [(Real 0, Real 0)] 1 2 1 = Ok grid1 /\
    nd_cell grid0 0 0 = Some (Real 0) /\
    nd_cell grid1 0 0 = Some (Real 1) /\
    grid0 <> grid1 /\
    heatmap_grid {| points := [(0, 0); (1, 1)] |} [(Real 0, Real 0)] 1 2 1
    = Raise IndexError.
Proof.
  destruct (single_point_grid_empty_global {| points := [] |} eq_refl)
    as [grid0 [E0 [_ [H0 _]]]].
  destruct (single_point_grid {| points := [(0, 0)] |} eq_refl)
    as [grid1 [E1 [_ [H1 _]]]].
  exists grid0, grid1; repeat split; try assumption.
  - intros ->; rewrite H0 in H1; injection H1; lra.
  - apply heatmap_grid_longer_global.
Qed.

Lemma heatmap_grid_nonneg_witness :
  exists (grid : ndarray float64) (r : R),
    heatmap_grid {| points := [(0, 0)] |} [(Real 0, Real 0)] 1 2 1 = Ok grid /\
    nd_cell grid 1 0 = Some (Real r) /\ 0 <= r.
Proof.
  destruct (single_point_grid {| points := [(0, 0)] |} eq_refl) as [grid [E _]].
  destruct (heatmap_grid_nonneg {| points := [(0, 0)] |} [(Real 0, Real 0)]
              1 2 1 grid ltac:(lra) E) as [X [_ [_ H]]].
  destruct (H 1%Z 0%Z ltac:(lia) ltac:(lia)) as [r [Hc [Hr _]]].
  exists grid, r; repeat split; assumption.
Defined.

End SinglePoint.

(** ** [heatmap_barplot] on a grid of zeros *)

Section ZeroGrid.
Local Open Scope R_scope.

Lemma for_each_unchanged {T S : Type} (l : list T) (body : T -> S -> result S) (s : S) :
  (forall a, In a l -> body a s = Ok s) -> for_each l body s = Ok s.
Proof.
  induction l as [|a l IH]; intros H; simpl; [reflexivity|].
  rewrite (H a) by now left.
  apply IH; intros a' Ha'; apply H; now right.
Qed.

Lemma map_replicate {T U : Type} (h : T -> U) (k : nat) (x : T) :
  map h (replicate k x) = replicate k (h x).
Proof. induction k as [|k IH]; simpl; [reflexivity | now rewrite IH]. Qed.

Lemma log_of_zero_cell : f_log (f_add (Real 0) (Real 1)) = Real 0.
Proof.
  simpl; destruct (Rlt_dec 0 (0 + 1)) as [_|H]; [|exfalso; lra].
  now rewrite Rplus_0_l, ln_1.
Qed.

Lemma zero_cell_below_threshold : f_gt (Real 0) (Real 0.001) = false.
Proof. simpl; destruct (Rlt_dec 0.001 0) as [H|_]; [exfalso; lra | reflexivity]. Qed.

Lemma np_max_zeros (l : list float64) :
  l <> [] -> Forall (fun v => v = Real 0) l -> np_max l = Ok (Real 0).
Proof.
  intros Hne H; destruct l as [|a t]; [congruence|].
  apply Forall_cons in H as [-> Ht]; clear Hne; simpl; f_equal.
  induction Ht as [|b t -> _ IH]; simpl; [reflexivity|].
  destruct (Rlt_dec 0 0); exact IH.
Qed.

Lemma concat_zeros (rows cols : nat) :
  Forall (fun v => v = Real 0) (concat (np_full rows cols (Real 0))).
Proof.
  unfold np_full; induction rows as [|rows IH]; simpl; [constructor|].
  apply Forall_app; split; [|exact IH].
  apply Forall_forall; intros v Hv; now apply elem_of_replicate in Hv.
Qed.

Lemma np_max_zero_grid (rows cols : nat) :
  (2 <= rows)%nat -> (2 <= cols)%nat ->
  np_max (concat (np_full rows cols (Real 0))) = Ok (Real 0).
Proof.
  intros Hrows Hcols; apply np_max_zeros; [|apply concat_zeros].
  destruct rows as [|rows]; [lia|]; destruct cols as [|cols]; [lia|]; discriminate.
Qed.

(** On a grid of zeros the loop leaves its initial state unchanged. *)
Lemma heatmap_barplot_zeros (rows cols : nat) (h width bar_scale : R)
  (num_colors : Z) (logarithmic : bool) :
  (2 <= rows)%nat -> (2 <= cols)%nat ->
  heatmap_barplot (np_full rows cols (Real 0)) h width bar_scale num_colors
    logarithmic
  = Ok {| bmList := replicate (Z.to_nat num_colors) []; zmax_divisions := 0 |}.
Proof.
  intros Hrows Hcols.
  unfold heatmap_barplot.
  assert (Hlog : (if logarithmic
                  then map (map (fun v => f_log (f_add v (Real 1))))
                         (np_full rows cols (Real 0))
                  else np_full rows cols (Real 0))
                 = np_full rows cols (Real 0)).
  { destruct logarithmic; [|reflexivity].
    unfold np_full; now rewrite !map_replicate, log_of_zero_cell. }
  rewrite Hlog, np_max_zero_grid by assumption; cbn [bind Ok].
  assert (Hlen : length (np_full rows cols (Real 0)) = rows)
    by apply length_replicate.
  assert (Hhd : length (hd [] (np_full rows cols (Real 0))) = cols).
  { unfold np_full; destruct rows as [|rows]; [lia|]; simpl; apply length_replicate. }
  rewrite Hlen, Hhd.
  destruct (Z.max (Z.of_nat rows) (Z.of_nat cols) =? 0)%Z eqn:E;
    [apply Z.eqb_eq in E; lia|].
  cbn [bind Ok].
  apply for_each_unchanged; intros i Hi.
  apply for_each_unchanged; intros j Hj.
  apply py_range_spec in Hi, Hj.
  unfold barplot_cell, py_truediv.
  destruct (Z.of_nat rows - 1 =? 0)%Z eqn:E1; [apply Z.eqb_eq in E1; lia|].
  destruct (Z.of_nat cols - 1 =? 0)%Z eqn:E2; [apply Z.eqb_eq in E2; lia|].
  cbn [bind Ok].
  rewrite (nd_get_eq rows cols) by apply has_shape_full.
  rewrite !py_index_in_range by lia.
  cbn [bind Ok]; rewrite nd_cell_full by lia.
  cbn [bind Ok]; now rewrite zero_cell_below_threshold.
Qed.

(** C8: on a grid of zeros with at least two rows and two columns,
    [z_max] is 0, no cell passes the test [z > 0.001], and the loop ends
    with every mesh of [bmList] empty (no bar) and without having evaluated
    a quotient by [z_max]; with [logarithmic] set the grid [log(grid + 1)]
    is again a grid of zeros. *)
Theorem heatmap_barplot_zero_grid (rows cols : nat) (h width bar_scale : R)
  (num_colors : Z) (logarithmic : bool) :
  (2 <= rows)%nat -> (2 <= cols)%nat ->
  np_max (concat (np_full rows cols (Real 0))) = Ok (Real 0) /\
  (forall i j, (i < rows)%nat -> (j < cols)%nat ->
     exists z, nd_cell (np_full rows cols (Real 0)) i j = Some z /\
               f_gt z (Real 0.001) = false) /\
  heatmap_barplot (np_full rows cols (Real 0)) h width bar_scale num_colors
    logarithmic
  = Ok {| bmList := replicate (Z.to_nat num_colors) []; zmax_divisions := 0 |}.
Proof.
  intros Hrows Hcols.
  split; [now apply np_max_zero_grid|].
  split; [|now apply heatmap_barplot_zeros].
  intros i j Hi Hj; exists (Real 0); split;
    [now apply nd_cell_full | apply zero_cell_below_threshold].
Qed.

Lemma heatmap_barplot_zero_grid_witness :
  heatmap_barplot (np_full 2 2 (Real 0)) 4 10 0.9 10 false
  = Ok {| bmList := replicate 10 []; zmax_divisions := 0 |}.
Proof. apply (heatmap_barplot_zero_grid 2 2 4 10 0.9 10 false); lia. Defined.

(** A grid of one cell: line 85 divides by [n - 1 = 0]. *)
Lemma heatmap_barplot_one_cell (h width bar_scale : R) (num_colors : Z)
  (logarithmic : bool) :
  heatmap_barplot [[Real 0]] h width bar_scale num_colors logarithmic
  = Raise ZeroDivisionError.
Proof. destruct logarithmic; reflexivity. Qed.
End ZeroGrid.

(** ** The grid of an empty point set *)

Lemma nd_ext {A : Type} (rows cols : nat) (a b : ndarray A) :
  has_shape rows cols a -> has_shape rows cols b ->
  (forall i j, (i < rows)%nat -> (j < cols)%nat -> nd_cell a i j = nd_cell b i j) ->
  a = b.
Proof.
  intros Ha Hb Hc; apply list_eq; intros i.
  destruct (a !! i) as [ra|] eqn:Ea, (b !! i) as [rb|] eqn:Eb.
  - f_equal; apply list_eq; intros j.
    pose proof (has_shape_row _ _ _ _ _ Ha Ea) as La.
    pose proof (has_shape_row _ _ _ _ _ Hb Eb) as Lb.
    destruct (decide (j < cols)%nat) as [Hj|Hj].
    + assert (Hi : (i < rows)%nat)
        by (rewrite <- (proj1 Ha); now apply lookup_lt_Some with ra).
      specialize (Hc i j Hi Hj); unfold nd_cell in Hc.
      now rewrite Ea, Eb in Hc.
    + rewrite !lookup_ge_None_2 by lia; reflexivity.
  - apply lookup_lt_Some in Ea; apply lookup_ge_None in Eb.
    rewrite (proj1 Ha) in Ea; rewrite (proj1 Hb) in Eb; lia.
  - apply lookup_ge_None in Ea; apply lookup_lt_Some in Eb.
    rewrite (proj1 Ha) in Ea; rewrite (proj1 Hb) in Eb; lia.
  - reflexivity.
Qed.

Lemma window_points_no_point (X : buckets) (n m i0 j0 : Z) :
  buckets_of n [] X -> window_points X n m i0 j0 = [].
Proof.
  intros HX; destruct (window_points X n m i0 j0) as [|p l] eqn:E; [reflexivity|].
  exfalso; apply (window_points_subset X [] n m i0 j0 p HX).
  rewrite E; now left.
Qed.

(** When the module-level [points] is empty no point is bucketed, whatever
    the argument, and the grid is [np.zeros((n, n))]. *)
Lemma heatmap_grid_no_point (g : globals) (data : list point) (sigma_sq : R)
  (n m : Z) :
  points g = [] -> (0 <= n)%Z -> n <> 1%Z ->
  heatmap_grid g data sigma_sq n m = Ok (np_full (Z.to_nat n) (Z.to_nat n) (Real 0)).
Proof.
  intros Hg Hn Hn1.
  pose proof (fill_buckets_total n g data) as T.
  rewrite Hg in T; cbn [length take firstn] in T.
  destruct T as [X [EX HX]]; [exact Hn | lia | constructor |].
  destruct (sum_kernels_total X sigma_sq n m (proj1 HX) Hn Hn1) as [grid [EG [Hs HG]]].
  unfold heatmap_grid; rewrite EX; cbn [bind Ok]; rewrite EG; f_equal.
  apply (nd_ext (Z.to_nat n) (Z.to_nat n)); [exact Hs | apply has_shape_full|].
  intros i j Hi Hj.
  rewrite nd_cell_full by assumption.
  specialize (HG (Z.of_nat i) (Z.of_nat j) ltac:(lia) ltac:(lia)).
  rewrite !Nat2Z.id in HG; rewrite HG.
  unfold cell_value; now rewrite window_points_no_point.
Qed.

(** The scenario of the empty point set: the grid is a grid of zeros and
    [heatmap_barplot] adds no bar. *)
Lemma empty_point_set_no_bar (sigma_sq h width bar_scale : R) (n m num_colors : Z)
  (logarithmic : bool) :
  (2 <= n)%Z ->
  exists grid : ndarray float64,
    heatmap_grid {| points := [] |} [] sigma_sq n m = Ok grid /\
    heatmap_barplot grid h width bar_scale num_colors logarithmic
    = Ok {| bmList := replicate (Z.to_nat num_colors) []; zmax_divisions := 0 |}.
Proof.
  intros Hn; exists (np_full (Z.to_nat n) (Z.to_nat n) (Real 0)); split.
  - apply heatmap_grid_no_point; [reflexivity | lia | lia].
  - apply heatmap_barplot_zeros; lia.
Qed.

(** * Further properties *)

(** ** [normalize_points]: result, unit square, aspect ratio, idempotence *)


Section NormalizeMore.
Local Open Scope R_scope.

Lemma dominant_range_pos (pts : list (R * R)) :
  non_degenerate pts -> 0 < dominant_range pts.
Proof.
  intros Hnd; unfold non_degenerate, dominant_range in *.
  pose proof (min_of_le_max_of (map fst pts)).
  pose proof (min_of_le_max_of (map snd pts)).
  unfold Rmax; destruct (Rle_dec _ _); lra.
Qed.

Lemma non_degenerate_nonempty (pts : list (R * R)) : non_degenerate pts -> pts <> [].
Proof. intros Hnd ->; unfold non_degenerate in Hnd; simpl in Hnd; lra. Qed.

(** The rows of the result for a non-degenerate input. *)
Lemma normalize_points_rows (pts : list (R * R)) :
  non_degenerate pts ->
  normalize_points pts
  = Ok (map real_row
          (map (fun p =>
                  ((fst p - min_of (map fst pts)
                    - 0.5 * (max_of (map fst pts) - min_of (map fst pts)))
                   / dominant_range pts + 0.5,
                   (snd p - min_of (map snd pts)
                    - 0.5 * (max_of (map snd pts) - min_of (map snd pts)))
                   / dominant_range pts + 0.5)) pts)).
Proof.
  intros Hnd; pose proof (dominant_range_pos pts Hnd) as Hd.
  destruct pts as [|p t]; [now apply non_degenerate_nonempty in Hnd|].
  rewrite normalize_points_nonempty, map_map; f_equal.
  apply map_ext; intros q; unfold normalize_row, real_row; cbn [fst snd].
  fold (dominant_range (p :: t)); rewrite !f_div_real by lra; reflexivity.
Qed.

(** X1: [normalize_points] raises exactly on the empty sequence, with
    [ValueError]; on every other input it returns a sequence of the length of
    the input. *)
Theorem normalize_points_result (pts : list (R * R)) :
  (normalize_points pts = Raise ValueError <-> pts = []) /\
  (forall e, normalize_points pts = Raise e -> pts = []) /\
  (pts = [] \/
   exists out, normalize_points pts = Ok out /\ length out = length pts).
Proof.
  destruct pts as [|p t].
  - repeat split; auto.
  - rewrite normalize_points_nonempty.
    split; [split; discriminate|].
    split; [discriminate|].
    right; eexists; split; [reflexivity | now rewrite length_map].
Qed.

Lemma normalize_points_unit_rows (pts : list (R * R)) :
  non_degenerate pts ->
  exists out : list (R * R),
    normalize_points pts = Ok (map real_row out) /\
    length out = length pts /\
    Forall in_unit_square out.
Proof.
  intros Hnd; pose proof (dominant_range_pos pts Hnd) as Hd.
  rewrite normalize_points_rows by exact Hnd.
  eexists; split; [reflexivity|]; split; [now rewrite length_map|].
  apply Forall_map, Forall_forall; intros q Hq; apply list_elem_of_In in Hq.
  pose proof (min_of_le _ _ (in_map fst _ _ Hq)) as Hx1.
  pose proof (max_of_ge _ _ (in_map fst _ _ Hq)) as Hx2.
  pose proof (min_of_le _ _ (in_map snd _ _ Hq)) as Hy1.
  pose proof (max_of_ge _ _ (in_map snd _ _ Hq)) as Hy2.
  assert (HdX : max_of (map fst pts) - min_of (map fst pts) <= dominant_range pts)
    by apply Rmax_l.
  assert (HdY : max_of (map snd pts) - min_of (map snd pts) <= dominant_range pts)
    by apply Rmax_r.
  set (d := dominant_range pts) in *.
  assert (Hbound : forall u r, 0 <= u <= r -> r <= d ->
                   0 <= (u - 0.5 * r) / d + 0.5 <= 1).
  { intros u r Hu Hr.
    assert (H1 : -0.5 <= (u - 0.5 * r) / d).
    { apply Rmult_le_reg_r with d; [exact Hd|].
      unfold Rdiv; rewrite Rmult_assoc, Rinv_l by lra; lra. }
    assert (H2 : (u - 0.5 * r) / d <= 0.5).
    { apply Rmult_le_reg_r with d; [exact Hd|].
      unfold Rdiv; rewrite Rmult_assoc, Rinv_l by lra; lra. }
    lra. }
  unfold in_unit_square; cbn [fst snd]; split.
  - replace (fst q - min_of (map fst pts)
             - 0.5 * (max_of (map fst pts) - min_of (map fst pts)))
      with ((fst q - min_of (map fst pts))
            - 0.5 * (max_of (map fst pts) - min_of (map fst pts))) by ring.
    apply Hbound; lra.
  - replace (snd q - min_of (map snd pts)
             - 0.5 * (max_of (map snd pts) - min_of (map snd pts)))
      with ((snd q - min_of (map snd pts))
            - 0.5 * (max_of (map snd pts) - min_of (map snd pts))) by ring.
    apply Hbound; lra.
Qed.

(** X2: within the range of the floats ([float64_safe]) every output
    coordinate is a real number of [0, 1], on the dominant axis and on the
    other one. *)
Theorem normalize_points_in_unit_square (pts : list (R * R)) :
  float64_safe pts ->
  exists out : list (R * R),
    normalize_points pts = Ok (map real_row out) /\
    length out = length pts /\
    Forall in_unit_square out.
Proof.
  intros Hsafe.
  exact (normalize_points_unit_rows pts (float64_safe_ranges pts Hsafe)).
Qed.

Lemma normalize_points_in_unit_square_witness :
  exists out : list (R * R),
    normalize_points [(0, 0); (2, 1)] = Ok (map real_row out) /\
    Forall in_unit_square out.
Proof.
  destruct (normalize_points_in_unit_square [(0, 0); (2, 1)]
              float64_safe_two_points) as [out [H [_ HF]]].
  now exists out.
Defined.
Lemma lookup_map {T U : Type} (h : T -> U) (l : list T) (i : nat) :
  map h l !! i = option_map h (l !! i).
Proof.
  revert i; induction l as [|a l IH]; intros [|i]; simpl; try reflexivity.
  apply IH.
Qed.

(** X3: within the range of the floats ([float64_safe]) the aspect ratio
    is kept: both coordinates of the difference of two output points are the
    coordinates of the difference of the two input points divided by the
    same number, the dominant range. *)
Theorem normalize_points_aspect_ratio (pts : list (R * R)) :
  float64_safe pts ->
  exists out : list (R * R),
    normalize_points pts = Ok (map real_row out) /\
    forall (a b : nat) (pa pb qa qb : R * R),
      pts !! a = Some pa -> pts !! b = Some pb ->
      out !! a = Some qa -> out !! b = Some qb ->
      fst qa - fst qb = (fst pa - fst pb) / dominant_range pts /\
      snd qa - snd qb = (snd pa - snd pb) / dominant_range pts.
Proof.
  intros Hsafe; pose proof (float64_safe_ranges pts Hsafe) as Hnd.
  pose proof (dominant_range_pos pts Hnd) as Hd.
  rewrite normalize_points_rows by exact Hnd.
  eexists; split; [reflexivity|].
  intros a b pa pb qa qb Ha Hb Hqa Hqb.
  rewrite lookup_map in Hqa, Hqb; rewrite Ha in Hqa; rewrite Hb in Hqb.
  injection Hqa as <-; injection Hqb as <-; cbn [fst snd].
  split; field; lra.
Qed.

Lemma normalize_points_aspect_ratio_witness :
  exists out : list (R * R),
    normalize_points [(0, 0); (2, 1)] = Ok (map real_row out) /\
    forall qa qb : R * R,
      out !! 0%nat = Some qa -> out !! 1%nat = Some qb ->
      fst qa - fst qb = (0 - 2) / dominant_range [(0, 0); (2, 1)] /\
      snd qa - snd qb = (0 - 1) / dominant_range [(0, 0); (2, 1)].
Proof.
  destruct (normalize_points_aspect_ratio [(0, 0); (2, 1)]
              float64_safe_two_points) as [out [H Hd]].
  exists out; split; [exact H|].
  intros qa qb Ha Hb.
  exact (Hd 0%nat 1%nat (0, 0) (2, 1) qa qb eq_refl eq_refl Ha Hb).
Defined.


End NormalizeMore.

(** ** [heatmap_grid]: when it returns, what it reads, how it fails *)

Section HeatmapGridMore.
Local Open Scope R_scope.

Lemma for_each_ext_in {T S : Type} (l : list T) (body body' : T -> S -> result S)
  (s : S) :
  (forall a s', In a l -> body a s' = body' a s') ->
  for_each l body s = for_each l body' s.
Proof.
  revert s; induction l as [|a l IH]; intros s H; simpl; [reflexivity|].
  rewrite (H a s) by now left.
  destruct (body' a s) as [e|s']; simpl; [reflexivity|].
  apply IH; intros a' s'' Ha'; apply H; now right.
Qed.

(** X5: [heatmap_grid] returns a grid only if [n] is 0 or at least 2, the
    module-level [points] is no longer than [data], and each of the first
    [len(points)] points of [data] has two real coordinates whose indices
    resolve on an axis of length [n]; the grid then has [n] rows of [n]
    cells. *)
Theorem heatmap_grid_returns_only_if (g : globals) (data : list point)
  (sigma_sq : R) (n m : Z) (grid : ndarray float64) :
  heatmap_grid g data sigma_sq n m = Ok grid ->
  (0 <= n)%Z /\ n <> 1%Z /\
  (length (points g) <= length data)%nat /\
  bucketable n (take (length (points g)) data) /\
  Forall (fun p => exists q, p = real_row q) (take (length (points g)) data) /\
  has_shape (Z.to_nat n) (Z.to_nat n) grid.
Proof.
  intros E; unfold heatmap_grid in E.
  destruct (fill_buckets g data n) as [e|X] eqn:EX; simpl in E; [discriminate|].
  destruct (fill_buckets_inv n g data X EX) as [Hn [Hk [HD HX]]].
  assert (Hn1 : n <> 1%Z).
  { intros ->; rewrite sum_kernels_one in E; discriminate. }
  destruct (sum_kernels_total X sigma_sq n m (proj1 HX) Hn Hn1) as [G [EG [HsG _]]].
  rewrite EG in E; injection E as <-.
  split; [exact Hn|]; split; [exact Hn1|]; split; [exact Hk|].
  split; [exact HD|]; split; [|exact HsG].
  eapply Forall_impl; [exact HD|].
  intros p [ij Hij]; now apply bucket_of_real with n ij.
Qed.

Lemma heatmap_grid_returns_only_if_witness :
  exists grid : ndarray float64,
    heatmap_grid {| points := [(0, 0)] |} [(Real 0, Real 0)] 1 2 1 = Ok grid /\
    has_shape 2 2 grid.
Proof.
  destruct (single_point_grid {| points := [(0, 0)] |} eq_refl) as [grid [E _]].
  exists grid; split; [exact E|].
  apply (heatmap_grid_returns_only_if {| points := [(0, 0)] |}
           [(Real 0, Real 0)] 1 2 1 grid E).
Defined.

(** X6: the points of [data] beyond the first [len(points)] are never read:
    appending points to [data] changes neither the grid nor the exception. *)
Theorem heatmap_grid_ignores_tail (g : globals) (data extra : list point)
  (sigma_sq : R) (n m : Z) :
  (length (points g) <= length data)%nat ->
  heatmap_grid g (data ++ extra) sigma_sq n m = heatmap_grid g data sigma_sq n m.
Proof.
  intros Hk; unfold heatmap_grid, fill_buckets; f_equal.
  destruct (np_alloc n None) as [e|X0]; simpl; [reflexivity|].
  apply for_each_ext_in; intros idx X Hidx.
  apply in_seq in Hidx; unfold bucket_step.
  now rewrite lookup_app_l by lia.
Qed.

Lemma heatmap_grid_ignores_tail_witness :
  heatmap_grid {| points := [(0, 0)] |}
    ([(Real 0, Real 0)] ++ [(Real 1, Real 1); (NaN, NaN)]) 1 2 1
  = heatmap_grid {| points := [(0, 0)] |} [(Real 0, Real 0)] 1 2 1.
Proof.
  apply (heatmap_grid_ignores_tail {| points := [(0, 0)] |} [(Real 0, Real 0)]).
  simpl; lia.
Defined.
(** The first point that does not resolve to a cell decides the exception. *)
Lemma fill_buckets_first_failure (g : globals) (data : list point) (n : Z)
  (k : nat) (p : point) (e : exn) :
  (0 <= n)%Z -> (k < length (points g))%nat ->
  data !! k = Some p -> bucketable n (take k data) ->
  bucket_of n p = Raise e ->
  fill_buckets g data n = Raise e.
Proof.
  intros Hn Hk Hp Hb Ep; unfold fill_buckets.
  assert (E0 : np_alloc n None (A := option (list point))
               = Ok (np_full (Z.to_nat n) (Z.to_nat n) None)).
  { unfold np_alloc; apply Z.ltb_ge in Hn; now rewrite Hn. }
  rewrite E0; cbn [bind Ok].
  replace (length (points g)) with (k + S (length (points g) - S k))%nat by lia.
  rewrite seq_app, for_each_app; cbn [seq Nat.add].
  pose proof (fill_loop_spec n data k _ (buckets_of_alloc n _ E0)) as L.
  destruct (for_each (seq 0 k) (bucket_step data n)
              (np_full (Z.to_nat n) (Z.to_nat n) None)) as [e'|X].
  - exfalso; apply L; split; [|exact Hb].
    apply lookup_lt_Some in Hp; lia.
  - cbn [bind for_each].
    rewrite (bucket_step_eq n) by exact (proj1 (proj2 (proj2 L))).
    rewrite Hp; cbn [bind Ok]; rewrite Ep; reflexivity.
Qed.

Lemma bucket_of_nan_x (n : Z) (y : float64) : bucket_of n (NaN, y) = Raise ValueError.
Proof. reflexivity. Qed.

Lemma bucket_of_nan_y (n : Z) (x : R) : bucket_of n (Real x, NaN) = Raise ValueError.
Proof. reflexivity. Qed.

Lemma bucket_of_inf_x (n : Z) (x y : float64) :
  (2 <= n)%Z -> x = PosInf \/ x = NegInf -> bucket_of n (x, y) = Raise OverflowError.
Proof.
  intros Hn Hx; assert (H1 : 0 < IZR (n - 1)) by (apply IZR_lt; lia).
  unfold bucket_of; cbn [fst snd].
  destruct Hx as [-> | ->]; cbn [f_mul]; unfold inf_times;
    destruct (Rlt_dec 0 (IZR (n - 1))); try reflexivity; contradiction.
Qed.

Lemma bucket_of_beyond (n : Z) (x y : R) :
  (2 <= n)%Z -> IZR n <= x * IZR (n - 1) ->
  bucket_of n (Real x, Real y) = Raise IndexError.
Proof.
  intros Hn Hx; unfold bucket_of; cbn [fst snd f_mul py_int bind Ok].
  assert (H0 : 0 <= IZR n) by (apply IZR_le; lia).
  rewrite (Rtrunc_nonneg (x * IZR (n - 1))) by lra.
  assert (Hi : (n <= Zfloor (x * IZR (n - 1)))%Z) by now apply Zfloor_lub.
  unfold py_index at 1.
  destruct (0 <=? Zfloor (x * IZR (n - 1)))%Z eqn:E1;
    [|apply Z.leb_gt in E1; lia].
  destruct (Zfloor (x * IZR (n - 1)) <? Z.of_nat (Z.to_nat n))%Z eqn:E2;
    [apply Z.ltb_lt in E2; lia|].
  destruct (Zfloor (x * IZR (n - 1)) <? 0)%Z eqn:E3;
    [apply Z.ltb_lt in E3; lia|].
  rewrite !andb_false_r; reflexivity.
Qed.

(** X7: how [heatmap_grid] fails at the first point it cannot bucket, after
    points of the unit square, for [n >= 2]: a [NaN] coordinate raises
    [ValueError], an infinite first coordinate raises [OverflowError], and a
    real point with [x*(n-1) >= n] raises [IndexError]. The products of the
    real coordinates are within the range of the floats: beyond it the
    product is an infinity, and [int] raises [OverflowError]. *)
Theorem heatmap_grid_bad_point (g : globals) (pts : list (R * R)) (p : point)
  (rest : list point) (sigma_sq : R) (n m : Z) :
  Forall in_unit_square pts -> (2 <= n)%Z ->
  (length pts < length (points g))%nat ->
  let data := map real_row pts ++ p :: rest in
  (fst p = NaN -> heatmap_grid g data sigma_sq n m = Raise ValueError) /\
  (forall x, p = (Real x, NaN) -> float64_finite (x * IZR (n - 1)) ->
     heatmap_grid g data sigma_sq n m = Raise ValueError) /\
  (fst p = PosInf \/ fst p = NegInf ->
     heatmap_grid g data sigma_sq n m = Raise OverflowError) /\
  (forall x y, p = (Real x, Real y) ->
     float64_finite (x * IZR (n - 1)) -> float64_finite (y * IZR (n - 1)) ->
     IZR n <= x * IZR (n - 1) ->
     heatmap_grid g data sigma_sq n m = Raise IndexError).
Proof.
  intros Hpts Hn Hk data.
  assert (Hp : data !! length pts = Some p).
  { unfold data; rewrite lookup_app_r by (rewrite length_map; lia).
    now rewrite length_map, Nat.sub_diag. }
  assert (Hb : bucketable n (take (length pts) data)).
  { unfold data; rewrite take_app_le by (rewrite length_map; lia).
    rewrite take_ge by (rewrite length_map; lia).
    now apply bucketable_unit_square. }
  assert (F : forall e, bucket_of n p = Raise e ->
                        heatmap_grid g data sigma_sq n m = Raise e).
  { intros e Ee; unfold heatmap_grid.
    rewrite (fill_buckets_first_failure g data n (length pts) p e)
      by (assumption || lia).
    reflexivity. }
  split; [|split; [|split]].
  - intros Ex; apply F; destruct p as [x y]; simpl in Ex; subst x.
    apply bucket_of_nan_x.
  - intros x -> _; apply F, bucket_of_nan_y.
  - intros Ex; apply F; destruct p as [x y]; now apply bucket_of_inf_x.
  - intros x y -> _ _ Hx; apply F; now apply bucket_of_beyond.
Qed.

Lemma float64_finite_small (r : R) : -8 <= r <= 8 -> float64_finite r.
Proof. unfold float64_finite; lra. Qed.

Lemma heatmap_grid_bad_point_witness :
  heatmap_grid {| points := [(0, 0); (0, 0)] |}
    (map real_row [(0, 0)] ++ [(Real 3, Real 0)]) 1 2 1 = Raise IndexError /\
  heatmap_grid {| points := [(0, 0); (0, 0)] |}
    (map real_row [(0, 0)] ++ [(NaN, NaN)]) 1 2 1 = Raise ValueError.
Proof.
  split.
  - apply (heatmap_grid_bad_point {| points := [(0, 0); (0, 0)] |} [(0, 0)]
             (Real 3, Real 0) [] 1 2 1 in_unit_square_origin ltac:(lia)
             ltac:(simpl; lia)) with (x := 3) (y := 0);
      [reflexivity | | | ]; change (2 - 1)%Z with 1%Z;
      try apply float64_finite_small; lra.
  - apply (heatmap_grid_bad_point {| points := [(0, 0); (0, 0)] |} [(0, 0)]
             (NaN, NaN) [] 1 2 1 in_unit_square_origin ltac:(lia)
             ltac:(simpl; lia)); reflexivity.
Defined.
Lemma bucket_of_just_below_zero (n : Z) (x y : R) :
  (2 <= n)%Z -> 0 <= y <= 1 -> -1 < x * IZR (n - 1) < 0 ->
  bucket_of n (Real x, Real y)
  = Ok (0%nat, Z.to_nat (Zfloor (y * IZR (n - 1)))).
Proof.
  intros Hn Hy Hx; unfold bucket_of; cbn [fst snd f_mul py_int bind Ok].
  assert (H1 : 1 <= IZR (n - 1)) by (apply IZR_le; lia).
  pose proof (bucket_index_bounds y n Hy Hn) as By.
  rewrite (Rtrunc_nonneg (y * IZR (n - 1))) by nra.
  assert (Et : Rtrunc (x * IZR (n - 1)) = 0%Z).
  { unfold Rtrunc; destruct (Rle_dec 0 (x * IZR (n - 1))); [lra|].
    apply Zceil_eq; simpl; lra. }
  rewrite Et, !py_index_in_range by lia; reflexivity.
Qed.

Lemma bucket_of_wraps (n : Z) (x y : R) :
  (2 <= n)%Z -> 0 <= y <= 1 -> - IZR n - 1 < x * IZR (n - 1) <= -1 ->
  bucket_of n (Real x, Real y)
  = Ok (Z.to_nat (n + Zceil (x * IZR (n - 1))),
        Z.to_nat (Zfloor (y * IZR (n - 1)))) /\
  (0 <= n + Zceil (x * IZR (n - 1)) < n)%Z.
Proof.
  intros Hn Hy Hx.
  assert (H1 : 1 <= IZR (n - 1)) by (apply IZR_le; lia).
  pose proof (bucket_index_bounds y n Hy Hn) as By.
  pose proof (Zceil_bound (x * IZR (n - 1))) as Hc.
  set (c := Zceil (x * IZR (n - 1))) in *.
  assert (Hc1 : (c <= -1)%Z).
  { assert (IZR c < IZR 0) by (simpl; lra). apply lt_IZR in H; lia. }
  assert (Hc2 : (- n <= c)%Z).
  { assert (IZR (- n - 1) < IZR c) by (rewrite minus_IZR, opp_IZR; simpl; lra).
    apply lt_IZR in H; lia. }
  split; [|lia].
  unfold bucket_of; cbn [fst snd f_mul py_int bind Ok].
  rewrite (Rtrunc_nonneg (y * IZR (n - 1))) by nra.
  assert (Et : Rtrunc (x * IZR (n - 1)) = c).
  { unfold Rtrunc; destruct (Rle_dec 0 (x * IZR (n - 1))); [lra | reflexivity]. }
  rewrite Et.
  assert (Ei : py_index (Z.to_nat n) c = Ok (Z.to_nat (n + c))).
  { unfold py_index.
    destruct (0 <=? c)%Z eqn:E1; [apply Z.leb_le in E1; lia|].
    cbn [andb].
    destruct (- Z.of_nat (Z.to_nat n) <=? c)%Z eqn:E2; [|apply Z.leb_gt in E2; lia].
    destruct (c <? 0)%Z eqn:E3; [|apply Z.ltb_ge in E3; lia].
    cbn [andb]; do 2 f_equal; lia. }
  rewrite Ei; cbn [bind Ok]; rewrite py_index_in_range by lia; reflexivity.
Qed.

Lemma in_cell_points (n : Z) (D : list point) (X : buckets) (p : point) (i j : nat) :
  buckets_of n D X -> In p D -> bucket_of n p = Ok (i, j) ->
  In p (cell_points X i j).
Proof.
  intros HX Hp Eb; destruct (bucket_of_lt n p i j Eb) as [Hi Hj].
  rewrite (proj2 HX) by assumption.
  apply filter_In; split; [exact Hp|].
  now apply (in_bucket_true n p i j i j Eb).
Qed.

(** X8: negative coordinates are bucketed, not rejected. A bucketed real
    point with [x*(n-1)] in (-1, 0) is stored in row 0, since [int] truncates
    toward zero; with [x*(n-1)] in (-n-1, -1] it is stored in row
    [n + ceil(x*(n-1))], the negative index counting from the last row. The
    products of the point round to floats with the same integer part
    ([bucket_stable]). *)
Theorem heatmap_grid_negative_coordinates (g : globals) (data : list point)
  (n : Z) (X : buckets) (x y : R) :
  fill_buckets g data n = Ok X -> (2 <= n)%Z ->
  In (Real x, Real y) (take (length (points g)) data) ->
  0 <= y <= 1 -> bucket_stable n (x, y) ->
  (-1 < x * IZR (n - 1) < 0 ->
   In (Real x, Real y)
      (cell_points X 0 (Z.to_nat (Zfloor (y * IZR (n - 1)))))) /\
  (- IZR n - 1 < x * IZR (n - 1) <= -1 ->
   (0 <= n + Zceil (x * IZR (n - 1)) < n)%Z /\
   In (Real x, Real y)
      (cell_points X (Z.to_nat (n + Zceil (x * IZR (n - 1))))
                     (Z.to_nat (Zfloor (y * IZR (n - 1)))))).
Proof.
  intros EX Hn Hp Hy _.
  destruct (fill_buckets_inv n g data X EX) as [_ [_ [_ HX]]].
  split; intros Hx.
  - apply (in_cell_points n _ X _ _ _ HX Hp).
    now apply bucket_of_just_below_zero.
  - destruct (bucket_of_wraps n x y Hn Hy Hx) as [Eb Hr].
    split; [exact Hr|].
    now apply (in_cell_points n _ X _ _ _ HX Hp).
Qed.

Lemma heatmap_grid_negative_coordinates_witness :
  exists X : buckets,
    fill_buckets {| points := [(0, 0)] |} [(Real (-1), Real 0)] 2 = Ok X /\
    In (Real (-1), Real 0)
       (cell_points X (Z.to_nat (2 + Zceil (-1 * IZR (2 - 1))))
                      (Z.to_nat (Zfloor (0 * IZR (2 - 1))))).
Proof.
  assert (Hx : - IZR 2 - 1 < -1 * IZR (2 - 1) <= -1)
    by (change (2 - 1)%Z with 1%Z; lra).
  assert (Hy : 0 <= 0 <= 1) by lra.
  assert (Hst : bucket_stable 2 (-1, 0)).
  { split; cbn [fst snd].
    - replace (-1 * IZR (2 - 1)) with (IZR (-1))
        by (change (2 - 1)%Z with 1%Z; lra).
      apply trunc_stable_IZR; lra.
    - replace (0 * IZR (2 - 1)) with (IZR 0)
        by (change (2 - 1)%Z with 1%Z; lra).
      apply trunc_stable_IZR; lra. }
  destruct (fill_buckets_total 2 {| points := [(0, 0)] |} [(Real (-1), Real 0)])
    as [X [EX _]].
  - lia.
  - simpl; lia.
  - apply Forall_singleton; eexists.
    exact (proj1 (bucket_of_wraps 2 (-1) 0 ltac:(lia) Hy Hx)).
  - exists X; split; [exact EX|].
    apply (heatmap_grid_negative_coordinates {| points := [(0, 0)] |}
             [(Real (-1), Real 0)] 2 X (-1) 0 EX ltac:(lia)
             ltac:(now left) Hy Hst); exact Hx.
Defined.
Lemma py_range_empty (a b : Z) : (b <= a)%Z -> py_range a b = [].
Proof. intros H; unfold py_range; now replace (Z.to_nat (b - a)) with 0%nat by lia. Qed.

Lemma window_points_halfwidth_0 (X : buckets) (n m i0 j0 : Z) :
  (m <= 0)%Z -> window_points X n m i0 j0 = [].
Proof.
  intros Hm; unfold window_points.
  now rewrite (py_range_empty (Z.max 0 (i0 - m)) (Z.min (i0 + m) n)) by lia.
Qed.

(** X9: with a half-width [m <= 0] the window [range(i0 - m, i0 + m)] is
    empty: whatever the points, a returned grid is [np.zeros((n, n))]. *)
Theorem heatmap_grid_zero_halfwidth (g : globals) (data : list point)
  (sigma_sq : R) (n m : Z) (grid : ndarray float64) :
  (m <= 0)%Z ->
  heatmap_grid g data sigma_sq n m = Ok grid ->
  grid = np_full (Z.to_nat n) (Z.to_nat n) (Real 0).
Proof.
  intros Hm E; unfold heatmap_grid in E.
  destruct (fill_buckets g data n) as [e|X] eqn:EX; simpl in E; [discriminate|].
  destruct (fill_buckets_inv n g data X EX) as [Hn [_ [_ HX]]].
  destruct (Z.eq_dec n 1%Z) as [->|Hn1].
  { rewrite sum_kernels_one in E; discriminate. }
  destruct (sum_kernels_total X sigma_sq n m (proj1 HX) Hn Hn1) as [G [EG [HsG HG]]].
  rewrite EG in E; injection E as <-.
  apply (nd_ext (Z.to_nat n) (Z.to_nat n)); [exact HsG | apply has_shape_full|].
  intros i j Hi Hj; rewrite nd_cell_full by assumption.
  specialize (HG (Z.of_nat i) (Z.of_nat j) ltac:(lia) ltac:(lia)).
  rewrite !Nat2Z.id in HG; rewrite HG.
  unfold cell_value; now rewrite window_points_halfwidth_0.
Qed.

Lemma heatmap_grid_zero_halfwidth_witness :
  heatmap_grid {| points := [(0, 0)] |} [(Real 0, Real 0)] 1 2 0
  = Ok (np_full 2 2 (Real 0)).
Proof.
  destruct (heatmap_grid_unit_square {| points := [(0, 0)] |} [(0, 0)] 1 2 0
              in_unit_square_origin ltac:(lia) ltac:(lra) ltac:(simpl; lia))
    as [X [grid [_ [E _]]]].
  change (map real_row [(0, 0)]) with [(Real 0, Real 0)] in E.
  rewrite E; f_equal.
  exact (heatmap_grid_zero_halfwidth {| points := [(0, 0)] |} [(Real 0, Real 0)]
           1 2 0 grid ltac:(lia) E).
Defined.

Lemma gauss_le_1 (sigma_sq x0 y0 : R) (q : R * R) :
  0 < sigma_sq -> 0 < gauss sigma_sq x0 y0 q <= 1.
Proof.
  intros Hs; unfold gauss; split; [apply exp_pos|].
  rewrite <- exp_0; apply exp_le.
  set (a := (x0 - fst q) * (x0 - fst q)); set (b := (y0 - snd q) * (y0 - snd q)).
  assert (Ha : 0 <= a) by exact (Rle_0_sqr _).
  assert (Hb : 0 <= b) by exact (Rle_0_sqr _).
  assert (Hp : 0 < / (2 * sigma_sq)) by (apply Rinv_0_lt_compat; lra).
  unfold Rdiv; nra.
Qed.

Lemma Rsum_gauss_le_length (sigma_sq x0 y0 : R) (qs : list (R * R)) :
  0 < sigma_sq -> Rsum (map (gauss sigma_sq x0 y0) qs) <= INR (length qs).
Proof.
  intros Hs; induction qs as [|q qs IH]; [simpl; lra|].
  cbn [map length]; rewrite S_INR; unfold Rsum in *; cbn [fold_right].
  pose proof (gauss_le_1 sigma_sq x0 y0 q Hs); lra.
Qed.

(** X10: for points of the unit square, [n >= 2] and [sigma_sq > 0] (the
    module-level [points] having the length of the argument), every cell of
    the grid lies between 0 and the number of points. *)
Theorem heatmap_grid_cell_bounds (g : globals) (pts : list (R * R))
  (sigma_sq : R) (n m : Z) :
  Forall in_unit_square pts -> (2 <= n)%Z -> 0 < sigma_sq ->
  length (points g) = length pts ->
  exists grid : ndarray float64,
    heatmap_grid g (map real_row pts) sigma_sq n m = Ok grid /\
    forall i0 j0, (0 <= i0 < n)%Z -> (0 <= j0 < n)%Z ->
      exists r : R,
        nd_cell grid (Z.to_nat i0) (Z.to_nat j0) = Some (Real r) /\
        0 <= r <= INR (length pts).
Proof.
  intros Hpts Hn Hs Hlen.
  destruct (heatmap_grid_unit_square g pts sigma_sq n m Hpts Hn) as [X [grid H]];
    [lra | lia |].
  rewrite Hlen, firstn_all in H; destruct H as [_ [E [_ H]]].
  exists grid; split; [exact E|].
  intros i0 j0 Hi0 Hj0; eexists; split; [exact (proj2 (H i0 j0 Hi0 Hj0))|].
  unfold window_sum; split; [apply Rsum_gauss_nonneg|].
  eapply Rle_trans; [now apply Rsum_gauss_le_length|].
  apply le_INR; unfold window_of; apply filter_length_le.
Qed.

Lemma heatmap_grid_cell_bounds_witness :
  exists (grid : ndarray float64) (r : R),
    heatmap_grid {| points := [(0, 0)] |} (map real_row [(0, 0)]) 1 2 1 = Ok grid /\
    nd_cell grid 0 1 = Some (Real r) /\ 0 <= r <= 1.
Proof.
  destruct (heatmap_grid_cell_bounds {| points := [(0, 0)] |} [(0, 0)] 1 2 1
              in_unit_square_origin ltac:(lia) ltac:(lra) eq_refl) as [grid [E H]].
  destruct (H 0%Z 1%Z ltac:(lia) ltac:(lia)) as [r [Hc Hr]].
  exists grid, r; repeat split; try assumption; simpl in Hr; lra.
Defined.

Lemma window_sum_app (sigma_sq : R) (n m i0 j0 : Z) (pts more : list (R * R)) :
  window_sum sigma_sq n m i0 j0 (pts ++ more)
  = window_sum sigma_sq n m i0 j0 pts + window_sum sigma_sq n m i0 j0 more.
Proof.
  unfold window_sum, window_of; now rewrite List.filter_app, map_app, Rsum_app.
Qed.

(** X11: adding points never lowers a cell. For points of the unit square,
    [n >= 2] and [sigma_sq] other than zero, the grid of a sequence extended
    by further points is, cell by cell, at least the grid of the sequence
    (the module-level [points] having each time the length of the argument). *)
Theorem heatmap_grid_more_points (g g' : globals) (pts more : list (R * R))
  (sigma_sq : R) (n m : Z) :
  Forall in_unit_square pts -> Forall in_unit_square more ->
  (2 <= n)%Z -> sigma_sq <> 0 ->
  length (points g) = length pts ->
  length (points g') = length (pts ++ more) ->
  exists grid grid' : ndarray float64,
    heatmap_grid g (map real_row pts) sigma_sq n m = Ok grid /\
    heatmap_grid g' (map real_row (pts ++ more)) sigma_sq n m = Ok grid' /\
    forall i0 j0, (0 <= i0 < n)%Z -> (0 <= j0 < n)%Z ->
      exists r r' : R,
        nd_cell grid (Z.to_nat i0) (Z.to_nat j0) = Some (Real r) /\
        nd_cell grid' (Z.to_nat i0) (Z.to_nat j0) = Some (Real r') /\
        r <= r'.
Proof.
  intros Hpts Hmore Hn Hs Hlen Hlen'.
  destruct (heatmap_grid_unit_square g pts sigma_sq n m Hpts Hn Hs) as [X [grid H]];
    [lia|].
  destruct (heatmap_grid_unit_square g' (pts ++ more) sigma_sq n m) as [X' [grid' H']];
    [apply Forall_app; now split | exact Hn | exact Hs | lia |].
  rewrite Hlen, firstn_all in H; rewrite Hlen', firstn_all in H'.
  destruct H as [_ [E [_ H]]]; destruct H' as [_ [E' [_ H']]].
  exists grid, grid'; split; [exact E | split; [exact E'|]].
  intros i0 j0 Hi0 Hj0; do 2 eexists.
  split; [exact (proj2 (H i0 j0 Hi0 Hj0))|].
  split; [exact (proj2 (H' i0 j0 Hi0 Hj0))|].
  rewrite window_sum_app.
  pose proof (Rsum_gauss_nonneg sigma_sq (IZR i0 / IZR (n - 1)) (IZR j0 / IZR (n - 1))
                (window_of n m i0 j0 more)) as Hnn.
  unfold window_sum at 3; lra.
Qed.

Lemma heatmap_grid_more_points_witness :
  exists (grid grid' : ndarray float64) (r r' : R),
    heatmap_grid {| points := [] |} (map real_row []) 1 2 1 = Ok grid /\
    heatmap_grid {| points := [(0, 0)] |} (map real_row ([] ++ [(0, 0)])) 1 2 1
      = Ok grid' /\
    nd_cell grid 0 0 = Some (Real r) /\
    nd_cell grid' 0 0 = Some (Real r') /\
    r <= r'.
Proof.
  destruct (heatmap_grid_more_points {| points := [] |} {| points := [(0, 0)] |}
              [] [(0, 0)] 1 2 1 (Forall_nil_2 _) in_unit_square_origin
              ltac:(lia) ltac:(lra) eq_refl eq_refl) as [grid [grid' [E [E' H]]]].
  destruct (H 0%Z 0%Z ltac:(lia) ltac:(lia)) as [r [r' [Hc [Hc' Hr]]]].
  now exists grid, grid', r, r'.
Defined.
End HeatmapGridMore.

(** ** [heatmap_barplot] on a grid of reals *)

Section Barplot.
Local Open Scope R_scope.

Lemma for_each_map {T U S : Type} (h : T -> U) (l : list T)
  (body : U -> S -> result S) (s : S) :
  for_each (map h l) body s = for_each l (fun a => body (h a)) s.
Proof.
  revert s; induction l as [|a l IH]; intros s; simpl; [reflexivity|].
  destruct (body (h a) s); simpl; [reflexivity | apply IH].
Qed.

(** Two nested loops are one loop over the pairs, row by row. *)
Lemma for_each_nested {T U S : Type} (l1 : list T) (l2 : list U)
  (body : T -> U -> S -> result S) (s : S) :
  for_each l1 (fun a s => for_each l2 (fun b s => body a b s) s) s
  = for_each (list_prod l1 l2) (fun ab s => body (fst ab) (snd ab) s) s.
Proof.
  revert s; induction l1 as [|a l1 IH]; intros s; simpl; [reflexivity|].
  rewrite for_each_app, for_each_map; cbn [fst snd].
  destruct (for_each l2 (fun b s => body a b s) s); simpl; [reflexivity | apply IH].
Qed.

Lemma f_max2_real (a b : R) : f_max2 (Real a) (Real b) = Real (Rmax a b).
Proof.
  unfold f_max2, f_gt, Rmax.
  destruct (Rlt_dec a b), (Rle_dec a b); try reflexivity; try (exfalso; lra).
  f_equal; lra.
Qed.

Lemma np_max_real (l : list R) :
  l <> [] -> np_max (map Real l) = Ok (Real (max_of l)).
Proof.
  destruct l as [|a t]; [congruence|]; intros _.
  cbn [map np_max max_of]; f_equal.
  revert a; induction t as [|b t IH]; intros a; cbn [map fold_left]; [reflexivity|].
  now rewrite f_max2_real, IH.
Qed.

Lemma concat_map_map {T U : Type} (h : T -> U) (a : ndarray T) :
  concat (map (map h) a) = map h (concat a).
Proof.
  induction a as [|row a IH]; simpl; [reflexivity | now rewrite map_app, IH].
Qed.

Lemma has_shape_map {T U : Type} (h : T -> U) (rows cols : nat) (a : ndarray T) :
  has_shape rows cols a -> has_shape rows cols (map (map h) a).
Proof.
  intros [Hl HF]; split; [now rewrite length_map|].
  apply Forall_map; eapply Forall_impl; [exact HF|].
  intros row Hrow; simpl; now rewrite length_map.
Qed.

Lemma nd_cell_map {T U : Type} (h : T -> U) (a : ndarray T) (i j : nat) :
  nd_cell (map (map h) a) i j = option_map h (nd_cell a i j).
Proof.
  unfold nd_cell; rewrite lookup_map.
  destruct (a !! i) as [row|]; simpl; [apply lookup_map | reflexivity].
Qed.

Lemma nd_cell_in_concat {T : Type} (a : ndarray T) (i j : nat) (v : T) :
  nd_cell a i j = Some v -> In v (concat a).
Proof.
  unfold nd_cell; destruct (a !! i) as [row|] eqn:Er; [|discriminate].
  intros Hv; apply in_concat; exists row; split.
  - apply list_elem_of_In, list_elem_of_lookup; now exists i.
  - apply list_elem_of_In, list_elem_of_lookup; now exists j.
Qed.

Lemma log_grid_real (logarithmic : bool) (rgrid : ndarray R) :
  Forall (Forall (fun r => 0 <= r)) rgrid ->
  (if logarithmic
   then map (map (fun v => f_log (f_add v (Real 1)))) (map (map Real) rgrid)
   else map (map Real) rgrid)
  = map (map Real) (log_grid logarithmic rgrid).
Proof.
  intros Hnn; destruct logarithmic; [|reflexivity].
  unfold log_grid; rewrite !map_map.
  apply map_ext_in; intros row Hrow; rewrite !map_map.
  apply map_ext_in; intros r Hr.
  rewrite Forall_forall in Hnn; apply list_elem_of_In in Hrow.
  specialize (Hnn row Hrow); rewrite Forall_forall in Hnn.
  apply list_elem_of_In in Hr; specialize (Hnn r Hr).
  cbn [f_add f_log]; destruct (Rlt_dec 0 (r + 1)); [reflexivity | exfalso; lra].
Qed.

Lemma has_shape_log_grid (logarithmic : bool) (rows cols : nat) (rgrid : ndarray R) :
  has_shape rows cols rgrid -> has_shape rows cols (log_grid logarithmic rgrid).
Proof. destruct logarithmic; [apply has_shape_map | auto]. Qed.
Lemma color_index_bounds (num_colors : Z) (r mx : R) :
  (1 <= num_colors)%Z -> 0 < r -> 0 < mx ->
  (0 <= color_index num_colors r mx < num_colors)%Z /\
  color_index num_colors r mx
  = Zfloor (IZR num_colors * (1 - exp (- (r / mx) / 0.2))).
Proof.
  intros HN Hr Hmx; unfold color_index.
  set (t := 1 - exp (- (r / mx) / 0.2)).
  assert (Hq : 0 < r / mx) by now apply Rdiv_lt_0_compat.
  assert (He : exp (- (r / mx) / 0.2) < 1).
  { rewrite <- exp_0; apply exp_increasing.
    assert (0 < / 0.2) by (apply Rinv_0_lt_compat; lra).
    unfold Rdiv in *; nra. }
  pose proof (exp_pos (- (r / mx) / 0.2)) as Hp.
  assert (Ht : 0 < t < 1) by (unfold t; lra).
  assert (HNr : 1 <= IZR num_colors) by (apply IZR_le; lia).
  rewrite Rtrunc_nonneg by nra.
  assert (H0 : (0 <= Zfloor (IZR num_colors * t))%Z)
    by (apply Zfloor_lub; simpl; nra).
  assert (H1 : (Zfloor (IZR num_colors * t) < num_colors)%Z).
  { apply lt_IZR; pose proof (Zfloor_bound (IZR num_colors * t)); nra. }
  split; lia.
Qed.

Lemma add_bar_real (h width bar_width : R) (num_colors : Z) (x y r mx : R)
  (s : barplot_state) :
  (1 <= num_colors)%Z -> 0 < r -> 0 < mx ->
  length (bmList s) = Z.to_nat num_colors ->
  exists bm,
    bmList s !! Z.to_nat (color_index num_colors r mx) = Some bm /\
    add_bar h width bar_width num_colors x y (Real r) (Real mx) s
    = Ok {| bmList :=
              <[Z.to_nat (color_index num_colors r mx) :=
                  bm ++ [ {| cube_size := bar_width;
                             cube_tx := width * (x - 0.5);
                             cube_ty := width * (y - 0.5);
                             cube_tz := Real (bar_height h bar_width r mx / 2);
                             cube_scale :=
                               f_div (Real (bar_height h bar_width r mx))
                                     (Real bar_width) |} ]]> (bmList s);
            zmax_divisions := 2 + zmax_divisions s |}.
Proof.
  intros HN Hr Hmx Hlen.
  destruct (color_index_bounds num_colors r mx HN Hr Hmx) as [Hk _].
  destruct (lookup_lt_is_Some_2 (bmList s) (Z.to_nat (color_index num_colors r mx)))
    as [bm Ebm]; [lia|].
  exists bm; split; [exact Ebm|].
  unfold add_bar; cbn [f_mul].
  rewrite !(f_div_real _ mx) by lra.
  cbn [f_neg f_add].
  rewrite (f_div_real _ 0.2), (f_div_real _ 2) by lra.
  unfold f_sub; cbn [f_exp f_neg f_add f_mul py_int bind Ok].
  fold (color_index num_colors r mx).
  replace (1 + - exp (- (r / mx) / 0.2)) with (1 - exp (- (r / mx) / 0.2)) by ring.
  fold (color_index num_colors r mx).
  rewrite py_index_in_range by lia.
  cbn [bind Ok]; rewrite Ebm; reflexivity.
Qed.
Lemma length_concat_insert_snoc {T : Type} (l : list (list T)) (k : nat)
  (bm : list T) (c : T) :
  l !! k = Some bm ->
  length (concat (<[k := bm ++ [c]]> l)) = S (length (concat l)).
Proof.
  revert k; induction l as [|row l IH]; intros [|k]; simpl; try discriminate.
  - intros [= ->]; rewrite !length_app; simpl; lia.
  - intros Hk; rewrite !length_app, (IH k Hk); lia.
Qed.

Lemma concat_replicate_nil {T : Type} (k : nat) : concat (replicate k (@nil T)) = [].
Proof. induction k as [|k IH]; simpl; [reflexivity | exact IH]. Qed.

Section Cells.
Variables (zgrid : ndarray R) (rows cols : nat).
Variables (h width bar_width : R) (num_colors : Z).
Hypothesis zgrid_shape : has_shape rows cols zgrid.
Hypothesis rows_ge_2 : (2 <= rows)%nat.
Hypothesis cols_ge_2 : (2 <= cols)%nat.
Hypothesis colors_ge_1 : (1 <= num_colors)%Z.
Let n := Z.of_nat rows.
Let m := Z.of_nat cols.
Let mx := max_of (concat zgrid).

Lemma mesh_of_snoc (k : nat) (pre : list (Z * Z)) (ij : Z * Z) :
  mesh_of zgrid h width bar_width num_colors n m mx k (pre ++ [ij])
  = mesh_of zgrid h width bar_width num_colors n m mx k pre
    ++ (if above_threshold zgrid ij
           && (Z.to_nat (color_index num_colors (cell_real zgrid ij) mx) =? k)%nat
        then [bar_cube h width bar_width n m mx (fst ij) (snd ij) (cell_real zgrid ij)]
        else []).
Proof.
  unfold mesh_of; rewrite List.filter_app, map_app; f_equal.
  cbn [List.filter].
  destruct (above_threshold zgrid ij
            && (Z.to_nat (color_index num_colors (cell_real zgrid ij) mx) =? k)%nat);
    reflexivity.
Qed.

(** Lines 85-102, for one cell of the grid. *)
Lemma barplot_cell_step (pre : list (Z * Z)) (i j : Z) (s : barplot_state) :
  (0 <= i < n)%Z -> (0 <= j < m)%Z ->
  barplot_after zgrid h width bar_width num_colors n m mx pre s ->
  exists s',
    barplot_cell (map (map Real) zgrid) h width bar_width num_colors (Real mx)
      n m i j s = Ok s' /\
    barplot_after zgrid h width bar_width num_colors n m mx (pre ++ [(i, j)]) s'.
Proof.
  intros Hi Hj [Hlen [Hcount [Hdiv Hmesh]]].
  unfold barplot_cell, py_truediv.
  destruct (n - 1 =? 0)%Z eqn:E1; [apply Z.eqb_eq in E1; unfold n in E1; lia|].
  destruct (m - 1 =? 0)%Z eqn:E2; [apply Z.eqb_eq in E2; unfold m in E2; lia|].
  cbn [bind Ok].
  rewrite (nd_get_eq rows cols) by now apply has_shape_map.
  rewrite !py_index_in_range by (unfold n, m in *; lia).
  cbn [bind Ok]; rewrite nd_cell_map.
  destruct (nd_cell_is_Some rows cols zgrid (Z.to_nat i) (Z.to_nat j) zgrid_shape)
    as [r Er]; [unfold n in Hi; lia | unfold m in Hj; lia |].
  rewrite Er; cbn [option_map bind Ok].
  assert (Ecell : cell_real zgrid (i, j) = r) by (unfold cell_real; cbn [fst snd]; now rewrite Er).
  assert (Hmax : r <= mx) by (apply max_of_ge, (nd_cell_in_concat _ _ _ _ Er)).
  cbn [f_gt]; destruct (Rlt_dec 0.001 r) as [Hr|Hr].
  - assert (Habove : above_threshold zgrid (i, j) = true).
    { unfold above_threshold; rewrite Ecell.
      destruct (Rlt_dec 0.001 r); [reflexivity | contradiction]. }
    assert (Hr0 : 0 < r) by lra.
    assert (Hmx0 : 0 < mx) by lra.
    destruct (add_bar_real h width bar_width num_colors
                (IZR i / IZR (n - 1)) (IZR j / IZR (m - 1)) r mx s colors_ge_1
                Hr0 Hmx0 Hlen) as [bm [Ebm Eadd]].
    eexists; split; [exact Eadd|].
    destruct (color_index_bounds num_colors r mx colors_ge_1 Hr0 Hmx0)
      as [Hk _].
    split; [|split; [|split]]; cbn [bmList zmax_divisions].
    + now rewrite length_insert.
    + rewrite (length_concat_insert_snoc _ _ _ _ Ebm), Hcount.
      rewrite List.filter_app, length_app; cbn [List.filter]; rewrite Habove.
      simpl; lia.
    + rewrite Hdiv, List.filter_app, length_app; cbn [List.filter]; rewrite Habove.
      simpl; lia.
    + intros k Hk'; rewrite mesh_of_snoc, Habove, Ecell; cbn [andb fst snd].
      destruct (Nat.eqb_spec (Z.to_nat (color_index num_colors r mx)) k) as [<-|Hne].
      * rewrite list_lookup_insert_eq by lia.
        rewrite Hmesh in Ebm by exact Hk'; injection Ebm as <-.
        reflexivity.
      * rewrite list_lookup_insert_ne by exact Hne.
        rewrite app_nil_r; now apply Hmesh.
  - assert (Hbelow : above_threshold zgrid (i, j) = false).
    { unfold above_threshold; rewrite Ecell.
      destruct (Rlt_dec 0.001 r); [contradiction | reflexivity]. }
    exists s; split; [reflexivity|].
    split; [exact Hlen | split; [|split]].
    + rewrite List.filter_app; cbn [List.filter]; rewrite Hbelow, app_nil_r; exact Hcount.
    + rewrite List.filter_app; cbn [List.filter]; rewrite Hbelow, app_nil_r; exact Hdiv.
    + intros k Hk; rewrite mesh_of_snoc, Hbelow; cbn [andb].
      rewrite app_nil_r; now apply Hmesh.
Qed.

(** Lines 80-102: the loops over the grid. *)
Lemma barplot_loops :
  exists s,
    for_each (py_range 0 n)
      (fun i s =>
         for_each (py_range 0 m)
           (fun j s =>
              barplot_cell (map (map Real) zgrid) h width bar_width num_colors
                (Real mx) n m i j s) s)
      {| bmList := replicate (Z.to_nat num_colors) []; zmax_divisions := 0 |}
    = Ok s /\
    barplot_after zgrid h width bar_width num_colors n m mx (grid_cells n m) s.
Proof.
  rewrite (for_each_nested (py_range 0 n) (py_range 0 m)
             (fun i j s =>
                barplot_cell (map (map Real) zgrid) h width bar_width num_colors
                  (Real mx) n m i j s)).
  fold (grid_cells n m).
  apply (for_each_total
           (fun pre s =>
              barplot_after zgrid h width bar_width num_colors n m mx pre s)).
  - split; [apply length_replicate|]; cbn [bmList zmax_divisions].
    split; [now rewrite concat_replicate_nil|]; split; [reflexivity|].
    intros k Hk; now rewrite lookup_replicate_2.
  - intros pre [i j] post s El Hs; cbn [fst snd].
    assert (Hin : In (i, j) (grid_cells n m))
      by (rewrite El; apply in_or_app; right; now left).
    apply in_prod_iff in Hin as [Hi Hj]; apply py_range_spec in Hi, Hj.
    now apply barplot_cell_step.
Qed.
End Cells.

(** The run of [heatmap_barplot] on a non-negative grid of reals with at
    least two rows and two columns, for at least one color group. *)
Lemma heatmap_barplot_spec (rgrid : ndarray R) (rows cols : nat)
  (h width bar_scale : R) (num_colors : Z) (logarithmic : bool) :
  has_shape rows cols rgrid -> (2 <= rows)%nat -> (2 <= cols)%nat ->
  Forall (Forall (fun r => 0 <= r)) rgrid -> (1 <= num_colors)%Z ->
  exists s,
    heatmap_barplot (map (map Real) rgrid) h width bar_scale num_colors logarithmic
    = Ok s /\
    barplot_after (log_grid logarithmic rgrid) h width
      (bar_scale * width / IZR (Z.max (Z.of_nat rows) (Z.of_nat cols)))
      num_colors (Z.of_nat rows) (Z.of_nat cols)
      (max_of (concat (log_grid logarithmic rgrid)))
      (grid_cells (Z.of_nat rows) (Z.of_nat cols)) s.
Proof.
  intros Hs Hrows Hcols Hnn HN.
  pose proof (has_shape_log_grid logarithmic rows cols rgrid Hs) as Hz.
  unfold heatmap_barplot; rewrite log_grid_real by exact Hnn.
  set (zgrid := log_grid logarithmic rgrid) in *.
  rewrite concat_map_map, np_max_real.
  2:{ destruct zgrid as [|[|r row] zg]; destruct Hz as [Hl HF]; simpl in *; try lia;
      [apply Forall_cons in HF as [HF _]; simpl in HF; lia | discriminate]. }
  cbn [bind Ok].
  assert (Hlen : length (map (map Real) zgrid) = rows)
    by (rewrite length_map; exact (proj1 Hz)).
  assert (Hhd : length (hd [] (map (map Real) zgrid)) = cols).
  { destruct zgrid as [|row zg]; destruct Hz as [Hl HF]; simpl in *; [lia|].
    apply Forall_cons in HF as [HF _]; now rewrite length_map. }
  rewrite Hlen, Hhd.
  destruct (Z.max (Z.of_nat rows) (Z.of_nat cols) =? 0)%Z eqn:E;
    [apply Z.eqb_eq in E; lia|].
  cbn [bind Ok].
  now apply barplot_loops.
Qed.

Lemma two_by_two_shape : has_shape 2 2 [[0; 1]; [2; 0]].
Proof. split; [reflexivity | repeat constructor]. Qed.

Lemma two_by_two_nonneg : Forall (Forall (fun r => 0 <= r)) [[0; 1]; [2; 0]].
Proof. repeat constructor; lra. Qed.


(** X13: under the same conditions the number of cubes added is the number
    of cells whose value (after the optional logarithm) is above 0.001: a
    cell at or below the threshold gets no bar, every other cell exactly one. *)
Theorem heatmap_barplot_bar_count (rgrid : ndarray R) (rows cols : nat)
  (h width bar_scale : R) (num_colors : Z) (logarithmic : bool) :
  has_shape rows cols rgrid -> (2 <= rows)%nat -> (2 <= cols)%nat ->
  Forall (Forall (fun r => 0 <= r)) rgrid -> (1 <= num_colors)%Z ->
  exists s,
    heatmap_barplot (map (map Real) rgrid) h width bar_scale num_colors logarithmic
    = Ok s /\
    length (concat (bmList s))
    = length (List.filter (above_threshold (log_grid logarithmic rgrid))
                (grid_cells (Z.of_nat rows) (Z.of_nat cols))).
Proof.
  intros Hs Hrows Hcols Hnn HN.
  destruct (heatmap_barplot_spec rgrid rows cols h width bar_scale num_colors
              logarithmic Hs Hrows Hcols Hnn HN) as [s [E [_ [Hcount _]]]].
  now exists s.
Qed.

Lemma heatmap_barplot_bar_count_witness :
  exists s,
    heatmap_barplot (map (map Real) [[0; 1]; [2; 0]]) 4 10 0.9 10 false = Ok s /\
    length (concat (bmList s))
    = length (List.filter (above_threshold [[0; 1]; [2; 0]]) (grid_cells 2 2)).
Proof.
  exact (heatmap_barplot_bar_count [[0; 1]; [2; 0]] 2 2 4 10 0.9 10 false
           two_by_two_shape ltac:(lia) ltac:(lia) two_by_two_nonneg ltac:(lia)).
Defined.





Lemma exp_le_mono (a b : R) : a <= b -> exp a <= exp b.
Proof.
  intros [H | ->]; [left; now apply exp_increasing | right; reflexivity].
Qed.

(** X15: the color group of lines 88-89 is an index of [bmList] and grows
    with the cell value: for [num_colors >= 1], [0 < r1 <= r2] and a positive
    maximum, [0 <= k(r1) <= k(r2) < num_colors]; since [t < 1], the bound
    [num_colors - 1] of the [min] is never the smaller one; and [add_bar]
    appends its cube to the mesh [k(r1)]. *)
Theorem color_index_monotone (num_colors : Z) (r1 r2 mx : R) :
  (1 <= num_colors)%Z -> 0 < r1 <= r2 -> 0 < mx ->
  (0 <= color_index num_colors r1 mx <= color_index num_colors r2 mx)%Z /\
  (color_index num_colors r2 mx < num_colors)%Z /\
  color_index num_colors r1 mx
  = Zfloor (IZR num_colors * (1 - exp (- (r1 / mx) / 0.2))) /\
  (forall (h width bar_width x y : R) (s : barplot_state),
     length (bmList s) = Z.to_nat num_colors ->
     exists s' bm c,
       add_bar h width bar_width num_colors x y (Real r1) (Real mx) s = Ok s' /\
       bmList s !! Z.to_nat (color_index num_colors r1 mx) = Some bm /\
       bmList s' !! Z.to_nat (color_index num_colors r1 mx) = Some (bm ++ [c])).
Proof.
  intros HN [Hr1 Hr12] Hmx.
  destruct (color_index_bounds num_colors r1 mx HN Hr1 Hmx) as [B1 E1].
  destruct (color_index_bounds num_colors r2 mx HN ltac:(lra) Hmx) as [B2 E2].
  split; [|split; [lia | split; [exact E1|]]].
  2:{ intros h width bar_width x y s Hlen.
      destruct (add_bar_real h width bar_width num_colors x y r1 mx s HN Hr1 Hmx Hlen)
        as [bm [Ebm Eadd]].
      do 3 eexists; split; [exact Eadd | split; [exact Ebm|]].
      cbn [bmList]; apply list_lookup_insert_eq.
      now apply lookup_lt_Some with bm. }
  split; [lia|]; rewrite E1, E2; apply Zfloor_le.
  assert (HNr : 1 <= IZR num_colors) by (apply IZR_le; lia).
  assert (Hq : r1 / mx <= r2 / mx).
  { unfold Rdiv; apply Rmult_le_compat_r; [left; now apply Rinv_0_lt_compat | lra]. }
  assert (He : exp (- (r2 / mx) / 0.2) <= exp (- (r1 / mx) / 0.2)).
  { apply exp_le_mono.
    assert (0 < / 0.2) by (apply Rinv_0_lt_compat; lra).
    unfold Rdiv in *; nra. }
  nra.
Qed.

Lemma color_index_monotone_witness :
  (0 <= color_index 10 1 2 <= color_index 10 2 2)%Z /\
  (color_index 10 2 2 < 10)%Z.
Proof.
  destruct (color_index_monotone 10 1 2 2 ltac:(lia) ltac:(lra) ltac:(lra))
    as [H1 [H2 _]].
  split; assumption.
Defined.

Lemma py_range_cons (a b : Z) :
  (a < b)%Z -> py_range a b = a :: py_range (a + 1) b.
Proof.
  intros H; unfold py_range.
  replace (Z.to_nat (b - a)) with (S (Z.to_nat (b - (a + 1)))) by lia.
  cbn [seq map]; f_equal; [lia|].
  rewrite <- seq_shift, map_map; apply map_ext; intros k; lia.
Qed.

(** X16: [heatmap_barplot] on a grid it cannot draw: a grid without cells
    raises [ValueError] (the maximum of an empty array), and a grid with a
    single row or a single column raises [ZeroDivisionError] at its first
    cell, whatever its values and the other arguments. *)
Theorem heatmap_barplot_degenerate_shape (grid : ndarray float64) (rows cols : nat)
  (h width bar_scale : R) (num_colors : Z) (logarithmic : bool) :
  has_shape rows cols grid ->
  (rows = 0%nat \/ cols = 0%nat ->
   heatmap_barplot grid h width bar_scale num_colors logarithmic
   = Raise ValueError) /\
  ((1 <= rows)%nat -> (1 <= cols)%nat -> rows = 1%nat \/ cols = 1%nat ->
   heatmap_barplot grid h width bar_scale num_colors logarithmic
   = Raise ZeroDivisionError).
Proof.
  intros Hs; unfold heatmap_barplot.
  set (grid' := if logarithmic
                then map (map (fun v => f_log (f_add v (Real 1)))) grid
                else grid).
  assert (Hs' : has_shape rows cols grid').
  { unfold grid'; destruct logarithmic; [now apply has_shape_map | exact Hs]. }
  clearbody grid'; clear Hs grid.
  split.
  - intros Hz.
    assert (E : concat grid' = []).
    { destruct Hs' as [Hl HF]; destruct Hz as [-> | ->].
      - destruct grid'; [reflexivity | discriminate].
      - clear Hl; induction HF as [|row g Hrow _ IH]; [reflexivity|].
        simpl; rewrite IH; destruct row; [reflexivity | discriminate]. }
    now rewrite E.
  - intros Hrows Hcols Hone.
    destruct grid' as [|row g]; [destruct Hs' as [Hl _]; simpl in Hl; lia|].
    assert (Hrow : length row = cols).
    { destruct Hs' as [_ HF]; now apply Forall_cons in HF as [HF _]. }
    destruct row as [|v row]; [simpl in Hrow; lia|].
    cbn [concat app np_max bind Ok hd].
    rewrite (proj1 Hs'), Hrow.
    destruct (Z.max (Z.of_nat rows) (Z.of_nat cols) =? 0)%Z eqn:E;
      [apply Z.eqb_eq in E; lia|].
    cbn [bind Ok].
    rewrite (py_range_cons 0 (Z.of_nat rows)) by lia; cbn [for_each].
    rewrite (py_range_cons 0 (Z.of_nat cols)) by lia; cbn [for_each].
    unfold barplot_cell at 1, py_truediv.
    destruct (Z.of_nat rows - 1 =? 0)%Z eqn:E1; [reflexivity|].
    destruct (Z.of_nat cols - 1 =? 0)%Z eqn:E2; [reflexivity|].
    apply Z.eqb_neq in E1, E2; lia.
Qed.

Lemma heatmap_barplot_degenerate_shape_witness :
  heatmap_barplot [[Real 1; Real 2; Real 3]] 4 10 0.9 10 false
  = Raise ZeroDivisionError.
Proof.
  apply (heatmap_barplot_degenerate_shape [[Real 1; Real 2; Real 3]] 1 3
           4 10 0.9 10 false);
    [split; [reflexivity | repeat constructor] | lia | lia | now left].
Defined.
End Barplot.

(** ** [heatmap_barplot]: the objects of lines 104-124 *)

Section Objects.
Local Open Scope R_scope.
Variable colormap : R -> rgba.
Variable num_colors : Z.
Variable bevel_width : R.

(** The loop of lines 105-117 adds one object per mesh and leaves [color]
    bound to the color of the last one. *)
Lemma bar_objects_loop (bml : list (list cube)) (start : nat) (st : objects_state) :
  num_colors <> 0%Z ->
  for_each (combine (seq start (length bml)) bml)
    (bar_object colormap num_colors bevel_width) st
  = Ok {| objList := objList st ++ bar_objects colormap num_colors bevel_width start bml;
          color := match bml with
                   | [] => color st
                   | _ => Some (colormap (IZR (Z.of_nat (start + length bml - 1))
                                          / IZR num_colors))
                   end |}.
Proof.
  intros HN; revert start st.
  induction bml as [|bm bml IH]; intros start st.
  - unfold bar_objects; cbn [length seq combine map for_each].
    rewrite app_nil_r; now destruct st.
  - cbn [length seq combine for_each].
    unfold bar_object at 1, py_truediv; cbn [fst snd].
    destruct (num_colors =? 0)%Z eqn:E; [apply Z.eqb_eq in E; contradiction|].
    cbn [bind Ok]; rewrite IH; cbn [objList color].
    unfold bar_objects; cbn [length seq combine map fst snd].
    rewrite <- app_assoc; cbn [app].
    do 2 f_equal.
    destruct bml as [|bm' bml'].
    + cbn [length]; now replace (start + 1 - 1)%nat with start by lia.
    + cbn [length];
        now replace (S start + S (length bml') - 1)%nat
          with (start + S (S (length bml')) - 1)%nat by lia.
Qed.

(** The whole call, from the state of the meshes at line 102. *)
Lemma heatmap_barplot_full_of_state (grid : ndarray float64) (h width bar_scale : R)
  (logarithmic : bool) (s : barplot_state) :
  (1 <= num_colors)%Z ->
  heatmap_barplot grid h width bar_scale num_colors logarithmic = Ok s ->
  length (bmList s) = Z.to_nat num_colors ->
  heatmap_barplot_full grid h width bar_scale num_colors colormap bevel_width
    logarithmic
  = Ok (bar_objects colormap num_colors bevel_width 0 (bmList s)
        ++ [plane_object colormap num_colors (length grid)]).
Proof.
  intros HN E Hlen; unfold heatmap_barplot_full, enumerate.
  rewrite E; cbn [bind Ok].
  rewrite bar_objects_loop by lia; cbn [bind Ok objList color app].
  destruct (bmList s) as [|bm bml] eqn:Eb; [simpl in Hlen; lia|].
  unfold plane_object; do 5 f_equal.
  rewrite Hlen; cbn [Nat.add]; rewrite Nat2Z.inj_sub, Z2Nat.id by lia.
  reflexivity.
Qed.

Lemma length_bar_objects (start : nat) (bml : list (list cube)) :
  length (bar_objects colormap num_colors bevel_width start bml) = length bml.
Proof.
  unfold bar_objects; rewrite length_map, length_combine, length_seq; lia.
Qed.

Lemma lookup_enumerate_from {T : Type} (l : list T) (start k : nat) (a : T) :
  l !! k = Some a ->
  combine (seq start (length l)) l !! k = Some ((start + k)%nat, a).
Proof.
  revert start k; induction l as [|b l IH]; intros start k Hk; [discriminate|].
  destruct k as [|k]; cbn [length seq combine].
  - simpl in Hk; injection Hk as ->; simpl; now rewrite Nat.add_0_r.
  - simpl in Hk; simpl.
    rewrite (IH (S start) k Hk); do 2 f_equal; lia.
Qed.

Lemma lookup_bar_objects (bml : list (list cube)) (k : nat) (bm : list cube) :
  bml !! k = Some bm ->
  bar_objects colormap num_colors bevel_width 0 bml !! k
  = Some {| obj_mesh := Bars bm;
            obj_material := rgb (colormap (IZR (Z.of_nat k) / IZR num_colors));
            obj_bevel := Some bevel_width |}.
Proof.
  intros Hk; unfold bar_objects.
  rewrite lookup_map, (lookup_enumerate_from bml 0 k bm Hk).
  reflexivity.
Qed.
End Objects.

(** ** The script: normalize, grid, bars *)

Section Script.
Local Open Scope R_scope.

Lemma degenerate_ranges (pts : list (R * R)) :
  ~ non_degenerate pts ->
  max_of (map fst pts) - min_of (map fst pts) = 0 /\
  max_of (map snd pts) - min_of (map snd pts) = 0.
Proof.
  intros H; unfold non_degenerate in H; split.
  - destruct (Req_dec (max_of (map fst pts) - min_of (map fst pts)) 0) as [E|E];
      [exact E | exfalso; apply H; now left].
  - destruct (Req_dec (max_of (map snd pts) - min_of (map snd pts)) 0) as [E|E];
      [exact E | exfalso; apply H; now right].
Qed.

(** The rows of the result when all the points coincide. *)
Lemma normalize_points_all_nan (pts : list (R * R)) :
  pts <> [] -> ~ non_degenerate pts ->
  normalize_points pts = Ok (map (fun _ => (NaN, NaN)) pts).
Proof.
  intros Hne Hd; destruct (degenerate_ranges pts Hd) as [HX HY].
  destruct pts as [|p t]; [congruence|].
  rewrite normalize_points_nonempty.
  set (pts := p :: t) in *.
  f_equal; apply map_ext_in; intros q Hq.
  unfold normalize_row.
  rewrite (degenerate_column _ (fst q) HX) by now apply in_map.
  rewrite (degenerate_column _ (snd q) HY) by now apply in_map.
  rewrite HX, HY, Rmax_left by lra.
  now rewrite f_div_zero_zero.
Qed.

Lemma real_row_of_cells (row : list float64) :
  Forall (fun v => exists x, v = Real x /\ 0 <= x) row ->
  exists rrow, row = map Real rrow /\ Forall (fun x => 0 <= x) rrow.
Proof.
  induction 1 as [|v row [x [-> Hx]] _ [rrow [-> Hr]]].
  - exists []; split; [reflexivity | constructor].
  - exists (x :: rrow); split; [reflexivity | now constructor].
Qed.

Lemma real_grid_of_cells (rows cols : nat) (grid : ndarray float64) :
  has_shape rows cols grid ->
  (forall i j, (i < rows)%nat -> (j < cols)%nat ->
     exists x, nd_cell grid i j = Some (Real x) /\ 0 <= x) ->
  exists rgrid : ndarray R,
    grid = map (map Real) rgrid /\
    has_shape rows cols rgrid /\
    Forall (Forall (fun x => 0 <= x)) rgrid.
Proof.
  intros Hs Hc.
  assert (HF : Forall (fun row => length row = cols /\
                 Forall (fun v => exists x, v = Real x /\ 0 <= x) row) grid).
  { apply Forall_lookup; intros i row Hrow.
    pose proof (has_shape_row _ _ _ _ _ Hs Hrow) as Hlen.
    split; [exact Hlen|].
    apply Forall_lookup; intros j v Hv.
    assert (Hi : (i < rows)%nat)
      by (rewrite <- (proj1 Hs); now apply lookup_lt_Some with row).
    assert (Hj : (j < cols)%nat)
      by (rewrite <- Hlen; now apply lookup_lt_Some with v).
    destruct (Hc i j Hi Hj) as [x [Ex Hx]].
    unfold nd_cell in Ex; rewrite Hrow, Hv in Ex; injection Ex as ->.
    now exists x. }
  destruct Hs as [Hl _]; subst rows.
  induction HF as [|row g [Hlen Hrow] _ IH].
  - exists []; repeat split; constructor.
  - destruct IH as [rg [-> [[Hl' HF'] Hnn]]].
    + intros i j Hi Hj; apply (Hc (S i) j); simpl; lia || assumption.
    + destruct (real_row_of_cells row Hrow) as [rrow [-> Hr]].
      exists (rrow :: rg); split; [reflexivity|].
      split; [split|].
      * simpl; now rewrite !length_map.
      * constructor; [now rewrite length_map in Hlen | exact HF'].
      * now constructor.
Qed.

(** X21: the whole call of [heatmap_barplot], under the conditions of X12
    (a non-negative grid of reals with at least two rows and two columns, at
    least one color group), builds [num_colors + 1] objects: for each color
    group [k], in order, an object with the mesh of the group, a material of
    color [colormap(k / num_colors)[:3]] and a bevel of width [bevel_width];
    then the circle of radius [n**2], [n] the number of rows, whose material
    has the color of the last group, the name [color] of line 122 being
    still bound to it. *)
Theorem heatmap_barplot_full_objects (rgrid : ndarray R) (rows cols : nat)
  (h width bar_scale : R) (num_colors : Z) (colormap : R -> rgba)
  (bevel_width : R) (logarithmic : bool) :
  has_shape rows cols rgrid -> (2 <= rows)%nat -> (2 <= cols)%nat ->
  Forall (Forall (fun r => 0 <= r)) rgrid -> (1 <= num_colors)%Z ->
  exists (s : barplot_state) (objs : list scene_object),
    heatmap_barplot (map (map Real) rgrid) h width bar_scale num_colors logarithmic
    = Ok s /\
    heatmap_barplot_full (map (map Real) rgrid) h width bar_scale num_colors
      colormap bevel_width logarithmic = Ok objs /\
    length objs = S (Z.to_nat num_colors) /\
    (forall k bm, bmList s !! k = Some bm ->
       objs !! k
       = Some {| obj_mesh := Bars bm;
                 obj_material := rgb (colormap (IZR (Z.of_nat k) / IZR num_colors));
                 obj_bevel := Some bevel_width |}) /\
    objs !! Z.to_nat num_colors
    = Some {| obj_mesh := Circle (Z.of_nat rows ^ 2);
              obj_material := rgb (colormap (IZR (num_colors - 1) / IZR num_colors));
              obj_bevel := None |}.
Proof.
  intros Hs Hrows Hcols Hnn HN.
  destruct (heatmap_barplot_spec rgrid rows cols h width bar_scale num_colors
              logarithmic Hs Hrows Hcols Hnn HN) as [s [E [Hlen _]]].
  pose proof (heatmap_barplot_full_of_state colormap num_colors bevel_width
                _ h width bar_scale logarithmic s HN E Hlen) as F.
  rewrite length_map, (proj1 Hs) in F.
  eexists s, _; split; [exact E|]; split; [exact F|].
  split; [|split].
  - rewrite length_app, length_bar_objects, Hlen; simpl; lia.
  - intros k bm Hk.
    rewrite lookup_app_l
      by (rewrite length_bar_objects; now apply lookup_lt_Some with bm).
    now apply lookup_bar_objects.
  - rewrite lookup_app_r by (rewrite length_bar_objects; lia).
    rewrite length_bar_objects, Hlen, Nat.sub_diag; reflexivity.
Qed.

Lemma heatmap_barplot_full_objects_witness :
  exists objs : list scene_object,
    heatmap_barplot_full (map (map Real) [[0; 1]; [2; 0]]) 4 10 0.9 10
      (fun t => (t, 0, 1 - t, 1)) 0.015 false = Ok objs /\
    length objs = 11%nat /\
    objs !! 10%nat
    = Some {| obj_mesh := Circle 4;
              obj_material := (IZR (10 - 1) / IZR 10, 0, 1 - IZR (10 - 1) / IZR 10);
              obj_bevel := None |}.
Proof.
  destruct (heatmap_barplot_full_objects [[0; 1]; [2; 0]] 2 2 4 10 0.9 10
              (fun t => (t, 0, 1 - t, 1)) 0.015 false
              two_by_two_shape ltac:(lia) ltac:(lia) two_by_two_nonneg ltac:(lia))
    as [s [objs [_ [E [Hlen [_ Hlast]]]]]].
  exists objs; split; [exact E|]; split; [exact Hlen | exact Hlast].
Defined.

(** X17: the run of the script on its point array. When the points are
    empty or all coincide it raises [ValueError] (an empty array has no
    minimum; coincident points are normalized to [NaN], which [int] rejects
    in [heatmap_grid]). When the points are within the range of the floats
    ([float64_safe]) the three stages run to the end: the grid is an 80 by 80
    grid of reals, [bmList] has 10 meshes with one cube per cell of the grid
    above the threshold, and the call builds 11 objects, the 10 meshes in
    order and the circle of radius 6400. *)
Theorem render_heatmap_result (viridis : R -> rgba) (pts : list (R * R)) :
  (~ non_degenerate pts -> render_heatmap viridis pts = Raise ValueError) /\
  (float64_safe pts ->
   exists (out : list (R * R)) (rgrid : ndarray R) (s : barplot_state)
          (objs : list scene_object),
     normalize_points pts = Ok (map real_row out) /\
     heatmap_grid {| points := pts |} (map real_row out) 0.00005 80 2
       = Ok (map (map Real) rgrid) /\
     heatmap_barplot (map (map Real) rgrid) 4 10 0.9 10 false = Ok s /\
     render_heatmap viridis pts = Ok objs /\
     has_shape 80 80 rgrid /\
     length (bmList s) = 10%nat /\
     length (concat (bmList s))
     = length (List.filter (above_threshold rgrid) (grid_cells 80 80)) /\
     length objs = 11%nat /\
     (forall k bm, bmList s !! k = Some bm ->
        exists o, objs !! k = Some o /\ obj_mesh o = Bars bm) /\
     (exists o, objs !! 10%nat = Some o /\ obj_mesh o = Circle 6400)).
Proof.
  unfold render_heatmap; split.
  - intros Hd; destruct pts as [|p t]; [reflexivity|].
    rewrite normalize_points_all_nan by (discriminate || exact Hd).
    cbn [bind Ok]; unfold heatmap_grid.
    rewrite (fill_buckets_first_failure _ _ 80 0 (NaN, NaN) ValueError);
      [reflexivity | lia | simpl; lia | reflexivity | constructor | reflexivity].
  - intros Hsafe; pose proof (float64_safe_ranges pts Hsafe) as Hnd.
    destruct (normalize_points_unit_rows pts Hnd) as [out [En [Hlen Hout]]].
    destruct (heatmap_grid_unit_square {| points := pts |} out 0.00005 80 2 Hout)
      as [X [grid [_ [Eg [Hs Hc]]]]]; [lia | lra | simpl; lia |].
    destruct (real_grid_of_cells 80 80 grid Hs) as [rgrid [-> [Hrs Hnn]]].
    { intros i j Hi Hj; eexists; split.
      - specialize (Hc (Z.of_nat i) (Z.of_nat j) ltac:(lia) ltac:(lia)).
        rewrite !Nat2Z.id in Hc; exact (proj2 Hc).
      - apply Rsum_gauss_nonneg. }
    destruct (heatmap_barplot_spec rgrid 80 80 4 10 0.9 10 false Hrs
                ltac:(lia) ltac:(lia) Hnn ltac:(lia))
      as [s [Es [Hl [Hcount _]]]].
    assert (HN : (1 <= 10)%Z) by lia.
    pose proof (heatmap_barplot_full_of_state viridis 10 0.015
                  _ 4 10 0.9 false s HN Es Hl) as F.
    rewrite length_map, (proj1 Hrs) in F.
    eexists out, rgrid, s, _.
    split; [exact En | split; [exact Eg | split; [exact Es|]]].
    split; [rewrite En; cbn [bind Ok]; rewrite Eg; cbn [bind Ok]; exact F|].
    split; [exact Hrs | split; [exact Hl | split; [exact Hcount|]]].
    split; [|split].
    + rewrite length_app, length_bar_objects, Hl; reflexivity.
    + intros k bm Hk; eexists; split.
      * rewrite lookup_app_l
          by (rewrite length_bar_objects; now apply lookup_lt_Some with bm).
        rewrite (lookup_bar_objects viridis 10 0.015 _ k bm Hk); reflexivity.
      * reflexivity.
    + eexists; split.
      * rewrite lookup_app_r by (rewrite length_bar_objects; lia).
        rewrite length_bar_objects, Hl; reflexivity.
      * reflexivity.
Qed.

Lemma render_heatmap_result_witness :
  render_heatmap (fun t => (t, 0, 1 - t, 1)) [(1, 2); (1, 2)] = Raise ValueError /\
  exists objs,
    render_heatmap (fun t => (t, 0, 1 - t, 1)) [(0, 0); (2, 1)] = Ok objs /\
    length objs = 11%nat.
Proof.
  split.
  - apply (render_heatmap_result (fun t => (t, 0, 1 - t, 1)) [(1, 2); (1, 2)]).
    intros [H | H]; apply H; simpl; unfold Rmax, Rmin;
      repeat match goal with |- context [Rle_dec ?a ?b] => destruct (Rle_dec a b) end;
      lra.
  - destruct (proj2 (render_heatmap_result (fun t => (t, 0, 1 - t, 1))
                       [(0, 0); (2, 1)]) float64_safe_two_points)
      as [out [rgrid [s [objs [_ [_ [_ [E [_ [_ [_ [Hl _]]]]]]]]]]]].
    now exists objs.
Defined.
End Script.

(** ** Order of the points, and the tallest bar *)

Section OrderAndTallest.
Local Open Scope R_scope.

Lemma Rsum_filter_Permutation {Q : Type} (f : Q -> R) (P : Q -> bool)
  (l l' : list Q) :
  Permutation l l' ->
  Rsum (map f (List.filter P l)) = Rsum (map f (List.filter P l')).
Proof.
  induction 1 as [|x l l' _ IH|x y l|l l' l'' _ IH1 _ IH2].
  - reflexivity.
  - simpl; destruct (P x); simpl; unfold Rsum in *; simpl; rewrite ?IH; reflexivity.
  - simpl; destruct (P x), (P y); unfold Rsum; simpl; lra.
  - now rewrite IH1.
Qed.

(** X18: in exact arithmetic the grid does not depend on the order of the
    points: for two orderings of the same points of the unit square
    ([n >= 2], [sigma_sq] other than zero, the module-level [points] having
    the length of the argument) [heatmap_grid] returns the same grid. *)
Theorem heatmap_grid_order_independent (g g' : globals) (pts pts' : list (R * R))
  (sigma_sq : R) (n m : Z) :
  Permutation pts pts' ->
  Forall in_unit_square pts -> (2 <= n)%Z -> sigma_sq <> 0 ->
  length (points g) = length pts -> length (points g') = length pts' ->
  exists grid : ndarray float64,
    heatmap_grid g (map real_row pts) sigma_sq n m = Ok grid /\
    heatmap_grid g' (map real_row pts') sigma_sq n m = Ok grid.
Proof.
  intros Hperm Hpts Hn Hs Hlen Hlen'.
  assert (Hpts' : Forall in_unit_square pts').
  { rewrite Forall_forall in Hpts |- *; intros q Hq; apply Hpts.
    now rewrite Hperm. }
  destruct (heatmap_grid_unit_square g pts sigma_sq n m Hpts Hn Hs) as [X [grid H]];
    [lia|].
  destruct (heatmap_grid_unit_square g' pts' sigma_sq n m Hpts' Hn Hs)
    as [X' [grid' H']]; [lia|].
  rewrite Hlen, firstn_all in H; rewrite Hlen', firstn_all in H'.
  destruct H as [_ [E [Hsh H]]]; destruct H' as [_ [E' [Hsh' H']]].
  exists grid; split; [exact E|].
  rewrite E'; f_equal.
  apply (nd_ext (Z.to_nat n) (Z.to_nat n)); [exact Hsh' | exact Hsh|].
  intros i j Hi Hj.
  pose proof (proj2 (H (Z.of_nat i) (Z.of_nat j) ltac:(lia) ltac:(lia))) as C.
  pose proof (proj2 (H' (Z.of_nat i) (Z.of_nat j) ltac:(lia) ltac:(lia))) as C'.
  rewrite !Nat2Z.id in C, C'; rewrite C, C'; do 2 f_equal.
  unfold window_sum, window_of; symmetry; now apply Rsum_filter_Permutation.
Qed.

Lemma heatmap_grid_order_independent_witness :
  exists grid : ndarray float64,
    heatmap_grid {| points := [(0, 0); (0, 0)] |}
      (map real_row [(0, 0); (1, 1)]) 1 2 1 = Ok grid /\
    heatmap_grid {| points := [(0, 0); (0, 0)] |}
      (map real_row [(1, 1); (0, 0)]) 1 2 1 = Ok grid.
Proof.
  apply (heatmap_grid_order_independent {| points := [(0, 0); (0, 0)] |}
           {| points := [(0, 0); (0, 0)] |} [(0, 0); (1, 1)] [(1, 1); (0, 0)]).
  - apply perm_swap.
  - repeat constructor; simpl; lra.
  - lia.
  - lra.
  - reflexivity.
  - reflexivity.
Defined.





End OrderAndTallest.

(** ** [heatmap_barplot] without color groups *)

Section NoColor.
Local Open Scope R_scope.

Lemma for_each_first_failure {T S : Type} (body : T -> S -> result S) (s : S)
  (pre : list T) (a : T) (post : list T) (e : exn) :
  (forall b, In b pre -> body b s = Ok s) -> body a s = Raise e ->
  for_each (pre ++ a :: post) body s = Raise e.
Proof.
  intros Hpre Ha; rewrite for_each_app, (for_each_unchanged pre body s Hpre).
  cbn [bind Ok for_each]; now rewrite Ha.
Qed.

Lemma first_true {T : Type} (P : T -> bool) (l : list T) :
  (exists x, In x l /\ P x = true) ->
  exists pre a post,
    l = pre ++ a :: post /\ P a = true /\ forall b, In b pre -> P b = false.
Proof.
  induction l as [|x l IH]; intros [y [Hy Py]]; [destruct Hy|].
  destruct (P x) eqn:Px.
  - exists [], x, l; repeat split; [exact Px | intros b []].
  - destruct IH as [pre [a [post [-> [Pa Hpre]]]]].
    + destruct Hy as [-> | Hy]; [congruence | now exists y].
    + exists (x :: pre), a, post; repeat split; [exact Pa|].
      intros b [<- | Hb]; [exact Px | now apply Hpre].
Qed.

Lemma py_index_empty (k : Z) : py_index 0 k = Raise IndexError.
Proof.
  unfold py_index.
  destruct ((0 <=? k)%Z && (k <? Z.of_nat 0)%Z) eqn:E1.
  { apply andb_prop in E1 as [A B]; apply Z.leb_le in A; apply Z.ltb_lt in B.
    simpl in B; lia. }
  destruct ((- Z.of_nat 0 <=? k)%Z && (k <? 0)%Z) eqn:E2; [|reflexivity].
  apply andb_prop in E2 as [A B]; apply Z.leb_le in A; apply Z.ltb_lt in B.
  simpl in A; lia.
Qed.

(** Without color groups ([num_colors <= 0]) [bmList] is empty: on a
    non-negative grid of reals with at least two rows and two columns, the
    loop over the grid raises [IndexError] when some cell is above 0.001, and
    reaches line 102 with the empty [bmList] when none is. *)
Lemma heatmap_barplot_no_color_loop (rgrid : ndarray R) (rows cols : nat)
  (h width bar_scale : R) (num_colors : Z) (logarithmic : bool) :
  has_shape rows cols rgrid -> (2 <= rows)%nat -> (2 <= cols)%nat ->
  Forall (Forall (fun r => 0 <= r)) rgrid -> (num_colors <= 0)%Z ->
  heatmap_barplot (map (map Real) rgrid) h width bar_scale num_colors logarithmic
  = if existsb (above_threshold (log_grid logarithmic rgrid))
         (grid_cells (Z.of_nat rows) (Z.of_nat cols))
    then Raise IndexError
    else Ok {| bmList := []; zmax_divisions := 0 |}.
Proof.
  intros Hs Hrows Hcols Hnn HN.
  pose proof (has_shape_log_grid logarithmic rows cols rgrid Hs) as Hz.
  unfold heatmap_barplot; rewrite log_grid_real by exact Hnn.
  set (zgrid := log_grid logarithmic rgrid) in *.
  rewrite concat_map_map, np_max_real.
  2:{ destruct zgrid as [|[|r row] zg]; destruct Hz as [Hl HF]; simpl in *; try lia;
      [apply Forall_cons in HF as [HF _]; simpl in HF; lia | discriminate]. }
  cbn [bind Ok].
  assert (Hlen : length (map (map Real) zgrid) = rows)
    by (rewrite length_map; exact (proj1 Hz)).
  assert (Hhd : length (hd [] (map (map Real) zgrid)) = cols).
  { destruct zgrid as [|row zg]; destruct Hz as [Hl HF]; simpl in *; [lia|].
    apply Forall_cons in HF as [HF _]; now rewrite length_map. }
  rewrite Hlen, Hhd.
  destruct (Z.max (Z.of_nat rows) (Z.of_nat cols) =? 0)%Z eqn:E;
    [apply Z.eqb_eq in E; lia|].
  cbn [bind Ok].
  replace (Z.to_nat num_colors) with 0%nat by lia; cbn [replicate].
  set (bw := bar_scale * width / IZR (Z.max (Z.of_nat rows) (Z.of_nat cols))).
  set (mx := max_of (concat zgrid)).
  set (s0 := {| bmList := []; zmax_divisions := 0 |}).
  rewrite (for_each_nested (py_range 0 (Z.of_nat rows)) (py_range 0 (Z.of_nat cols))
             (fun i j s =>
                barplot_cell (map (map Real) zgrid) h width bw num_colors
                  (Real mx) (Z.of_nat rows) (Z.of_nat cols) i j s)).
  fold (grid_cells (Z.of_nat rows) (Z.of_nat cols)).
  assert (Hcell : forall ij, In ij (grid_cells (Z.of_nat rows) (Z.of_nat cols)) ->
            barplot_cell (map (map Real) zgrid) h width bw num_colors (Real mx)
              (Z.of_nat rows) (Z.of_nat cols) (fst ij) (snd ij) s0
            = if above_threshold zgrid ij then Raise IndexError else Ok s0).
  { intros [i j] Hin; cbn [fst snd].
    apply in_prod_iff in Hin as [Hi Hj]; apply py_range_spec in Hi, Hj.
    unfold barplot_cell, py_truediv.
    destruct (Z.of_nat rows - 1 =? 0)%Z eqn:E1; [apply Z.eqb_eq in E1; lia|].
    destruct (Z.of_nat cols - 1 =? 0)%Z eqn:E2; [apply Z.eqb_eq in E2; lia|].
    cbn [bind Ok].
    rewrite (nd_get_eq rows cols) by now apply has_shape_map.
    rewrite !py_index_in_range by lia.
    cbn [bind Ok]; rewrite nd_cell_map.
    destruct (nd_cell_is_Some rows cols zgrid (Z.to_nat i) (Z.to_nat j) Hz)
      as [r Er]; [lia | lia |].
    rewrite Er; cbn [option_map bind Ok].
    assert (Ecell : cell_real zgrid (i, j) = r)
      by (unfold cell_real; cbn [fst snd]; now rewrite Er).
    unfold above_threshold; rewrite Ecell; cbn [f_gt].
    destruct (Rlt_dec 0.001 r) as [Hr|Hr]; [|reflexivity].
    assert (Hmax : r <= mx) by (apply max_of_ge, (nd_cell_in_concat _ _ _ _ Er)).
    unfold add_bar; cbn [f_mul].
    rewrite !(f_div_real _ mx) by lra.
    cbn [f_neg f_add]; rewrite (f_div_real _ 0.2) by lra.
    unfold f_sub; cbn [f_exp f_neg f_add f_mul py_int bind Ok bmList s0 length].
    now rewrite py_index_empty. }
  destruct (existsb (above_threshold zgrid)
              (grid_cells (Z.of_nat rows) (Z.of_nat cols))) eqn:Eex.
  - apply existsb_exists in Eex.
    destruct (first_true _ _ Eex) as [pre [a [post [El [Pa Hpre]]]]].
    rewrite El; apply for_each_first_failure.
    + intros b Hb; rewrite Hcell, (Hpre b Hb);
        [reflexivity | rewrite El; apply in_or_app; now left].
    + rewrite Hcell, Pa; [reflexivity | rewrite El; apply in_or_app; right; now left].
  - apply for_each_unchanged; intros ij Hij; rewrite (Hcell ij Hij).
    destruct (above_threshold zgrid ij) eqn:Ea; [|reflexivity].
    assert (existsb (above_threshold zgrid)
              (grid_cells (Z.of_nat rows) (Z.of_nat cols)) = true)
      by (apply existsb_exists; now exists ij).
    congruence.
Qed.

(** X20: without color groups ([num_colors <= 0]) the call of
    [heatmap_barplot] never returns: on a non-negative grid of reals with at
    least two rows and two columns it raises [IndexError] at [bmList[k]]
    (line 90) when some cell is above 0.001, and [UnboundLocalError] at
    [color[:3]] (line 122) when none is, the loop of line 105 having bound
    no [color]. *)
Theorem heatmap_barplot_no_color (rgrid : ndarray R) (rows cols : nat)
  (h width bar_scale : R) (num_colors : Z) (colormap : R -> rgba)
  (bevel_width : R) (logarithmic : bool) :
  has_shape rows cols rgrid -> (2 <= rows)%nat -> (2 <= cols)%nat ->
  Forall (Forall (fun r => 0 <= r)) rgrid -> (num_colors <= 0)%Z ->
  heatmap_barplot_full (map (map Real) rgrid) h width bar_scale num_colors
    colormap bevel_width logarithmic
  = if existsb (above_threshold (log_grid logarithmic rgrid))
         (grid_cells (Z.of_nat rows) (Z.of_nat cols))
    then Raise IndexError
    else Raise UnboundLocalError.
Proof.
  intros Hs Hrows Hcols Hnn HN; unfold heatmap_barplot_full.
  rewrite (heatmap_barplot_no_color_loop rgrid rows cols h width bar_scale
             num_colors logarithmic Hs Hrows Hcols Hnn HN).
  destruct (existsb (above_threshold (log_grid logarithmic rgrid))
              (grid_cells (Z.of_nat rows) (Z.of_nat cols))); reflexivity.
Qed.

Lemma two_by_two_above :
  existsb (above_threshold (log_grid false [[0; 1]; [2; 0]])) (grid_cells 2 2) = true.
Proof.
  apply existsb_exists; exists (0%Z, 1%Z); split; [simpl; auto|].
  unfold above_threshold, cell_real, nd_cell; simpl.
  destruct (Rlt_dec 0.001 1); [reflexivity | lra].
Qed.

Lemma zeros_not_above :
  existsb (above_threshold (log_grid false [[0; 0]; [0; 0]])) (grid_cells 2 2) = false.
Proof.
  unfold grid_cells, above_threshold, cell_real, nd_cell; simpl.
  destruct (Rlt_dec 0.001 0); [lra | reflexivity].
Qed.

Lemma heatmap_barplot_no_color_witness :
  heatmap_barplot_full (map (map Real) [[0; 1]; [2; 0]]) 4 10 0.9 0
    (fun t => (t, 0, 1 - t, 1)) 0.015 false = Raise IndexError /\
  heatmap_barplot_full (map (map Real) [[0; 0]; [0; 0]]) 4 10 0.9 0
    (fun t => (t, 0, 1 - t, 1)) 0.015 false = Raise UnboundLocalError.
Proof.
  split.
  - rewrite (heatmap_barplot_no_color [[0; 1]; [2; 0]] 2 2 4 10 0.9 0
               (fun t => (t, 0, 1 - t, 1)) 0.015 false
               two_by_two_shape ltac:(lia) ltac:(lia) two_by_two_nonneg ltac:(lia)).
    change (Z.of_nat 2) with 2%Z; now rewrite two_by_two_above.
  - rewrite (heatmap_barplot_no_color [[0; 0]; [0; 0]] 2 2 4 10 0.9 0
               (fun t => (t, 0, 1 - t, 1)) 0.015 false);
      [| split; [reflexivity | repeat constructor] | lia | lia
       | repeat constructor; lra | lia].
    change (Z.of_nat 2) with 2%Z; now rewrite zeros_not_above.
Defined.
End NoColor.
